(** * Gemini-Coder-CLI: action extraction, normalisation, dispatch and the
      table of spawned processes

    A shallow embedding of [cliagent/json_parser.py],
    [cliagent/process_manager.py], [cliagent/command_executor.py], of the
    action loop of [cliagent/main.py], of [cliagent/conversation_history.py]
    and of the line edits of [handle_update_file] in
    [cliagent/file_operations.py].

    Conventions of the embedding.
    - A Python [str] is a [string]; every [ascii] stands for one code point
      below 256.
    - A Python [dict] is an association list in insertion order.
    - Everything the operating system decides (exit status of a child, the
      content of an output queue, whether a write succeeds, the clock) is an
      explicit argument of the operation that observes it.
    - [print] and the console only log; they are not part of the model. *)

From Stdlib Require Import String Ascii List ZArith QArith Qround Lia Lqa Bool
  DecimalString.
From Stdlib Require DecimalPos.
Import ListNotations.
Open Scope string_scope.
Open Scope bool_scope.
Open Scope nat_scope.

(* ================================================================== *)
(** ** Python string primitives used by the sources *)

Module Py.

(** [str.isspace] on a single character, for code points below 256; the
    same set is what [\s] matches in a [str] pattern of [re]. *)
Definition isspace (c : ascii) : bool :=
  let n := nat_of_ascii c in
  ((9 <=? n) && (n <=? 13)) || ((28 <=? n) && (n <=? 32))
  || (n =? 133) || (n =? 160).

Section Strip.
Variable space : ascii -> bool.

Fixpoint lstrip_of (s : string) : string :=
  match s with
  | EmptyString => EmptyString
  | String c r => if space c then lstrip_of r else s
  end.

Fixpoint rstrip_of (s : string) : string :=
  match s with
  | EmptyString => EmptyString
  | String c r =>
      match rstrip_of r with
      | EmptyString => if space c then EmptyString else String c EmptyString
      | r' => String c r'
      end
  end.
End Strip.

(** [s.lstrip()] and [s.rstrip()] *)
Definition lstrip (s : string) : string := lstrip_of isspace s.
Definition rstrip (s : string) : string := rstrip_of isspace s.

(** [s.strip()] *)
Definition strip (s : string) : string := rstrip (lstrip s).

(** [s.startswith(p)] *)
Definition startswith (s p : string) : bool := String.prefix p s.

(** [s[n:]] *)
Fixpoint drop (n : nat) (s : string) : string :=
  match n, s with
  | O, _ => s
  | S n', String _ r => drop n' r
  | S _, EmptyString => EmptyString
  end.

(** [s[:n]] *)
Fixpoint take (n : nat) (s : string) : string :=
  match n, s with
  | S n', String c r => String c (take n' r)
  | _, _ => EmptyString
  end.

(** [s[a:b]] for [0 <= a] and [0 <= b] *)
Definition slice (a b : nat) (s : string) : string := take (b - a) (drop a s).

(** [s.find(p)], with [None] for Python's [-1]. *)
Fixpoint find_at (p s : string) (i : nat) : option nat :=
  if String.prefix p s then Some i
  else match s with
       | EmptyString => None
       | String _ r => find_at p r (S i)
       end.

Definition find (p s : string) : option nat := find_at p s 0.

(** [p in s] *)
Definition contains (p s : string) : bool :=
  match find p s with Some _ => true | None => false end.

(** [s.endswith(p)] *)
Definition endswith (s p : string) : bool :=
  (String.length p <=? String.length s)
  && String.eqb (drop (String.length s - String.length p) s) p.

Definition lower_char (c : ascii) : ascii :=
  let n := nat_of_ascii c in
  if ((65 <=? n) && (n <=? 90))
     || ((192 <=? n) && (n <=? 222) && negb (n =? 215))
  then ascii_of_nat (n + 32) else c.

(** [s.lower()] *)
Fixpoint lower (s : string) : string :=
  match s with
  | EmptyString => EmptyString
  | String c r => String (lower_char c) (lower r)
  end.

(** The characters at which [str.splitlines] breaks a line (below 256):
    LF, VT, FF, CR, FS, GS, RS and NEL. *)
Definition is_linebreak (c : ascii) : bool :=
  let n := nat_of_ascii c in
  ((10 <=? n) && (n <=? 13)) || ((28 <=? n) && (n <=? 30)) || (n =? 133).

(** [splitlines_aux cur s]: [cur] is the line being read, reversed. *)
Fixpoint splitlines_aux (cur : list ascii) (s : string) : list string :=
  match s with
  | EmptyString =>
      match cur with
      | [] => []
      | _ => [string_of_list_ascii (rev cur)]
      end
  | String c r =>
      if is_linebreak c then
        let r' := if (nat_of_ascii c =? 13) then
                    match r with
                    | String d r2 => if (nat_of_ascii d =? 10) then r2 else r
                    | EmptyString => r
                    end
                  else r in
        string_of_list_ascii (rev cur) :: splitlines_aux [] r'
      else splitlines_aux (c :: cur) r
  end.

(** [s.splitlines()] *)
Definition splitlines (s : string) : list string := splitlines_aux [] s.

Definition is_digit (c : ascii) : bool :=
  let n := nat_of_ascii c in (48 <=? n) && (n <=? 57).

Definition digit_val (c : ascii) : Z := Z.of_nat (nat_of_ascii c - 48).

(** Digits of an integer literal; a single underscore may separate two
    digits.  [after_us] tells that the previous character was one. *)
Fixpoint int_digits (acc : Z) (after_us : bool) (s : string) : option Z :=
  match s with
  | EmptyString => if after_us then None else Some acc
  | String c r =>
      if is_digit c then int_digits (acc * 10 + digit_val c)%Z false r
      else if (nat_of_ascii c =? 95) && negb after_us
           then int_digits acc true r
           else None
  end.

Definition int_unsigned (s : string) : option Z :=
  match s with
  | String c _ => if is_digit c then int_digits 0%Z false s else None
  | EmptyString => None
  end.

(** The whitespace [int] accepts around a literal: that of [isspace]
    without the separators FS, GS, RS and US. *)
Definition int_space (c : ascii) : bool :=
  let n := nat_of_ascii c in
  ((9 <=? n) && (n <=? 13)) || (n =? 32) || (n =? 133) || (n =? 160).

(** [int(s)] for a string in base 10; [None] is [ValueError]. *)
Definition int_of_str (s : string) : option Z :=
  match rstrip_of int_space (lstrip_of int_space s) with
  | String c r =>
      if (nat_of_ascii c =? 45) then option_map Z.opp (int_unsigned r)
      else if (nat_of_ascii c =? 43) then int_unsigned r
      else int_unsigned (String c r)
  | EmptyString => None
  end.

(** [str(n)] for an integer *)
Definition str_of_int (n : Z) : string := NilZero.string_of_int (Z.to_int n).

(** Every character of [s] is whitespace. *)
Fixpoint all_space (s : string) : bool :=
  match s with
  | EmptyString => true
  | String c r => isspace c && all_space r
  end.

(** No character of [s] has the code [n]. *)
Fixpoint lacks (n : nat) (s : string) : bool :=
  match s with
  | EmptyString => true
  | String c r => negb (nat_of_ascii c =? n) && lacks n r
  end.

(** [lst[-n:]] for [n > 0] *)
Definition last_n {A : Type} (n : nat) (l : list A) : list A :=
  skipn (List.length l - n) l.

End Py.


(* ================================================================== *)
(** ** Exceptions *)

(** The exceptions of the model are instances of [Exception]; signals
    that derive from [BaseException] only ([KeyboardInterrupt],
    [SystemExit]) are not. *)
Inductive exn :=
| JSONDecodeError (msg : string)
| TypeError (msg : string)
| AttributeError (msg : string)
| RecursionError
| EOFError
| OtherException (msg : string).

Inductive res (A : Type) :=
| Ok (a : A)
| Raise (e : exn).
Arguments Ok {A} a.
Arguments Raise {A} e.

(** [try: body / except Exception as e: handler e] *)
Definition try_except {A : Type} (body : res A) (handler : exn -> res A)
  : res A :=
  match body with
  | Ok a => Ok a
  | Raise e => handler e
  end.

Definition bind {A B : Type} (m : res A) (k : A -> res B) : res B :=
  match m with
  | Ok a => k a
  | Raise e => Raise e
  end.

Definition is_JSONDecodeError (e : exn) : bool :=
  match e with JSONDecodeError _ => true | _ => false end.

Definition is_TypeError (e : exn) : bool :=
  match e with TypeError _ => true | _ => false end.

(** [str(e)] *)
Definition exn_str (e : exn) : string :=
  match e with
  | JSONDecodeError m => m
  | TypeError m => m
  | AttributeError m => m
  | RecursionError => "maximum recursion depth exceeded"
  | EOFError => "EOF when reading a line"
  | OtherException m => m
  end.

(* ================================================================== *)
(** ** Decoded JSON values *)

Module Json.

Set Warnings "-register-all".

(** What [json.loads] returns.  A number with a fraction or an exponent is
    a Python float; the model keeps its literal. *)
Inductive json :=
| JNull
| JBool (b : bool)
| JInt (n : Z)
| JFloat (literal : string)
| JStr (s : string)
| JList (items : list json)
| JDict (members : list (string * json)).

Definition dict := list (string * json).

(** [d.get(k)] *)
Fixpoint get (k : string) (d : dict) : option json :=
  match d with
  | [] => None
  | (k', v) :: r => if String.eqb k' k then Some v else get k r
  end.

(** [k in d] *)
Definition mem (k : string) (d : dict) : bool :=
  match get k d with Some _ => true | None => false end.

(** [d[k] = v]: a key that is present keeps its place, a new key goes
    last. *)
Fixpoint set (k : string) (v : json) (d : dict) : dict :=
  match d with
  | [] => [(k, v)]
  | (k', v') :: r =>
      if String.eqb k' k then (k', v) :: r else (k', v') :: set k v r
  end.

(** *** A decoder for JSON texts

    [loads] follows [json.loads] on texts whose characters and escapes
    stay below code point 256: the same grammar, the same whitespace
    (space, tab, LF, CR), strict strings, the last of duplicate keys kept at
    the place of the first.  Any rejection is a [JSONDecodeError]. *)

Definition quote : ascii := ascii_of_nat 34.
Definition backslash : ascii := ascii_of_nat 92.

Definition is_ws (c : ascii) : bool :=
  let n := nat_of_ascii c in
  (n =? 32) || (n =? 9) || (n =? 10) || (n =? 13).

Fixpoint skip_ws (s : string) : string :=
  match s with
  | String c r => if is_ws c then skip_ws r else s
  | EmptyString => s
  end.

Definition hex_val (c : ascii) : option nat :=
  let n := nat_of_ascii c in
  if (48 <=? n) && (n <=? 57) then Some (n - 48)
  else if (65 <=? n) && (n <=? 70) then Some (n - 55)
  else if (97 <=? n) && (n <=? 102) then Some (n - 87)
  else None.

Definition hex4 (a b c d : ascii) : option nat :=
  match hex_val a, hex_val b, hex_val c, hex_val d with
  | Some x, Some y, Some z, Some w => Some (((x * 16 + y) * 16 + z) * 16 + w)
  | _, _, _, _ => None
  end.

(** The character a one-letter escape stands for. *)
Definition simple_escape (c : ascii) : option ascii :=
  let n := nat_of_ascii c in
  if n =? 34 then Some c
  else if n =? 92 then Some c
  else if n =? 47 then Some c
  else if n =? 98 then Some (ascii_of_nat 8)
  else if n =? 102 then Some (ascii_of_nat 12)
  else if n =? 110 then Some (ascii_of_nat 10)
  else if n =? 114 then Some (ascii_of_nat 13)
  else if n =? 116 then Some (ascii_of_nat 9)
  else None.

(** The body of a string literal, after its opening quote; [acc] is the
    content read so far, reversed. *)
Fixpoint scan_string (s : string) (acc : list ascii)
  : option (string * string) :=
  match s with
  | EmptyString => None
  | String c r =>
      if Ascii.eqb c quote then Some (string_of_list_ascii (rev acc), r)
      else if Ascii.eqb c backslash then
        match r with
        | String e r2 =>
            if (nat_of_ascii e =? 117) then
              match r2 with
              | String h1 (String h2 (String h3 (String h4 r3))) =>
                  match hex4 h1 h2 h3 h4 with
                  | Some n =>
                      if n <? 256 then scan_string r3 (ascii_of_nat n :: acc)
                      else None
                  | None => None
                  end
              | _ => None
              end
            else
              match simple_escape e with
              | Some ch => scan_string r2 (ch :: acc)
              | None => None
              end
        | EmptyString => None
        end
      else if nat_of_ascii c <? 32 then None
      else scan_string r (c :: acc)
  end.

(** The longest prefix of digits, and what follows it. *)
Fixpoint span_digits (s : string) : string * string :=
  match s with
  | String c r =>
      if Py.is_digit c then
        let '(ds, rest) := span_digits r in (String c ds, rest)
      else (EmptyString, s)
  | EmptyString => (EmptyString, s)
  end.

Fixpoint digits_value (acc : Z) (ds : string) : Z :=
  match ds with
  | String c r => digits_value (acc * 10 + Py.digit_val c)%Z r
  | EmptyString => acc
  end.

(** The integer part of a number: [0], or a digit from 1 to 9 followed by
    digits. *)
Definition scan_int_part (s : string) : option (string * string) :=
  match s with
  | String c r =>
      if (nat_of_ascii c =? 48) then Some (String c EmptyString, r)
      else if Py.is_digit c then Some (span_digits s)
      else None
  | EmptyString => None
  end.

(** An optional fraction: a dot followed by at least one digit. *)
Definition scan_frac (s : string) : string * string :=
  match s with
  | String c r =>
      if (nat_of_ascii c =? 46) then
        match span_digits r with
        | (EmptyString, _) => (EmptyString, s)
        | (ds, rest) => (String c ds, rest)
        end
      else (EmptyString, s)
  | EmptyString => (EmptyString, s)
  end.

(** An optional exponent: [e] or [E], an optional sign, at least one
    digit. *)
Definition scan_exp (s : string) : string * string :=
  match s with
  | String c r =>
      if (nat_of_ascii c =? 101) || (nat_of_ascii c =? 69) then
        let '(sign, r1) :=
          match r with
          | String g r' =>
              if (nat_of_ascii g =? 43) || (nat_of_ascii g =? 45)
              then (String g EmptyString, r') else (EmptyString, r)
          | EmptyString => (EmptyString, r)
          end in
        match span_digits r1 with
        | (EmptyString, _) => (EmptyString, s)
        | (ds, rest) => (String c (sign ++ ds), rest)
        end
      else (EmptyString, s)
  | EmptyString => (EmptyString, s)
  end.

Definition scan_number (s : string) : option (json * string) :=
  let '(neg, s1) :=
    match s with
    | String c r => if (nat_of_ascii c =? 45) then (true, r) else (false, s)
    | EmptyString => (false, s)
    end in
  match scan_int_part s1 with
  | None => None
  | Some (ip, r1) =>
      let '(frac, r2) := scan_frac r1 in
      let '(ex, r3) := scan_exp r2 in
      match frac, ex with
      | EmptyString, EmptyString =>
          let n := digits_value 0%Z ip in
          Some (JInt (if neg then (- n)%Z else n), r3)
      | _, _ =>
          Some (JFloat ((if neg then "-" else EmptyString) ++ ip ++ frac ++ ex),
                r3)
      end
  end.

Definition scan_keyword (s : string) : option (json * string) :=
  if String.prefix "null" s then Some (JNull, Py.drop 4 s)
  else if String.prefix "true" s then Some (JBool true, Py.drop 4 s)
  else if String.prefix "false" s then Some (JBool false, Py.drop 5 s)
  else if String.prefix "NaN" s then Some (JFloat "NaN", Py.drop 3 s)
  else if String.prefix "Infinity" s then Some (JFloat "Infinity", Py.drop 8 s)
  else if String.prefix "-Infinity" s
       then Some (JFloat "-Infinity", Py.drop 9 s)
  else None.

(** One value at the head of [s]; the result carries the text after it.
    The fuel bounds the depth of the calls; each call that passes fuel on
    has read at least one character. *)
Fixpoint scan_value (fuel : nat) (s : string) : option (json * string) :=
  match fuel with
  | O => None
  | S f =>
      match s with
      | EmptyString => None
      | String c r =>
          if Ascii.eqb c quote then
            match scan_string r [] with
            | Some (x, rest) => Some (JStr x, rest)
            | None => None
            end
          else if (nat_of_ascii c =? 123) then
            match skip_ws r with
            | String c2 r2 =>
                if (nat_of_ascii c2 =? 125) then Some (JDict [], r2)
                else scan_members f (skip_ws r) []
            | EmptyString => None
            end
          else if (nat_of_ascii c =? 91) then
            match skip_ws r with
            | String c2 r2 =>
                if (nat_of_ascii c2 =? 93) then Some (JList [], r2)
                else scan_items f (skip_ws r) []
            | EmptyString => None
            end
          else
            match scan_keyword s with
            | Some x => Some x
            | None => scan_number s
            end
      end
  end

with scan_items (fuel : nat) (s : string) (acc : list json)
  : option (json * string) :=
  match fuel with
  | O => None
  | S f =>
      match scan_value f s with
      | None => None
      | Some (v, rest) =>
          match skip_ws rest with
          | String c r =>
              if (nat_of_ascii c =? 44) then scan_items f (skip_ws r) (v :: acc)
              else if (nat_of_ascii c =? 93)
                   then Some (JList (rev (v :: acc)), r)
                   else None
          | EmptyString => None
          end
      end
  end

with scan_members (fuel : nat) (s : string) (acc : dict)
  : option (json * string) :=
  match fuel with
  | O => None
  | S f =>
      match s with
      | String c r =>
          if Ascii.eqb c quote then
            match scan_string r [] with
            | None => None
            | Some (k, rest) =>
                match skip_ws rest with
                | String c2 r2 =>
                    if (nat_of_ascii c2 =? 58) then
                      match scan_value f (skip_ws r2) with
                      | None => None
                      | Some (v, rest2) =>
                          match skip_ws rest2 with
                          | String c3 r3 =>
                              if (nat_of_ascii c3 =? 44)
                              then scan_members f (skip_ws r3) (set k v acc)
                              else if (nat_of_ascii c3 =? 125)
                                   then Some (JDict (set k v acc), r3)
                                   else None
                          | EmptyString => None
                          end
                      end
                    else None
                | EmptyString => None
                end
            end
          else None
      | EmptyString => None
      end
  end.

Definition loads (s : string) : res json :=
  match scan_value (2 * String.length s + 2) (skip_ws s) with
  | Some (v, rest) =>
      match skip_ws rest with
      | EmptyString => Ok v
      | _ => Raise (JSONDecodeError "Extra data")
      end
  | None => Raise (JSONDecodeError "Expecting value")
  end.

End Json.

(** Texts of the examples are written with an apostrophe where the text has
    a double quote. *)
Fixpoint text (s : string) : string :=
  match s with
  | EmptyString => EmptyString
  | String c r =>
      String (if (nat_of_ascii c =? 39) then Json.quote else c) (text r)
  end.
(* ================================================================== *)
(** ** The table of spawned processes ([process_manager.py]) *)

Module Supervisor.

Inductive stream := Stdout | Stderr.

(** One entry of [running_processes].  The [Popen] object, the queue and
    the reader thread belong to the environment; [completed], [exit_code]
    and [completion_time] are keys that are absent until first written,
    read in the source with [data.get]. *)
Record proc := mkProc {
  command : string;
  cid : string;
  start_time : Q;
  output_lines : list string;
  expecting_input : bool;
  completed : bool;
  exit_code : option Z;
  completion_time : option Q
}.

(** [running_processes]: pid to entry, in insertion order. *)
Definition table := list (Z * proc).

Fixpoint lookup (pid : Z) (t : table) : option proc :=
  match t with
  | [] => None
  | (p, d) :: r => if (p =? pid)%Z then Some d else lookup pid r
  end.

(** [running_processes[pid] = d]: an existing key keeps its place. *)
Fixpoint store (pid : Z) (d : proc) (t : table) : table :=
  match t with
  | [] => [(pid, d)]
  | (p, d0) :: r =>
      if (p =? pid)%Z then (p, d) :: r else (p, d0) :: store pid d r
  end.

(** [del running_processes[pid]] *)
Fixpoint remove (pid : Z) (t : table) : table :=
  match t with
  | [] => []
  | (p, d) :: r => if (p =? pid)%Z then r else (p, d) :: remove pid r
  end.

Definition set_output_lines (l : list string) (d : proc) : proc :=
  mkProc (command d) (cid d) (start_time d) l (expecting_input d)
         (completed d) (exit_code d) (completion_time d).

Definition set_expecting_input (b : bool) (d : proc) : proc :=
  mkProc (command d) (cid d) (start_time d) (output_lines d) b
         (completed d) (exit_code d) (completion_time d).

Definition set_exited (status : Z) (d : proc) : proc :=
  mkProc (command d) (cid d) (start_time d) (output_lines d)
         (expecting_input d) true (Some status) (completion_time d).

Definition set_completion_time (t : Q) (d : proc) : proc :=
  mkProc (command d) (cid d) (start_time d) (output_lines d)
         (expecting_input d) (completed d) (exit_code d) (Some t).

(** *** [find_process_by_pid_or_cid] *)

(** The identifier an action carries: absent ([None]), a string or an
    integer. *)
Inductive ident := IdNone | IdStr (s : string) | IdInt (n : Z).

(** [not pid_or_cid] *)
Definition ident_falsy (i : ident) : bool :=
  match i with
  | IdNone => true
  | IdStr s => String.eqb s EmptyString
  | IdInt n => (n =? 0)%Z
  end.

(** [int(pid_or_cid)]; [None] when it raises [ValueError] or
    [TypeError]. *)
Definition ident_int (i : ident) : option Z :=
  match i with
  | IdNone => None
  | IdStr s => Py.int_of_str s
  | IdInt n => Some n
  end.

Definition waiting_processes (t : table) : table :=
  filter (fun e => expecting_input (snd e)) t.

(** The loop over [running_processes.items()] that compares [data["cid"]]. *)
Fixpoint find_cid (c : string) (t : table) : option (Z * proc) :=
  match t with
  | [] => None
  | (p, d) :: r => if String.eqb (cid d) c then Some (p, d) else find_cid c r
  end.

(** The function returns the entry itself, which its callers then mutate;
    the model returns it with the key it is stored under. *)
Definition find_process_by_pid_or_cid (pid_or_cid : ident) (t : table)
  : option (Z * proc) :=
  if ident_falsy pid_or_cid then
    match waiting_processes t with
    | [e] => Some e
    | _ => None
    end
  else
    let by_pid :=
      match ident_int pid_or_cid with
      | Some pid_to_check =>
          option_map (fun d => (pid_to_check, d)) (lookup pid_to_check t)
      | None => None
      end in
    match by_pid with
    | Some e => Some e
    | None =>
        let by_cid :=
          match pid_or_cid with
          | IdStr s => find_cid s t
          | _ => None
          end in
        match by_cid with
        | Some e => Some e
        | None =>
            match t with
            | [(only_pid, data)] =>
                if expecting_input data then Some (only_pid, data) else None
            | _ => None
            end
        end
    end.

(** *** [update_specific_process_output]: one drain *)

(** What one drain observes: the result of [process.poll()], the events
    that [get_nowait] hands over before the queue is empty, and the message
    of the exception, if one interrupts the reading of the queue. *)
Record drain_obs := mkObs {
  poll : option Z;
  events : list (stream * string);
  queue_error : option string
}.

Definition prompts : list string :=
  ["? "; "y/n"; "(y/n)"; "select"; "choose"; "password"; "enter"; "continue"].

(** [any(prompt in lower_line for prompt in [...])] *)
Definition looks_like_prompt (output_line : string) : bool :=
  let lower_line := Py.lower output_line in
  existsb (fun prompt => Py.contains prompt lower_line) prompts.

Definition tag (st : stream) : string :=
  match st with Stdout => "[STDOUT] " | Stderr => "[STDERR] " end.

(** The loop over [line.splitlines()] of one event. *)
Fixpoint absorb_lines (st : stream) (ls : list string) (data : proc)
  (new_output : bool) : proc * bool :=
  match ls with
  | [] => (data, new_output)
  | output_line :: r =>
      if String.eqb output_line EmptyString then absorb_lines st r data new_output
      else
        let d1 :=
          set_output_lines (output_lines data ++ [tag st ++ output_line]) data in
        let d2 :=
          match st with
          | Stdout =>
              if looks_like_prompt output_line
              then set_expecting_input true d1 else d1
          | Stderr => d1
          end in
        absorb_lines st r d2 true
  end.

(** The [while True] loop over the queue. *)
Fixpoint absorb_events (evs : list (stream * string)) (data : proc)
  (new_output : bool) : proc * bool :=
  match evs with
  | [] => (data, new_output)
  | (st, line) :: r =>
      let '(d, n) := absorb_lines st (Py.splitlines line) data new_output in
      absorb_events r d n
  end.

Definition drain_entry (obs : drain_obs) (data : proc) : proc * bool :=
  let d1 :=
    match poll obs with
    | Some status => set_exited status data
    | None => data
    end in
  let '(d2, new_output) := absorb_events (events obs) d1 false in
  let d3 :=
    match queue_error obs with
    | Some e =>
        set_output_lines
          (output_lines d2 ++ ["[ERROR] Error reading output: " ++ e]) d2
    | None => d2
    end in
  (set_output_lines (Py.last_n 10 (output_lines d3)) d3, new_output).

Definition update_specific_process_output (pid : Z) (obs : drain_obs)
  (t : table) : table * bool :=
  match lookup pid t with
  | None => (t, false)
  | Some data =>
      let '(d, new_output) := drain_entry obs data in
      (store pid d t, new_output)
  end.

(** *** [update_and_get_running_processes_info]: the refresh-all pass *)

(** What the pass observes of one process: the drain it performs, the
    second [process.poll()] it makes for the report and the [time.time()]
    it reads for the running time. *)
Record proc_obs := mkProcObs {
  drain : drain_obs;
  status : option Z;
  clock : Q
}.

Inductive run_state :=
| Running
| WaitingForInput
| Completed (code : Z).

(** One process of the report: the facts its lines of [info_str] print. *)
Record report_line := mkLine {
  r_pid : Z;
  r_cid : string;
  r_runtime : Z;
  r_state : run_state;
  r_command : string;
  r_lines : list string
}.

(** [int(x)] truncates towards zero. *)
Definition int_of_Q (x : Q) : Z :=
  if Qle_bool 0 x then Qfloor x else Qceiling x.

Definition default {A : Type} (d : A) (o : option A) : A :=
  match o with Some a => a | None => d end.

(** The first loop, over [running_processes.items()]: [t] is the table
    as mutated so far, the result carries [completed_pids] and
    [has_input_waiting]. *)
Fixpoint report_loop (obs : Z -> proc_obs) (pids : list Z)
  (t : table) : table * list report_line * list Z * bool :=
  match pids with
  | [] => (t, [], [], false)
  | pid :: rest =>
      let t1 := fst (update_specific_process_output pid (drain (obs pid)) t) in
      match lookup pid t1 with
      | None => report_loop obs rest t1
      | Some data =>
          let st := status (obs pid) in
          let runtime := int_of_Q (clock (obs pid) - start_time data) in
          let state :=
            match st with
            | None => if expecting_input data then WaitingForInput else Running
            | Some s => Completed (default s (exit_code data))
            end in
          let line := mkLine pid (cid data) runtime state (command data)
                             (output_lines data) in
          let '(t2, lines, completed_pids, waiting) :=
            report_loop obs rest t1 in
          (t2, line :: lines,
           match st with Some _ => pid :: completed_pids | None => completed_pids end,
           match state with WaitingForInput => true | _ => waiting end)
      end
  end.

(** [not data.get("completion_time")] *)
Definition no_completion_time (data : proc) : bool :=
  match completion_time data with
  | None => true
  | Some t => Qeq_bool t 0
  end.

(** The test that guards [del running_processes[pid]]. *)
Definition grace_over (current_time : Q) (data : proc) : bool :=
  completed data
  && negb (Qle_bool (current_time - default current_time (completion_time data)) 60).

(** The second loop, over [completed_pids]. *)
Fixpoint reap (current_time : Q) (completed_pids : list Z) (t : table)
  : table :=
  match completed_pids with
  | [] => t
  | pid :: rest =>
      let t' :=
        match lookup pid t with
        | None => t
        | Some data =>
            if grace_over current_time data then remove pid t
            else if no_completion_time data
                 then store pid (set_completion_time current_time data) t
                 else t
        end in
      reap current_time rest t'
  end.

Record report := mkReport {
  lines : list report_line;
  hint_input_waiting : bool
}.

(** A report with no line stands for the text that lists no process. *)
Definition update_and_get_running_processes_info (obs : Z -> proc_obs)
  (current_time : Q) (t : table) : report * table :=
  match t with
  | [] => (mkReport [] false, t)
  | _ =>
      let '(t1, ls, completed_pids, waiting) :=
        report_loop obs (map fst t) t in
      (mkReport ls waiting, reap current_time completed_pids t1)
  end.

(** *** The handlers of [command_executor.py] that act on the table *)

(** The entry [handle_run_command] stores for a background child. *)
Definition new_entry (command_string cid : string) (now : Q) : proc :=
  mkProc command_string cid now [] false false None None.

(** The tail of the background branch of [handle_run_command]: the entry
    is stored under the pid of the child and drained once. *)
Definition spawn (pid : Z) (command_string cid : string) (now : Q)
  (first : drain_obs) (t : table) : table :=
  fst (update_specific_process_output pid first
         (store pid (new_entry command_string cid now) t)).

Definition ident_str (i : ident) : string :=
  match i with
  | IdNone => "None"
  | IdStr s => s
  | IdInt n => Py.str_of_int n
  end.

(** What [handle_send_input_to_process] observes: [process.poll()], the
    message of the exception if writing to or flushing stdin raises, and
    the drain that follows. *)
Record send_obs := mkSendObs {
  send_poll : option Z;
  write_error : option string;
  send_drain : drain_obs
}.

Definition available_line (e : Z * proc) : string :=
  let '(pid, data) := e in
  "PID " ++ Py.str_of_int pid
  ++ (if String.eqb (cid data) EmptyString then EmptyString
      else " (CID: " ++ cid data ++ ")")
  ++ (if expecting_input data then " (WAITING FOR INPUT)" else EmptyString)
  ++ ": " ++ command data.

Definition nl : string := String (ascii_of_nat 10) EmptyString.

Definition cid_or_na (c : string) : string :=
  if String.eqb c EmptyString then "N/A" else c.

(** The handler, for what [args.get("pid_or_cid")] and
    [args.get("input_data")] give; the entry it finds is the one in the
    table, so clearing its flag is a store under its pid. *)
Definition handle_send_input_to_process (pid_or_cid : ident)
  (input_data : option string) (obs : send_obs) (t : table)
  : string * table :=
  match input_data with
  | None => ("Error: 'input_data' is required for send_input_to_process.", t)
  | Some _ =>
      let target :=
        match find_process_by_pid_or_cid pid_or_cid t with
        | Some e => inl e
        | None =>
            match waiting_processes t with
            | [e] => inl e
            | _ =>
                inr (match map available_line t with
                     | [] =>
                         "Error: Process with PID/CID '" ++ ident_str pid_or_cid
                         ++ "' not found. No running processes available."
                     | available_processes =>
                         "Error: Process with PID/CID '" ++ ident_str pid_or_cid
                         ++ "' not found. Available processes:"
                         ++ nl ++ "    - "
                         ++ String.concat (nl ++ "    - ") available_processes
                     end)
            end
        end in
      match target with
      | inr msg => (msg, t)
      | inl (pid, process_data) =>
          match send_poll obs with
          | Some _ =>
              ("Error: Process PID " ++ Py.str_of_int pid ++ " (CID: "
               ++ cid process_data
               ++ ") has already terminated. Cannot send input.", t)
          | None =>
              match write_error obs with
              | Some e =>
                  ("Error sending input to process '" ++ ident_str pid_or_cid
                   ++ "': " ++ e, t)
              | None =>
                  let t1 := store pid (set_expecting_input false process_data) t in
                  let t2 := fst (update_specific_process_output pid (send_drain obs) t1) in
                  ("Success: Input sent to process PID " ++ Py.str_of_int pid
                   ++ " (CID: " ++ cid_or_na (cid process_data) ++ ").", t2)
              end
          end
      end
  end.

(** How the signals of [handle_kill_process] end: the child exits within
    the waits (with the status [process.poll()] then reports), it survives
    SIGKILL for the second wait, or a call raises. *)
Inductive kill_obs :=
| Exited (final_status : option Z)
| Survived
| KillRaised (msg : string).

(** The handler, for what [args.get("pid_or_cid")] gives. *)
Definition handle_kill_process (pid_or_cid : ident) (obs : kill_obs)
  (t : table) : string * table :=
  match find_process_by_pid_or_cid pid_or_cid t with
  | None =>
      ("Error: Process with PID/CID '" ++ ident_str pid_or_cid
       ++ "' not found or not currently running.", t)
  | Some (pid, process_data) =>
      match obs with
      | KillRaised e =>
          ("Error killing process '" ++ ident_str pid_or_cid ++ "': " ++ e, t)
      | Survived =>
          ("Warning: Process PID " ++ Py.str_of_int pid ++ " (CID: "
           ++ cid process_data ++ ") might not have terminated after SIGKILL.",
           t)
      | Exited final_status =>
          ("Success: Attempted to terminate process PID " ++ Py.str_of_int pid
           ++ " (CID: " ++ cid process_data ++ "). Final exit code: "
           ++ match final_status with
              | Some c => Py.str_of_int c
              | None => "Unknown (killed)"
              end ++ ".",
           remove pid t)
      end
  end.

(** [cleanup_running_processes] closes pipes and signals the children; it
    writes to no entry and deletes none. *)
Definition cleanup_running_processes (t : table) : table := t.

(** The operations that act on the table, each with what it observes. *)
Inductive op :=
| OpSpawn (pid : Z) (command_string cid : string) (now : Q) (first : drain_obs)
| OpDrain (pid : Z) (obs : drain_obs)
| OpRefresh (obs : Z -> proc_obs) (current_time : Q)
| OpSendInput (pid_or_cid : ident) (input_data : option string) (obs : send_obs)
| OpKill (pid_or_cid : ident) (obs : kill_obs)
| OpCleanup.

Definition run_op (o : op) (t : table) : table :=
  match o with
  | OpSpawn pid c i now first => spawn pid c i now first t
  | OpDrain pid obs => fst (update_specific_process_output pid obs t)
  | OpRefresh obs now => snd (update_and_get_running_processes_info obs now t)
  | OpSendInput i d obs => snd (handle_send_input_to_process i d obs t)
  | OpKill i obs => snd (handle_kill_process i obs t)
  | OpCleanup => cleanup_running_processes t
  end.

(** *** Vocabulary for the statements *)

(** In a dict every key occurs once. *)
Definition unique_keys (t : table) : Prop := NoDup (map fst t).

(** [e] is the entry stored under the integer value of the identifier. *)
Definition has_pid (i : ident) (t : table) (e : Z * proc) : Prop :=
  exists pid data,
    ident_int i = Some pid /\ lookup pid t = Some data /\ e = (pid, data).

(** [e] is the first entry, in table order, whose cid is [c]. *)
Definition first_with_cid (c : string) (t : table) (e : Z * proc) : Prop :=
  exists before after,
    t = (before ++ e :: after)%list /\ cid (snd e) = c /\
    forall x, In x before -> cid (snd x) <> c.

Definition has_cid (i : ident) (t : table) (e : Z * proc) : Prop :=
  exists c, i = IdStr c /\ first_with_cid c t e.

(** How an identifier resolves to an entry. *)
Inductive resolves (i : ident) (t : table) (e : Z * proc) : Prop :=
| by_only_waiting :
    ident_falsy i = true ->
    waiting_processes t = [e] ->
    resolves i t e
| by_pid :
    ident_falsy i = false ->
    has_pid i t e ->
    resolves i t e
| by_cid :
    ident_falsy i = false ->
    (forall x, ~ has_pid i t x) ->
    has_cid i t e ->
    resolves i t e
| by_sole_entry :
    ident_falsy i = false ->
    (forall x, ~ has_pid i t x) ->
    (forall x, ~ has_cid i t x) ->
    t = [e] -> expecting_input (snd e) = true ->
    resolves i t e.

(** The lines one event adds to a buffer. *)
Definition event_lines (ev : stream * string) : list string :=
  map (fun l => tag (fst ev) ++ l)
      (filter (fun l => negb (String.eqb l EmptyString))
              (Py.splitlines (snd ev))).

(** The lines one drain adds to a buffer, oldest first. *)
Definition new_lines (obs : drain_obs) : list string :=
  (flat_map event_lines (events obs)
   ++ match queue_error obs with
      | Some e => [("[ERROR] Error reading output: " ++ e)%string]
      | None => []
      end)%list.

Definition lines_bounded (t : table) : Prop :=
  Forall (fun e => List.length (output_lines (snd e)) <= 10) t.

Definition run_ops (ops : list op) (t : table) : table :=
  fold_left (fun t o => run_op o t) ops t.

(** Successive drains of one process. *)
Definition drains (pid : Z) (obss : list drain_obs) (t : table) : table :=
  fold_left (fun t o => fst (update_specific_process_output pid o t)) obss t.

(** A drain saw a stdout line that contains one of the prompt keywords. *)
Definition prompt_seen (obs : drain_obs) : Prop :=
  exists chunk line,
    In (Stdout, chunk) (events obs) /\ In line (Py.splitlines chunk) /\
    looks_like_prompt line = true.

(** The same, as the test the drain makes. *)
Definition saw_prompt (obs : drain_obs) : bool :=
  existsb (fun ev =>
             match fst ev with
             | Stdout => existsb looks_like_prompt (Py.splitlines (snd ev))
             | Stderr => false
             end) (events obs).

(** The entry [handle_send_input_to_process] writes to. *)
Definition send_target (i : ident) (t : table) : option (Z * proc) :=
  match find_process_by_pid_or_cid i t with
  | Some e => Some e
  | None => match waiting_processes t with [e] => Some e | _ => None end
  end.

(** Operation [o] wrote input to the stdin of [pid] and flushed it. *)
Definition delivers (o : op) (t : table) (pid : Z) : Prop :=
  exists i text obs data,
    o = OpSendInput i (Some text) obs /\
    send_target i t = Some (pid, data) /\
    send_poll obs = None /\ write_error obs = None.

(** Operation [o] drained [pid], observing [obs]. *)
Definition drained_by (o : op) (t : table) (pid : Z) (obs : drain_obs)
  : Prop :=
  match o with
  | OpSpawn p _ _ _ first => p = pid /\ obs = first
  | OpDrain p obs' => p = pid /\ obs = obs'
  | OpRefresh f _ => obs = drain (f pid)
  | OpSendInput _ _ sobs => delivers o t pid /\ obs = send_drain sobs
  | OpKill _ _ => False
  | OpCleanup => False
  end.

(** Operation [o] does not store a new entry under [pid]. *)
Definition keeps_entry (o : op) (pid : Z) : Prop :=
  match o with
  | OpSpawn p _ _ _ _ => p <> pid
  | _ => True
  end.

End Supervisor.

(* ================================================================== *)
(** ** [normalize_action_object] ([json_parser.py]) *)

Module Normalizer.
Import Json.

Definition action_map : list (string * string) :=
  [ ("create_directory", "create_folder");
    ("mkdir", "create_folder");
    ("make_directory", "create_folder");
    ("make_folder", "create_folder");
    ("make_dir", "create_folder");
    ("create_dir", "create_folder");
    ("delete_directory", "delete_folder");
    ("rmdir", "delete_folder");
    ("remove_directory", "delete_folder");
    ("remove_folder", "delete_folder");
    ("rm_dir", "delete_folder");
    ("rm_folder", "delete_folder");
    ("write_file", "create_file");
    ("make_file", "create_file");
    ("remove_file", "delete_file");
    ("rm_file", "delete_file");
    ("rm", "delete_file");
    ("cd", "change_directory");
    ("chdir", "change_directory");
    ("ls", "list_directory");
    ("dir", "list_directory");
    ("list_dir", "list_directory");
    ("execute", "run_command");
    ("exec", "run_command");
    ("run", "run_command");
    ("shell", "run_command");
    ("cat", "read_file");
    ("view_file", "read_file");
    ("open_file", "read_file");
    ("modify_file", "update_file");
    ("edit_file", "update_file");
    ("input_to_process", "send_input_to_process");
    ("process_input", "send_input_to_process");
    ("send_to_process", "send_input_to_process");
    ("terminate_process", "kill_process");
    ("stop_process", "kill_process");
    ("end_process", "kill_process") ].

Definition dir_variants : list string :=
  ["path"; "dir_path"; "directory_path"; "folder_path"; "dirname"; "dir";
   "folder"; "directory"].

Definition pid_variants : list string :=
  ["pid_or_cid"; "pid"; "cid"; "process_id"; "command_id"; "id";
   "identifier"; "process"].

Definition parameter_mappings
  : list (string * list (string * list string)) :=
  [ ("create_folder", [("path", dir_variants)]);
    ("create_file",
     [("path", ["path"; "file_path"; "filepath"; "filename"; "file";
                "destination"; "dest"]);
      ("content", ["content"; "file_content"; "text"; "data"; "source";
                   "code"; "body"; "contents"])]);
    ("read_file",
     [("path", ["path"; "file_path"; "filepath"; "filename"; "file";
                "source"; "src"])]);
    ("update_file",
     [("path", ["path"; "file_path"; "filepath"; "filename"; "file";
                "target"]);
      ("content", ["content"; "file_content"; "text"; "data"; "new_content";
                   "code"; "body"; "contents"]);
      ("mode", ["mode"; "update_mode"; "edit_mode"; "method"; "operation"]);
      ("line_number", ["line_number"; "line"; "line_num"; "at_line";
                       "lineno"]);
      ("start_line", ["start_line"; "start"; "from_line"; "begin_line";
                      "first_line"]);
      ("end_line", ["end_line"; "end"; "to_line"; "last_line"])]);
    ("delete_file",
     [("path", ["path"; "file_path"; "filepath"; "filename"; "file";
                "target"])]);
    ("delete_folder", [("path", (dir_variants ++ ["target"])%list)]);
    ("list_directory", [("path", dir_variants)]);
    ("change_directory",
     [("path", (dir_variants ++ ["cd_path"; "to"; "destination"])%list)]);
    ("run_command",
     [("command_string", ["command_string"; "command"; "cmd";
                          "shell_command"; "exec"; "execute"; "run"]);
      ("cid", ["cid"; "command_id"; "id"; "identifier"])]);
    ("send_input_to_process",
     [("pid_or_cid", pid_variants);
      ("input_data", ["input_data"; "input"; "data"; "text"; "stdin";
                      "command_input"])]);
    ("kill_process", [("pid_or_cid", pid_variants)]) ].

Fixpoint assoc {A : Type} (k : string) (l : list (string * A)) : option A :=
  match l with
  | [] => None
  | (k', v) :: r => if String.eqb k' k then Some v else assoc k r
  end.

(** The body of the loop over the variants of one canonical parameter. *)
Definition copy_variant (canonical_param : string) (args : dict)
  (variant : string) : dict :=
  match get variant args with
  | Some v =>
      if negb (String.eqb variant canonical_param)
         && negb (mem canonical_param args)
      then set canonical_param v args
      else args
  | None => args
  end.

(** The two nested loops over [param_map.items()] and the variants. *)
Definition normalize_params (param_map : list (string * list string))
  (args : dict) : dict :=
  fold_left
    (fun args '(canonical_param, variants) =>
       fold_left (copy_variant canonical_param) variants args)
    param_map args.

(** [cmd.strip().startswith("cd ")] *)
Definition is_cd_command (cmd : string) : bool :=
  Py.startswith (Py.strip cmd) "cd ".

(** [cmd.strip()[3:].strip()] *)
Definition cd_target (cmd : string) : string :=
  Py.strip (Py.drop 3 (Py.strip cmd)).

(** The block "Special handling for directory changes via run_command". *)
Definition rewrite_cd (action : string) (action_obj : dict) : dict :=
  if String.eqb action "run_command" then
    match get "args" action_obj with
    | Some (JDict args) =>
        match match get "command_string" args with
              | Some v => v
              | None => JStr EmptyString
              end
        with
        | JStr cmd =>
            if is_cd_command cmd then
              set "args" (JDict [("path", JStr (cd_target cmd))])
                  (set "action" (JStr "change_directory") action_obj)
            else action_obj
        | _ => action_obj
        end
    | _ => action_obj
    end
  else action_obj.

(** [action_obj["action"]] once it is known to be a string. *)
Definition action_name (action_obj : dict) : string :=
  match get "action" action_obj with
  | Some (JStr a) => a
  | _ => EmptyString
  end.

Definition args_of (action_obj : dict) : dict :=
  match get "args" action_obj with
  | Some (JDict a) => a
  | _ => []
  end.

(** The function mutates [action_obj] and the dict under its ["args"] in
    place and returns [action_obj]; the model returns the final content,
    [None] standing for Python's [None]. *)
Definition normalize_action_object (action_obj : json) : option json :=
  match action_obj with
  | JDict obj =>
      match get "action" obj with
      | Some (JStr action) =>
          let obj1 := rewrite_cd action obj in
          let obj2 :=
            match assoc action action_map with
            | Some correct_action => set "action" (JStr correct_action) obj1
            | None => obj1
            end in
          let obj3 :=
            match get "args" obj2 with
            | Some (JDict _) => obj2
            | _ => set "args" (JDict []) obj2
            end in
          let args := args_of obj3 in
          let args1 :=
            match assoc (action_name obj3) parameter_mappings with
            | Some param_map => normalize_params param_map args
            | None => args
            end in
          let args2 :=
            if String.eqb (action_name obj3) "run_command"
               && negb (mem "interactive" args1)
            then set "interactive" (JBool true) args1
            else args1 in
          Some (JDict (set "args" (JDict args2) obj3))
      | _ => None
      end
  | _ => None
  end.

Arguments normalize_action_object : simpl never.

(** The loops of [extract_json_from_response] over a decoded list: entries
    that are not dicts are skipped, the others are normalised and kept when
    the result is not [None]. *)
Fixpoint normalize_items (items : list json) : list json :=
  match items with
  | [] => []
  | JDict obj :: r =>
      match normalize_action_object (JDict obj) with
      | Some normalized_action => normalized_action :: normalize_items r
      | None => normalize_items r
      end
  | _ :: r => normalize_items r
  end.

(** An entry that the loops keep: a dict whose ["action"] is a string. *)
Definition well_formed (item : json) : bool :=
  match item with
  | JDict obj =>
      match get "action" obj with
      | Some (JStr _) => true
      | _ => false
      end
  | _ => false
  end.


(** Every key of [d] is a key of [d'] with the same value. *)
Definition extends (d d' : dict) : Prop :=
  forall k v, get k d = Some v -> get k d' = Some v.

(** The name [action_map] gives, or the name itself. *)
Definition canonical (action : string) : string :=
  match assoc action action_map with
  | Some correct_action => correct_action
  | None => action
  end.

End Normalizer.

(* ================================================================== *)
(** ** [extract_json_from_response] ([json_parser.py]) *)

Module Extractor.
Import Json Normalizer.

(** *** The three patterns *)

Definition action_key : string :=
  String quote ("action" ++ String quote EmptyString).

(** The pattern [\[\s*\{\s*"action"] matches at the head of [s]. *)
Definition array_head (s : string) : bool :=
  match s with
  | String c r =>
      (nat_of_ascii c =? 91)
      && match Py.lstrip r with
         | String c2 r2 =>
             (nat_of_ascii c2 =? 123) && String.prefix action_key (Py.lstrip r2)
         | EmptyString => false
         end
  | EmptyString => false
  end.

(** [re.search] of that pattern: the index of the leftmost match. *)
Fixpoint search_array_head (s : string) (i : nat) : option nat :=
  if array_head s then Some i
  else match s with
       | EmptyString => None
       | String _ r => search_array_head r (S i)
       end.

Definition fence_open : string := "```json".
Definition fence : string := "```".

(** Group 1 of the leftmost match of [```json\s*([\s\S]*?)\s*```]: the
    text after the first opening fence and the whitespace behind it, up to
    the first closing fence, without the whitespace in front of that
    fence. *)
Definition search_fenced (s : string) : option string :=
  match Py.find fence_open s with
  | None => None
  | Some i =>
      let body := Py.lstrip (Py.drop (i + 7) s) in
      match Py.find fence body with
      | None => None
      | Some j => Some (Py.rstrip (Py.take j body))
      end
  end.

(** The pattern [}\s*{] matches at the head of [s]. *)
Definition adjacent_head (s : string) : bool :=
  match s with
  | String c r =>
      (nat_of_ascii c =? 125)
      && match Py.lstrip r with
         | String c2 _ => (nat_of_ascii c2 =? 123)
         | EmptyString => false
         end
  | EmptyString => false
  end.

(** [re.search(r'}\s*{', s)] as a truth value *)
Fixpoint search_adjacent (s : string) : bool :=
  adjacent_head s
  || match s with
     | EmptyString => false
     | String _ r => search_adjacent r
     end.

(** [re.sub(r'}\s*{', '},{', s)].  [pending] is [None] outside a match
    attempt, and after a closing brace it holds the whitespace read since,
    reversed. *)
Fixpoint sub_adjacent (pending : option (list ascii)) (s : string) : string :=
  let flush :=
    match pending with
    | Some ws => string_of_list_ascii (rev ws)
    | None => EmptyString
    end in
  match s with
  | EmptyString => flush
  | String c r =>
      if (nat_of_ascii c =? 125) then
        flush ++ String c (sub_adjacent (Some []) r)
      else
        match pending with
        | Some ws =>
            if Py.isspace c then sub_adjacent (Some (c :: ws)) r
            else if (nat_of_ascii c =? 123)
                 then "," ++ String c (sub_adjacent None r)
                 else flush ++ String c (sub_adjacent None r)
        | None => String c (sub_adjacent None r)
        end
  end.

(** ['[' + re.sub(r'}\s*{', '},{', s) + ']'] *)
Definition wrap_adjacent (s : string) : string :=
  "[" ++ sub_adjacent None s ++ "]".

(** *** The bracket scan *)

(** The loop [while end_index < len(text) and bracket_count > 0]; [s] is
    [text[end_index:]]. *)
Fixpoint bracket_scan (s : string) (end_index bracket_count : nat)
  : nat * nat :=
  match bracket_count, s with
  | O, _ => (end_index, bracket_count)
  | _, EmptyString => (end_index, bracket_count)
  | S below, String c r =>
      if (nat_of_ascii c =? 91) then bracket_scan r (S end_index) (S bracket_count)
      else if (nat_of_ascii c =? 93) then bracket_scan r (S end_index) below
      else bracket_scan r (S end_index) bracket_count
  end.

(** [text[start_index:end_index]] for the scan that starts behind the
    bracket at [start_index]; [None] when the brackets do not close. *)
Definition scan_array (text : string) (start_index : nat) : option string :=
  let '(end_index, bracket_count) :=
    bracket_scan (Py.drop (S start_index) text) (S start_index) 1 in
  if bracket_count =? 0 then Some (Py.slice start_index end_index text)
  else None.

(** The bracket characters of [s] pair up when read from [depth] open
    brackets: none closes below zero and none stays open. *)
Fixpoint raw_balanced (s : string) (depth : nat) : bool :=
  match s with
  | EmptyString => depth =? 0
  | String c r =>
      if (nat_of_ascii c =? 91) then raw_balanced r (S depth)
      else if (nat_of_ascii c =? 93) then
        match depth with
        | O => false
        | S d => raw_balanced r d
        end
      else raw_balanced r depth
  end.


(** The text that the search for an array anywhere in the response hands
    to the decoder, if any. *)
Definition first_array (text : string) : option string :=
  match search_array_head text 0 with
  | Some start_index => scan_array text start_index
  | None => None
  end.

(** *** The function *)

(** What a block of the function does: it returns, or control goes on to
    the statement after it. *)
Inductive flow :=
| Return (result : option (list json))
| Continue.

Section WithDecoder.

(** [json.loads]. *)
Variable json_loads : string -> res json.

(** Lines 8 to 41: the array found anywhere in the text. *)
Definition array_anywhere (text : string) : res flow :=
  match search_array_head text 0 with
  | Some start_index =>
      try_except
        (match scan_array text start_index with
         | Some json_array =>
             try_except
               (bind (json_loads json_array) (fun actions =>
                  match actions with
                  | JList l => Ok (Return (Some (normalize_items l)))
                  | _ => Ok Continue
                  end))
               (fun e => if is_JSONDecodeError e then Ok Continue else Raise e)
         | None => Ok Continue
         end)
        (fun _ => Ok Continue)
  | None => Ok Continue
  end.

(** Lines 49 to 64: the fenced text starts with a bracket. *)
Definition fenced_array (json_str : string) : res flow :=
  if Py.startswith (Py.strip json_str) "[" then
    try_except
      (bind (json_loads json_str) (fun json_obj =>
         match json_obj with
         | JList l => Ok (Return (Some (normalize_items l)))
         | _ => Ok Continue
         end))
      (fun _ => Ok Continue)
  else Ok Continue.

(** Lines 76 to 92: the wrappers that are unwrapped. *)
Definition unwrap (json_obj : json) : json :=
  match json_obj with
  | JDict o =>
      let is_multiple :=
        match get "action" o with
        | Some (JStr a) => String.eqb a "multiple_actions"
        | _ => false
        end in
      if is_multiple && mem "actions" o then
        match get "actions" o with
        | Some (JList l) => JList l
        | _ => json_obj
        end
      else
        match get "action_items" o with
        | Some (JList l) => JList l
        | _ =>
            match get "commands" o with
            | Some (JList l) => JList l
            | _ => json_obj
            end
        end
  | _ => json_obj
  end.

(** Lines 98 to 120 and 194 to 211: a list or a single object. *)
Definition actions_of (json_obj : json) : option (list json) :=
  match json_obj with
  | JList l => Some (normalize_items l)
  | JDict o =>
      match normalize_action_object (JDict o) with
      | Some normalized_action => Some [normalized_action]
      | None => None
      end
  | _ => None
  end.

(** Lines 132 to 140: the loop [for i, action_item in enumerate(json_obj)]
    over whatever was decoded.  The keys of a dict and the characters of a
    string are no dicts; other values cannot be iterated. *)
Definition enumerate_actions (json_obj : json) : res (list json) :=
  match json_obj with
  | JList l => Ok (normalize_items l)
  | JDict _ => Ok []
  | JStr _ => Ok []
  | _ => Raise (TypeError "object is not iterable")
  end.

(** Lines 66 to 148: the rest of the fenced branch, which always
    returns. *)
Definition fenced_rest (json_str0 : string) : res (option (list json)) :=
  let json_str :=
    if Py.startswith (Py.strip json_str0) "{" && search_adjacent json_str0
    then wrap_adjacent json_str0 else json_str0 in
  try_except
    (bind (json_loads json_str) (fun json_obj => Ok (actions_of (unwrap json_obj))))
    (fun e =>
       if is_JSONDecodeError e then
         if Py.contains "}{" json_str then
           try_except
             (bind (json_loads (wrap_adjacent json_str)) (fun json_obj =>
                bind (enumerate_actions json_obj) (fun l => Ok (Some l))))
             (fun _ => Ok None)
         else Ok None
       else Ok None).

(** Lines 154 to 184: the whole response starts with a bracket. *)
Definition raw_array (text : string) : res flow :=
  if Py.startswith (Py.strip text) "[" then
    try_except
      (match Py.find "[" text with
       | Some start_index =>
           match scan_array text start_index with
           | Some json_array =>
               bind (json_loads json_array) (fun actions =>
                 match actions with
                 | JList l => Ok (Return (Some (normalize_items l)))
                 | _ => Ok Continue
                 end)
           | None => Ok Continue
           end
       | None => Ok Continue
       end)
      (fun _ => Ok Continue)
  else Ok Continue.

(** Lines 151 to 215: the response is nothing but JSON. *)
Definition raw_json (text : string) : res flow :=
  if negb (String.eqb text EmptyString)
     && (Py.startswith (Py.strip text) "{" || Py.startswith (Py.strip text) "[")
  then
    try_except
      (bind (raw_array text) (fun f =>
         match f with
         | Return r => Ok (Return r)
         | Continue =>
             let text1 :=
               if Py.startswith (Py.strip text) "{" && search_adjacent text
               then wrap_adjacent text else text in
             bind (json_loads (Py.strip text1)) (fun json_obj =>
               Ok (Return (actions_of json_obj)))
         end))
      (fun e =>
         if is_JSONDecodeError e || is_TypeError e then Ok (Return None)
         else Raise e)
  else Ok Continue.

(** The body of the outermost [try]. *)
Definition extract_body (text : string) : res (option (list json)) :=
  bind (array_anywhere text) (fun f1 =>
    match f1 with
    | Return r => Ok r
    | Continue =>
        match search_fenced text with
        | Some json_str =>
            bind (fenced_array json_str) (fun f2 =>
              match f2 with
              | Return r => Ok r
              | Continue => fenced_rest json_str
              end)
        | None =>
            bind (raw_json text) (fun f3 =>
              match f3 with
              | Return r => Ok r
              | Continue => Ok None
              end)
        end
    end).

Definition extract_json_from_response (text : string)
  : res (option (list json)) :=
  try_except (extract_body text) (fun _ => Ok None).

(** *** The caller, in the loop of [main] *)

Inductive handling :=
| Dispatch (actions : list json)
| Conversational
| ErrorHandlingResponse (e : exn).

(** [if actions and isinstance(actions, list)], inside the [try] of
    [main] around the handling of the response. *)
Definition handle_response (llm_response_text : string) : handling :=
  match extract_json_from_response llm_response_text with
  | Ok (Some (a :: l)) => Dispatch (a :: l)
  | Ok _ => Conversational
  | Raise e => ErrorHandlingResponse e
  end.

End WithDecoder.

End Extractor.

(* ================================================================== *)
(** ** [handle_run_command] ([command_executor.py]) *)

Module Executor.
Import Supervisor.


Section RunCommand.

(** The state behind the file handlers: the file system and the current
    working directory. *)
Variable world : Type.

(** [handle_change_directory] of [file_operations.py], which catches its
    own exceptions and answers with a string. *)
Variable handle_change_directory : Json.dict -> world -> string * world.


End RunCommand.

End Executor.

(* ================================================================== *)
(** ** The action loop of [main] ([main.py], lines 576 to 654) *)

Module Dispatcher.
Import Json.

Section Loop.

(** Everything the handlers read and write. *)
Variable world : Type.

(** A computation of the loop: it ends with a value or an exception, and
    leaves a world. *)
Definition M (A : Type) : Type := world -> res A * world.





(** A handler takes the argument dict; it may raise. *)
Definition handler : Type := dict -> M string.

(** [action_handlers], the registry of [actions.py]. *)
Variable action_handlers : list (string * handler).

(** [input(confirm_prompt)] for an action and its arguments. *)
Variable confirm : string -> dict -> M string.

(** [str(v)] for a value that is not a string, as an f-string prints it. *)
Variable py_str : json -> string.









(** [action_result_for_next_prompt] *)
Definition combine (all_results : list string) : string :=
  match all_results with
  | [r] => r
  | _ =>
      "Multiple actions processed:" ++ Supervisor.nl ++ "- "
      ++ String.concat (Supervisor.nl ++ "- ") all_results
  end.



End Loop.

End Dispatcher.

(* ================================================================== *)
(** ** The conversation history ([conversation_history.py]) *)

Module History.

Inductive role := User | Llm.

(** One entry of the deque; [files] is [None] when the entry has no key
    ["files"]. *)
Record entry := mkEntry {
  e_role : role;
  message : string;
  files : option (list string)
}.

(** A [ConversationHistory]: [max_history], which is not negative, and the
    deque, oldest entry first. *)
Record t := mk {
  max_history : nat;
  history : list entry
}.

(** [ConversationHistory(max_history)] *)
Definition init (max_history : nat) : t := mk max_history [].

(** [d.append(e)] on a [deque(maxlen=maxlen)]: when the deque grows beyond
    [maxlen] its oldest entry is dropped. *)
Definition deque_append (maxlen : nat) (e : entry) (d : list entry)
  : list entry :=
  let d' := (d ++ [e])%list in
  if maxlen <? List.length d' then tl d' else d'.

(** [os.path.basename] of [posixpath]: the text behind the last slash. *)
Fixpoint after_last_slash (cur s : string) : string :=
  match s with
  | EmptyString => cur
  | String c r =>
      if (nat_of_ascii c =? 47) then after_last_slash r r
      else after_last_slash cur r
  end.

Definition basename (p : string) : string := after_last_slash p p.

(** [[os.path.basename(f) for f in relevant_files if isinstance(f, str)]];
    an item that is no string is [None]. *)
Fixpoint file_names (relevant_files : list (option string)) : list string :=
  match relevant_files with
  | [] => []
  | Some f :: r => basename f :: file_names r
  | None :: r => file_names r
  end.

(** The entry [add_user_message] builds. *)
Definition user_entry (msg : string)
  (relevant_files : option (list (option string))) : entry :=
  mkEntry User msg
    match relevant_files with
    | Some (f :: r) =>
        match file_names (f :: r) with
        | [] => None
        | names => Some names
        end
    | _ => None
    end.

Definition add_user_message (msg : string)
  (relevant_files : option (list (option string))) (h : t) : t :=
  if String.eqb msg EmptyString then h
  else mk (max_history h)
          (deque_append (max_history h) (user_entry msg relevant_files)
                        (history h)).

(** The entry [add_llm_message] builds: a long message is cut. *)
Definition llm_entry (msg : string) : entry :=
  mkEntry Llm
    (if 3000 <? String.length msg
     then Py.take 3000 msg ++ "... [truncated]" else msg)
    None.

Definition add_llm_message (msg : string) (h : t) : t :=
  if String.eqb msg EmptyString then h
  else mk (max_history h)
          (deque_append (max_history h) (llm_entry msg) (history h)).

(** The text one entry adds to the formatted history. *)
Definition format_entry (e : entry) : string :=
  match e_role e with
  | User =>
      "User: " ++ message e
      ++ match files e with
         | Some (f :: r) =>
             " [Referenced files: " ++ String.concat ", " (f :: r) ++ "]"
         | _ => EmptyString
         end
      ++ Supervisor.nl
  | Llm => "LLM: " ++ message e ++ Supervisor.nl
  end.

Definition get_formatted_history (h : t) : string :=
  match history h with
  | [] => EmptyString
  | entries =>
      Supervisor.nl ++ "[CONVERSATION HISTORY BEGINS]" ++ Supervisor.nl
      ++ String.concat EmptyString (map format_entry entries)
      ++ Supervisor.nl
      ++ "[CONVERSATION HISTORY ENDS]" ++ Supervisor.nl
  end.

Definition clear (h : t) : t := mk (max_history h) [].

(** *** Vocabulary for the statements *)

(** The calls that change a history. *)
Inductive call :=
| AddUser (msg : string) (relevant_files : option (list (option string)))
| AddLlm (msg : string)
| Clear.

Definition run_call (c : call) (h : t) : t :=
  match c with
  | AddUser msg fs => add_user_message msg fs h
  | AddLlm msg => add_llm_message msg h
  | Clear => clear h
  end.

Definition run_calls (cs : list call) (h : t) : t :=
  fold_left (fun h c => run_call c h) cs h.

(** The entries of the messages that are not empty, since the last
    [clear]; [acc] holds those of the calls read so far. *)
Fixpoint accepted (cs : list call) (acc : list entry) : list entry :=
  match cs with
  | [] => acc
  | AddUser msg fs :: r =>
      accepted r (if String.eqb msg EmptyString then acc
                  else acc ++ [user_entry msg fs])%list
  | AddLlm msg :: r =>
      accepted r (if String.eqb msg EmptyString then acc
                  else acc ++ [llm_entry msg])%list
  | Clear :: r => accepted r []
  end.

End History.

(* ================================================================== *)
(** ** The line edits of [handle_update_file] ([file_operations.py]) *)

Module FileEdit.
Import Json.

(** What is at the resolved path: nothing, a directory, or a file with the
    text it holds. *)
Inductive node := Missing | Directory | File (content : string).

(** The modes that edit lines. *)
Inductive line_mode := InsertLine | DeleteLineRange.

Definition mode_name (m : line_mode) : string :=
  match m with
  | InsertLine => "insert_line"
  | DeleteLineRange => "delete_line_range"
  end.

(** What a file opened in text mode gives a reader: CR LF and a single CR
    are read as LF. *)
Fixpoint universal (s : string) : string :=
  match s with
  | EmptyString => EmptyString
  | String c r =>
      if (nat_of_ascii c =? 13) then
        String (ascii_of_nat 10)
               match r with
               | String d r2 =>
                   if (nat_of_ascii d =? 10) then universal r2 else universal r
               | EmptyString => EmptyString
               end
      else String c (universal r)
  end.

(** The lines of a text, each with the LF that ends it; [cur] is the line
    being read, reversed. *)
Fixpoint lines_aux (cur : list ascii) (s : string) : list string :=
  match s with
  | EmptyString =>
      match cur with
      | [] => []
      | _ => [string_of_list_ascii (rev cur)]
      end
  | String c r =>
      if (nat_of_ascii c =? 10)
      then string_of_list_ascii (rev (c :: cur)) :: lines_aux [] r
      else lines_aux (c :: cur) r
  end.

(** [f.readlines()] *)
Definition readlines (content : string) : list string :=
  lines_aux [] (universal content).

(** The text [f.writelines(lines)] leaves in a file that is truncated
    behind it; on POSIX an LF is written as it is. *)
Definition writelines (lines : list string) : string :=
  String.concat EmptyString lines.

(** [lines.insert(i, x)] for an index that is not negative. *)
Definition insert_at {A : Type} (i : nat) (x : A) (l : list A) : list A :=
  (firstn i l ++ x :: skipn i l)%list.

(** [del lines[a:b]] for indices that are not negative. *)
Definition del_slice {A : Type} (a b : nat) (l : list A) : list A :=
  if b <=? a then l else (firstn a l ++ skipn b l)%list.

(** [isinstance(v, int)], with the value: a bool is an int. *)
Definition as_int (v : option json) : option Z :=
  match v with
  | Some (JInt n) => Some n
  | Some (JBool b) => Some (if b then 1 else 0)%Z
  | _ => None
  end.

(** How an f-string prints a value that is an int. *)
Definition int_text (v : option json) : string :=
  match v with
  | Some (JInt n) => Py.str_of_int n
  | Some (JBool true) => "True"
  | Some (JBool false) => "False"
  | _ => "None"
  end.

(** [content + "\n"] *)
Definition add_newline (content : json) : res string :=
  let unsupported (t : string) :=
    Raise (TypeError ("unsupported operand type(s) for +: '" ++ t
                      ++ "' and 'str'")) in
  match content with
  | JStr c => Ok (c ++ Supervisor.nl)
  | JNull => unsupported "NoneType"
  | JBool _ => unsupported "bool"
  | JInt _ => unsupported "int"
  | JFloat _ => unsupported "float"
  | JDict _ => unsupported "dict"
  | JList _ =>
      Raise (TypeError ("can only concatenate list (not "
                        ++ String quote ("str" ++ String quote ") to list")))
  end.

(** What the handler observes of the file system besides the node: the
    message of the exception, if opening or reading the file raises. *)
Record edit_obs := mkEditObs {
  open_error : option string
}.

Definition error_updating (path_str : string) (e : string) : string :=
  "Error updating file '" ++ path_str ++ "': " ++ e.

(** The handler for the modes [insert_line] and [delete_line_range], for
    an argument [path] that is the string [path_str] and resolves to
    [path]; the writes succeed, and the trackers only record. *)
Definition handle_update_file (mode : line_mode) (path_str path : string)
  (args : dict) (obs : edit_obs) (n : node) : string * node :=
  match n with
  | Missing =>
      ("Error: File not found at '" ++ path ++ "' for mode '"
       ++ mode_name mode
       ++ "'. Only 'overwrite' or 'append' can create if not exists.", n)
  | Directory => ("Error: Path '" ++ path ++ "' is a directory.", n)
  | File old =>
      match mode with
      | InsertLine =>
          let content :=
            match get "content" args with
            | Some v => v
            | None => JStr EmptyString
            end in
          let line_number := get "line_number" args in
          match as_int line_number with
          | Some k =>
              if (k <=? 0)%Z then
                ("Error: 'line_number' must be a positive integer for 'insert_line'.", n)
              else
                match open_error obs with
                | Some e => (error_updating path_str e, n)
                | None =>
                    let lines := readlines old in
                    if (Z.of_nat (List.length lines) + 1 <? k)%Z then
                      ("Error: 'line_number' " ++ int_text line_number
                       ++ " is out of bounds for file with "
                       ++ Py.str_of_int (Z.of_nat (List.length lines))
                       ++ " lines.", n)
                    else
                      match add_newline content with
                      | Raise e => (error_updating path_str (exn_str e), n)
                      | Ok new_line =>
                          ("Success: Content inserted at line "
                           ++ int_text line_number ++ " in '" ++ path ++ "'.",
                           File (writelines
                                   (insert_at (Z.to_nat (k - 1)) new_line
                                              lines)))
                      end
                end
          | None =>
              ("Error: 'line_number' must be a positive integer for 'insert_line'.", n)
          end
      | DeleteLineRange =>
          let start_line := get "start_line" args in
          let end_line :=
            match get "end_line" args with
            | Some v => Some v
            | None => start_line
            end in
          let invalid :=
            "Error: 'start_line' and 'end_line' must be valid positive integers with end_line >= start_line." in
          match as_int start_line, as_int end_line with
          | Some a, Some b =>
              if (0 <? a)%Z && (a <=? b)%Z then
                match open_error obs with
                | Some e => (error_updating path_str e, n)
                | None =>
                    let lines := readlines old in
                    if (Z.of_nat (List.length lines) <? a)%Z then
                      ("Error: 'start_line' " ++ int_text start_line
                       ++ " is out of bounds for file with "
                       ++ Py.str_of_int (Z.of_nat (List.length lines))
                       ++ " lines.", n)
                    else
                      ("Success: Lines " ++ int_text start_line ++ "-"
                       ++ int_text end_line ++ " deleted from '" ++ path
                       ++ "'.",
                       File (writelines
                               (del_slice (Z.to_nat (a - 1))
                                  (Z.to_nat (Z.min b
                                               (Z.of_nat (List.length lines))))
                                  lines)))
                end
              else (invalid, n)
          | _, _ => (invalid, n)
          end
      end
  end.

(** *** Vocabulary for the statements *)

(** [s] holds neither LF nor CR. *)
Fixpoint no_break (s : string) : bool :=
  match s with
  | EmptyString => true
  | String c r =>
      negb (nat_of_ascii c =? 10) && negb (nat_of_ascii c =? 13)
      && no_break r
  end.

(** [s] is a text without LF or CR followed by one LF. *)
Fixpoint full_line (s : string) : bool :=
  match s with
  | EmptyString => false
  | String c r =>
      if (nat_of_ascii c =? 10) then String.eqb r EmptyString
      else negb (nat_of_ascii c =? 13) && full_line r
  end.

(** The lines of a text as [readlines] gives them: each is a full line,
    but the last one may lack its LF. *)
Fixpoint lines_of_a_text (ls : list string) : bool :=
  match ls with
  | [] => true
  | [l] => full_line l || (no_break l && negb (String.eqb l EmptyString))
  | l :: r => full_line l && lines_of_a_text r
  end.

(** The lines of a text that starts with [w] and goes on with the text
    whose lines are [ls]; [w] holds no LF. *)
Definition glue (w : string) (ls : list string) : list string :=
  match ls with
  | [] => if String.eqb w EmptyString then [] else [w]
  | l :: r => (w ++ l) :: r
  end.

(** The text ends with a line break, or is empty. *)
Definition ends_with_break (content : string) : bool :=
  forallb full_line (readlines content).

End FileEdit.

(* ================================================================== *)
(** ** Further vocabulary for the process table *)

Module Tracking.
Import Supervisor.

(** Entry [d'] continues entry [d]: the same command, cid and start time;
    an exit that was recorded stays recorded, and so does a completion
    time. *)
Definition continues (d d' : proc) : Prop :=
  command d' = command d /\ cid d' = cid d /\ start_time d' = start_time d
  /\ (completed d = true -> completed d' = true)
  /\ (no_completion_time d = false -> completion_time d' = completion_time d).

(** The line of the report for the entry [data] stored under [pid]: the
    entry is drained, then read. *)
Definition report_line_of (obs : Z -> proc_obs) (pid : Z) (data : proc)
  : report_line :=
  let d := fst (drain_entry (drain (obs pid)) data) in
  mkLine pid (cid d) (int_of_Q (clock (obs pid) - start_time d))
    match status (obs pid) with
    | None => if expecting_input d then WaitingForInput else Running
    | Some s => Completed (default s (exit_code d))
    end
    (command d) (output_lines d).

Definition is_waiting (l : report_line) : bool :=
  match r_state l with WaitingForInput => true | _ => false end.

(** Some event of the drain carries a line that is not empty. *)
Definition brings_output (obs : drain_obs) : bool :=
  existsb (fun ev =>
             existsb (fun l => negb (String.eqb l EmptyString))
                     (Py.splitlines (snd ev))) (events obs).

End Tracking.

(* ================================================================== *)
(** ** Further vocabulary for the normaliser *)

Module Aliases.
Import Json Normalizer.

(** The keys of [action_handlers] in [actions.py]. *)
Definition registered_actions : list string :=
  ["read_file"; "create_file"; "update_file"; "delete_file";
   "create_folder"; "delete_folder"; "list_directory"; "change_directory";
   "run_command"; "send_input_to_process"; "kill_process"].

(** The value of the first name of [variants], other than the canonical
    one, that is a key of [args]. *)
Definition first_present (canonical_param : string) (variants : list string)
  (args : dict) : option json :=
  match find (fun v => mem v args && negb (String.eqb v canonical_param))
             variants with
  | Some v => get v args
  | None => None
  end.

Fixpoint distinct (l : list string) : bool :=
  match l with
  | [] => true
  | x :: r => negb (existsb (String.eqb x) r) && distinct r
  end.

(** No canonical parameter occurs twice, and none is listed among the
    variants of another one. *)
Definition separate (param_map : list (string * list string)) : bool :=
  forallb (fun p =>
             forallb (fun q =>
                        String.eqb (fst p) (fst q)
                        || negb (existsb (String.eqb (fst q)) (snd p)))
                     param_map)
          param_map
  && distinct (map fst param_map).

(** [separate], in terms of membership. *)
Definition apart (pm : list (string * list string)) : Prop :=
  (forall p q, In p pm -> In q pm -> fst p = fst q \/ ~ In (fst q) (snd p))
  /\ NoDup (map fst pm).

(** The parameter loops for the action [name], and the default that
    follows them. *)
Definition with_canonical_params (name : string) (args : dict) : dict :=
  match assoc name parameter_mappings with
  | Some param_map => normalize_params param_map args
  | None => args
  end.

Definition with_interactive (name : string) (args : dict) : dict :=
  if String.eqb name "run_command" && negb (mem "interactive" args)
  then set "interactive" (JBool true) args
  else args.

(** A [run_command] whose command text is a cd command: the one action a
    further normalisation would still rewrite. *)
Definition cd_pending (action_obj : json) : bool :=
  match action_obj with
  | JDict obj =>
      String.eqb (action_name obj) "run_command"
      && match get "command_string" (args_of obj) with
         | Some (JStr cmd) => is_cd_command cmd
         | _ => false
         end
  | _ => false
  end.


End Aliases.

(* ================================================================== *)
(** ** Properties of the process table *)

Section SupervisorFacts.
Import Supervisor.

Lemma lookup_store_same (pid : Z) (d : proc) (t : table) :
  lookup pid (store pid d t) = Some d.
Proof.
  induction t as [|[p d0] r IH]; simpl.
  - now rewrite Z.eqb_refl.
  - destruct (p =? pid)%Z eqn:E; simpl; rewrite E; auto.
Qed.

Lemma lookup_store_other (pid q : Z) (d : proc) (t : table) :
  pid <> q -> lookup q (store pid d t) = lookup q t.
Proof.
  intros N. induction t as [|[p d0] r IH]; simpl.
  - destruct (pid =? q)%Z eqn:E; auto. apply Z.eqb_eq in E. contradiction.
  - destruct (p =? pid)%Z eqn:E; simpl.
    + apply Z.eqb_eq in E. subst p.
      destruct (pid =? q)%Z eqn:E2; auto. apply Z.eqb_eq in E2. contradiction.
    + destruct (p =? q)%Z; auto.
Qed.

Lemma lookup_In (pid : Z) (d : proc) (t : table) :
  lookup pid t = Some d -> In (pid, d) t.
Proof.
  induction t as [|[p d0] r IH]; simpl; [discriminate|].
  destruct (p =? pid)%Z eqn:E.
  - apply Z.eqb_eq in E. intros [= ->]. subst. now left.
  - intros H. right. auto.
Qed.

Lemma lookup_None_keys (pid : Z) (t : table) :
  lookup pid t = None <-> ~ In pid (map fst t).
Proof.
  induction t as [|[p d0] r IH]; simpl.
  - tauto.
  - destruct (p =? pid)%Z eqn:E.
    + apply Z.eqb_eq in E. split; [discriminate | intros H; exfalso; apply H; now left].
    + apply Z.eqb_neq in E. rewrite IH. tauto.
Qed.

Lemma In_lookup (pid : Z) (d : proc) (t : table) :
  unique_keys t -> In (pid, d) t -> lookup pid t = Some d.
Proof.
  unfold unique_keys.
  induction t as [|[p d0] r IH]; simpl; [tauto|].
  intros U [H|H].
  - injection H as -> ->. now rewrite Z.eqb_refl.
  - inversion U as [|? ? Hn U']; subst.
    destruct (p =? pid)%Z eqn:E.
    + apply Z.eqb_eq in E. subst p. exfalso. apply Hn.
      change pid with (fst (pid, d)). now apply in_map.
    + auto.
Qed.

Lemma find_cid_first (c : string) (t : table) (e : Z * proc) :
  find_cid c t = Some e <-> first_with_cid c t e.
Proof.
  unfold first_with_cid. induction t as [|[p d] r IH]; simpl.
  - split; [discriminate|]. intros (b & a & H & _). now destruct b.
  - destruct (String.eqb (cid d) c) eqn:E.
    + apply String.eqb_eq in E. split.
      * intros [= <-]. exists [], r. simpl. repeat split; auto.
      * intros (b & a & H & Hc & Hb). destruct b as [|x b]; simpl in H.
        -- now injection H as <-.
        -- injection H as <- _. exfalso. apply (Hb (p, d)); [now left | exact E].
    + apply String.eqb_neq in E. rewrite IH. split.
      * intros (b & a & -> & Hc & Hb). exists ((p, d) :: b), a.
        repeat split; auto. intros x [<-|Hx]; auto.
      * intros (b & a & H & Hc & Hb). destruct b as [|x b]; simpl in H.
        -- injection H as <-. simpl in Hc. contradiction.
        -- injection H as <- ->. exists b, a. repeat split; auto.
           intros y Hy. apply Hb. now right.
Qed.

Lemma resolve_without_pid (i : ident) (t : table) (e : Z * proc) :
  ident_falsy i = false ->
  (forall x, ~ has_pid i t x) ->
  match
    match i with IdStr s => find_cid s t | _ => None end
  with
  | Some e' => Some e'
  | None =>
      match t with
      | [(only_pid, data)] =>
          if expecting_input data then Some (only_pid, data) else None
      | _ => None
      end
  end = Some e <-> resolves i t e.
Proof.
  intros F NP.
  destruct (match i with IdStr s => find_cid s t | _ => None end)
    as [e'|] eqn:C.
  - assert (HC : has_cid i t e').
    { destruct i as [|s|n]; try discriminate.
      exists s. split; auto. now apply find_cid_first. }
    split.
    + intros [= <-]. now apply by_cid.
    + intros [F' _ | _ Hp | _ _ (c & -> & Hc) | _ _ N _ _]; try congruence.
      * now apply NP in Hp.
      * apply find_cid_first in Hc. congruence.
      * now apply N in HC.
  - assert (NC : forall x, ~ has_cid i t x).
    { intros x (c & -> & Hc). apply find_cid_first in Hc. congruence. }
    split.
    + intros H. destruct t as [|[p d] [|y l]]; try discriminate.
      destruct (expecting_input d) eqn:W; try discriminate.
      injection H as <-. now apply by_sole_entry.
    + intros [F' _ | _ Hp | _ _ Hc | _ _ _ -> W]; try congruence.
      * now apply NP in Hp.
      * now apply NC in Hc.
      * destruct e as [p d]. simpl in W. now rewrite W.
Qed.

Lemma resolves_of_find (i : ident) (t : table)
  (e : Z * proc) :
  find_process_by_pid_or_cid i t = Some e -> resolves i t e.
Proof.
  unfold find_process_by_pid_or_cid.
  destruct (ident_falsy i) eqn:F.
  - intros H. apply by_only_waiting; auto.
    destruct (waiting_processes t) as [|x [|y l]]; try discriminate.
    now injection H as ->.
  - destruct (ident_int i) as [pid|] eqn:I.
    + destruct (lookup pid t) as [d|] eqn:L; simpl.
      * intros [= <-]. apply by_pid; auto. now exists pid, d.
      * apply resolve_without_pid; auto.
        intros x (p & d' & Hp & Hl & _). congruence.
    + apply resolve_without_pid; auto.
      intros x (p & d' & Hp & _). congruence.
Qed.

(** C1, as amended.  An identifier resolves to an entry exactly in these
    ways: with no identifier (None, an empty string, 0), to the only entry
    that is waiting for input, however many entries are tracked; with an
    identifier, to the entry stored under that pid, else to the first entry
    whose cid equals it, else to the sole tracked entry when it is waiting
    for input.  In every other case the result is [None]. *)
Theorem find_process_by_pid_or_cid_resolves :
  forall (i : ident) (t : table) (e : Z * proc),
    find_process_by_pid_or_cid i t = Some e <-> resolves i t e.
Proof.
  intros i t e. unfold find_process_by_pid_or_cid.
  destruct (ident_falsy i) eqn:F.
  - split.
    + intros H. apply by_only_waiting; auto.
      destruct (waiting_processes t) as [|x [|y l]]; try discriminate.
      now injection H as ->.
    + intros [_ W | F' _ | F' _ _ | F' _ _ _ _]; try congruence.
      now rewrite W.
  - destruct (ident_int i) as [pid|] eqn:I.
    + destruct (lookup pid t) as [d|] eqn:L; simpl.
      * split.
        -- intros [= <-]. apply by_pid; auto. now exists pid, d.
        -- intros [F' _ | _ (p & d' & Hp & Hl & ->) | _ N _ | _ N _ _ _];
             try congruence.
           ++ exfalso. apply (N (pid, d)). now exists pid, d.
           ++ exfalso. apply (N (pid, d)). now exists pid, d.
      * assert (NP : forall x, ~ has_pid i t x).
        { intros x (p & d' & Hp & Hl & _). congruence. }
        now apply resolve_without_pid.
    + assert (NP : forall x, ~ has_pid i t x).
      { intros x (p & d' & Hp & _). congruence. }
      now apply resolve_without_pid.
Qed.

(** An identifier that is the cid of the second of two entries resolves to
    that entry. *)
Lemma find_process_resolves_by_cid :
  let waiting := mkProc "python ask.py" "ask" 0 [] true false None None in
  let busy := mkProc "sleep 5" "nap" 0 [] false false None None in
  let t := [(101%Z, waiting); (102%Z, busy)] in
  resolves (IdStr "nap") t (102%Z, busy)
  /\ find_process_by_pid_or_cid (IdStr "102") t = Some (102%Z, busy).
Proof.
  intros waiting busy t. split.
  - apply (proj1 (find_process_by_pid_or_cid_resolves (IdStr "nap") t
                    (102%Z, busy))). reflexivity.
  - apply (proj2 (find_process_by_pid_or_cid_resolves (IdStr "102") t
                    (102%Z, busy))).
    apply by_pid; [reflexivity|]. exists 102%Z, busy. repeat split.
Defined.

(** C1, as stated, fails in both of its defaults.  With two tracked
    entries of which exactly one is waiting, an identifier that matches no
    pid and no cid is not resolved to the waiting entry; and with no
    identifier the waiting entry is returned although two entries exist. *)
Lemma find_process_default_counterexample :
  let waiting := mkProc "python ask.py" "ask" 0 [] true false None None in
  let busy := mkProc "sleep 5" "nap" 0 [] false false None None in
  let t := [(101%Z, waiting); (102%Z, busy)] in
  waiting_processes t = [(101%Z, waiting)]
  /\ ident_int (IdStr "build") = None
  /\ find_cid "build" t = None
  /\ find_process_by_pid_or_cid (IdStr "build") t = None
  /\ List.length t = 2
  /\ find_process_by_pid_or_cid IdNone t = Some (101%Z, waiting).
Proof. vm_compute. repeat split. Qed.

(** *** The output buffer *)

Lemma absorb_lines_output (st : stream) (ls : list string) (d : proc) (n : bool) :
  output_lines (fst (absorb_lines st ls d n))
  = (output_lines d
     ++ map (fun l => (tag st ++ l)%string)
            (filter (fun l => negb (String.eqb l EmptyString)) ls))%list.
Proof.
  revert d n. induction ls as [|l r IH]; intros d n; simpl.
  - now rewrite app_nil_r.
  - destruct (String.eqb l EmptyString); simpl; [apply IH|].
    rewrite IH. destruct st; [destruct (looks_like_prompt l)|]; simpl;
      now rewrite <- app_assoc.
Qed.

Lemma absorb_events_output (evs : list (stream * string)) (d : proc) (n : bool) :
  output_lines (fst (absorb_events evs d n))
  = (output_lines d ++ flat_map event_lines evs)%list.
Proof.
  revert d n. induction evs as [|[st chunk] r IH]; intros d n; simpl.
  - now rewrite app_nil_r.
  - destruct (absorb_lines st (Py.splitlines chunk) d n) as [d1 n1] eqn:E.
    rewrite IH. replace d1 with (fst (absorb_lines st (Py.splitlines chunk) d n))
      by now rewrite E.
    rewrite absorb_lines_output. unfold event_lines. simpl.
    now rewrite <- app_assoc.
Qed.

Lemma drain_entry_output (obs : drain_obs) (d : proc) :
  output_lines (fst (drain_entry obs d))
  = Py.last_n 10 (output_lines d ++ new_lines obs).
Proof.
  unfold drain_entry, new_lines.
  set (d1 := match poll obs with Some s => set_exited s d | None => d end).
  assert (H1 : output_lines d1 = output_lines d)
    by (unfold d1; now destruct (poll obs)).
  destruct (absorb_events (events obs) d1 false) as [d2 n2] eqn:E.
  assert (H2 : output_lines d2
               = (output_lines d ++ flat_map event_lines (events obs))%list).
  { replace d2 with (fst (absorb_events (events obs) d1 false)) by now rewrite E.
    now rewrite absorb_events_output, H1. }
  simpl. destruct (queue_error obs); simpl; rewrite H2.
  - now rewrite <- app_assoc.
  - now rewrite app_nil_r.
Qed.

Lemma last_n_length {A : Type} (n : nat) (l : list A) :
  List.length (Py.last_n n l) <= n.
Proof. unfold Py.last_n. rewrite length_skipn. lia. Qed.

Lemma last_n_app_last_n {A : Type} (n : nat) (a b : list A) :
  Py.last_n n (Py.last_n n a ++ b) = Py.last_n n (a ++ b).
Proof.
  unfold Py.last_n. rewrite !length_app, length_skipn.
  destruct (Nat.le_gt_cases (List.length a) n) as [H|H].
  - replace (List.length a - n) with 0 by lia. simpl.
    now replace (List.length a - 0) with (List.length a) by lia.
  - rewrite skipn_app, length_skipn.
    replace (List.length a - (List.length a - n) + List.length b - n)
      with (List.length b) by lia.
    replace (List.length b - (List.length a - (List.length a - n)))
      with (List.length b - n) by lia.
    rewrite skipn_skipn.
    replace (List.length b + (List.length a - n))
      with (List.length a + List.length b - n) by lia.
    rewrite (skipn_app (List.length a + List.length b - n)).
    replace (List.length a + List.length b - n - List.length a)
      with (List.length b - n) by lia.
    reflexivity.
Qed.

Lemma update_lookup_same (pid : Z) (obs : drain_obs) (t : table) (d : proc) :
  lookup pid t = Some d ->
  lookup pid (fst (update_specific_process_output pid obs t))
  = Some (fst (drain_entry obs d)).
Proof.
  intros L. unfold update_specific_process_output. rewrite L.
  destruct (drain_entry obs d) as [d' n]. simpl. apply lookup_store_same.
Qed.

Lemma update_lookup_other (pid q : Z) (obs : drain_obs) (t : table) :
  pid <> q ->
  lookup q (fst (update_specific_process_output pid obs t)) = lookup q t.
Proof.
  intros N. unfold update_specific_process_output.
  destruct (lookup pid t) as [d|]; auto.
  destruct (drain_entry obs d) as [d' n]. simpl. now apply lookup_store_other.
Qed.

Lemma find_cid_In (c : string) (t : table) (e : Z * proc) :
  find_cid c t = Some e -> In e t.
Proof.
  induction t as [|[p d] r IH]; simpl; [discriminate|].
  destruct (String.eqb (cid d) c).
  - intros [= <-]. now left.
  - intros H. right. auto.
Qed.

Lemma waiting_only_In (t : table) (e : Z * proc) :
  waiting_processes t = [e] -> In e t /\ expecting_input (snd e) = true.
Proof.
  intros H. assert (I : In e (waiting_processes t)) by (rewrite H; now left).
  unfold waiting_processes in I. now apply filter_In in I.
Qed.

Lemma find_process_In (i : ident) (t : table) (e : Z * proc) :
  find_process_by_pid_or_cid i t = Some e -> In e t.
Proof.
  intros H. apply resolves_of_find in H.
  destruct H as [_ W | _ (p & d & _ & L & ->) | _ _ (c & _ & Hc) | _ _ _ -> _].
  - now apply waiting_only_In in W.
  - now apply lookup_In.
  - apply find_cid_first in Hc. now apply find_cid_In in Hc.
  - now left.
Qed.

Lemma send_target_In (i : ident) (t : table) (e : Z * proc) :
  send_target i t = Some e -> In e t.
Proof.
  unfold send_target.
  destruct (find_process_by_pid_or_cid i t) as [e'|] eqn:F.
  - intros [= <-]. now apply find_process_In in F.
  - destruct (waiting_processes t) as [|x [|y l]] eqn:W; try discriminate.
    intros [= <-]. now apply waiting_only_In in W.
Qed.

(** The table [handle_send_input_to_process] leaves: untouched, unless the
    input was written, in which case the flag of the target is cleared and
    the target drained. *)
Lemma send_input_table (i : ident) (d : option string) (obs : send_obs)
  (t : table) :
  snd (handle_send_input_to_process i d obs t) = t
  \/ exists text pid pd,
       d = Some text /\ send_target i t = Some (pid, pd)
       /\ send_poll obs = None /\ write_error obs = None
       /\ snd (handle_send_input_to_process i d obs t)
          = fst (update_specific_process_output pid (send_drain obs)
                   (store pid (set_expecting_input false pd) t)).
Proof.
  unfold handle_send_input_to_process, send_target.
  destruct d as [text|]; [|now left].
  destruct (find_process_by_pid_or_cid i t) as [[pid pd]|].
  - destruct (send_poll obs) eqn:Po; [now left|].
    destruct (write_error obs) eqn:Wr; [now left|].
    right. exists text, pid, pd. auto.
  - destruct (waiting_processes t) as [|[pid pd] [|y l]].
    + left. now destruct (map available_line t).
    + destruct (send_poll obs) eqn:Po; [now left|].
      destruct (write_error obs) eqn:Wr; [now left|].
      right. exists text, pid, pd. auto.
    + left. now destruct (map available_line t).
Qed.

Lemma send_input_delivered (i : ident) (text : string) (obs : send_obs)
  (t : table) (pid : Z) (pd : proc) :
  send_target i t = Some (pid, pd) ->
  send_poll obs = None -> write_error obs = None ->
  snd (handle_send_input_to_process i (Some text) obs t)
  = fst (update_specific_process_output pid (send_drain obs)
           (store pid (set_expecting_input false pd) t)).
Proof.
  unfold handle_send_input_to_process, send_target. intros T Po Wr.
  destruct (find_process_by_pid_or_cid i t) as [[p0 pd0]|].
  - injection T as -> ->. now rewrite Po, Wr.
  - destruct (waiting_processes t) as [|[p0 pd0] [|y l]]; try discriminate.
    injection T as -> ->. now rewrite Po, Wr.
Qed.

Section TableInvariant.
Variable P : Z * proc -> Prop.

Lemma Forall_lookup (t : table) (pid : Z) (d : proc) :
  Forall P t -> lookup pid t = Some d -> P (pid, d).
Proof.
  intros F L. apply lookup_In in L. rewrite Forall_forall in F. auto.
Qed.

Lemma Forall_store (t : table) (pid : Z) (d : proc) :
  Forall P t -> P (pid, d) -> Forall P (store pid d t).
Proof.
  intros F Hd. induction F as [|[p d0] r Hx F IH]; simpl.
  - now constructor.
  - destruct (p =? pid)%Z eqn:E.
    + apply Z.eqb_eq in E. subst. now constructor.
    + now constructor.
Qed.

Lemma Forall_remove (t : table) (pid : Z) :
  Forall P t -> Forall P (remove pid t).
Proof.
  intros F. induction F as [|[p d0] r Hx F IH]; simpl.
  - constructor.
  - destruct (p =? pid)%Z; auto.
Qed.

(** An invariant of entries that every drain and every change of the
    other fields keeps is an invariant of all operations. *)
Hypothesis P_drain :
  forall pid d obs, P (pid, d) -> P (pid, fst (drain_entry obs d)).
Hypothesis P_flag :
  forall pid d b, P (pid, d) -> P (pid, set_expecting_input b d).
Hypothesis P_time :
  forall pid d now, P (pid, d) -> P (pid, set_completion_time now d).
Hypothesis P_new :
  forall pid c i now, P (pid, new_entry c i now).

Lemma Forall_update (pid : Z) (obs : drain_obs) (t : table) :
  Forall P t -> Forall P (fst (update_specific_process_output pid obs t)).
Proof.
  intros F. unfold update_specific_process_output.
  destruct (lookup pid t) as [d|] eqn:L; auto.
  pose proof (P_drain pid d obs (Forall_lookup _ _ _ F L)) as Hd.
  destruct (drain_entry obs d) as [d' n]. simpl in *.
  now apply Forall_store.
Qed.

Lemma Forall_report_loop (obs : Z -> proc_obs) (pids : list Z) (t : table) :
  Forall P t ->
  Forall P (fst (fst (fst (report_loop obs pids t)))).
Proof.
  revert t. induction pids as [|pid rest IH]; intros t F; simpl; auto.
  pose proof (Forall_update pid (drain (obs pid)) t F) as F1.
  destruct (lookup pid (fst (update_specific_process_output pid (drain (obs pid)) t))).
  - specialize (IH _ F1).
    destruct (report_loop obs rest
                (fst (update_specific_process_output pid (drain (obs pid)) t)))
      as [[[t2 ls] cp] w]. exact IH.
  - now apply IH.
Qed.

Lemma Forall_reap (now : Q) (cps : list Z) (t : table) :
  Forall P t -> Forall P (reap now cps t).
Proof.
  revert t. induction cps as [|pid rest IH]; intros t F; simpl; auto.
  apply IH. destruct (lookup pid t) as [d|] eqn:L; auto.
  destruct (grace_over now d).
  - now apply Forall_remove.
  - destruct (no_completion_time d); auto.
    apply Forall_store; auto. apply P_time. eapply Forall_lookup; eauto.
Qed.

Lemma Forall_run_op (o : op) (t : table) :
  Forall P t -> Forall P (run_op o t).
Proof.
  intros F. destruct o as [pid c i now first|pid obs|obs now|i d obs|i obs|];
    simpl; auto.
  - unfold spawn. apply Forall_update. apply Forall_store; auto.
  - now apply Forall_update.
  - unfold update_and_get_running_processes_info.
    destruct t as [|e r]; auto.
    pose proof (Forall_report_loop obs (map fst (e :: r)) (e :: r) F) as F1.
    destruct (report_loop obs (map fst (e :: r)) (e :: r)) as [[[t1 ls] cp] w].
    simpl in *. now apply Forall_reap.
  - destruct (send_input_table i d obs t)
      as [->|(text & pid & pd & _ & T & _ & _ & ->)]; auto.
    apply Forall_update. apply Forall_store; auto. apply P_flag.
    apply send_target_In in T. rewrite Forall_forall in F. now apply F.
  - unfold handle_kill_process.
    destruct (find_process_by_pid_or_cid i t) as [[pid pd]|]; auto.
    destruct obs; simpl; auto. now apply Forall_remove.
Qed.

End TableInvariant.

Lemma run_ops_bounded (ops : list op) (t : table) :
  lines_bounded t -> lines_bounded (run_ops ops t).
Proof.
  revert t. unfold run_ops.
  induction ops as [|o r IH]; intros t B; simpl; auto.
  apply IH. apply Forall_run_op; auto; simpl.
  - intros pid d obs _. rewrite drain_entry_output. apply last_n_length.
  - intros. repeat constructor.
Qed.

Lemma drains_last_ten (pid : Z) (obss : list drain_obs) :
  forall (obs : drain_obs) (t : table) (d : proc),
    lookup pid t = Some d ->
    exists d',
      lookup pid (drains pid (obs :: obss) t) = Some d'
      /\ output_lines d'
         = Py.last_n 10 (output_lines d ++ flat_map new_lines (obs :: obss)).
Proof.
  induction obss as [|o2 r IH]; intros obs t d L.
  - exists (fst (drain_entry obs d)). simpl. split.
    + now apply update_lookup_same.
    + now rewrite drain_entry_output, app_nil_r.
  - pose proof (update_lookup_same pid obs t d L) as L1.
    destruct (IH o2 _ _ L1) as (d' & L' & O').
    exists d'. split; [exact L'|].
    rewrite O', drain_entry_output, last_n_app_last_n.
    now rewrite <- app_assoc.
Qed.

(** C6.  In every table the operations can reach, each entry holds at most
    10 lines; and after one or more drains of a process its buffer is
    exactly the last 10 of the lines it held followed by all the lines that
    arrived, so the oldest lines are the ones evicted. *)
Theorem output_buffer_keeps_last_ten :
  (forall ops : list op, lines_bounded (run_ops ops []))
  /\ (forall (pid : Z) (obs : drain_obs) (obss : list drain_obs)
            (t : table) (d : proc),
        lookup pid t = Some d ->
        exists d',
          lookup pid (drains pid (obs :: obss) t) = Some d'
          /\ output_lines d'
             = Py.last_n 10
                 (output_lines d ++ flat_map new_lines (obs :: obss))
          /\ List.length (output_lines d') <= 10).
Proof.
  split.
  - intros ops. apply run_ops_bounded. constructor.
  - intros pid obs obss t d L.
    destruct (drains_last_ten pid obss obs t d L) as (d' & L' & O').
    exists d'. repeat split; auto. rewrite O'. apply last_n_length.
Qed.

(** Fifteen stdout lines arrive in two drains of a fresh entry: the buffer
    ends with lines 6 to 15. *)
Lemma output_buffer_fifteen_lines :
  let nl := Supervisor.nl in
  let first := mkObs None
    [(Stdout, "l1" ++ nl ++ "l2" ++ nl ++ "l3" ++ nl ++ "l4" ++ nl ++ "l5"
              ++ nl ++ "l6" ++ nl ++ "l7" ++ nl ++ "l8" ++ nl)] None in
  let second := mkObs None
    [(Stdout, "l9" ++ nl ++ "l10" ++ nl ++ "l11" ++ nl ++ "l12" ++ nl);
     (Stdout, "l13" ++ nl ++ "l14" ++ nl ++ "l15" ++ nl)] None in
  let t := [(7%Z, new_entry "seq 15" "count" 0)] in
  exists d',
    lookup 7%Z (drains 7%Z [first; second] t) = Some d'
    /\ output_lines d'
       = ["[STDOUT] l6"; "[STDOUT] l7"; "[STDOUT] l8"; "[STDOUT] l9";
          "[STDOUT] l10"; "[STDOUT] l11"; "[STDOUT] l12"; "[STDOUT] l13";
          "[STDOUT] l14"; "[STDOUT] l15"].
Proof.
  intros nl first second t.
  destruct (proj2 output_buffer_keeps_last_ten 7%Z first [second] t
              (new_entry "seq 15" "count" 0) eq_refl) as (d' & L & O & _).
  exists d'. split; [exact L|]. rewrite O. vm_compute. reflexivity.
Defined.

(** *** Keys *)

Lemma store_keys_present (pid : Z) (d : proc) (t : table) :
  In pid (map fst t) -> map fst (store pid d t) = map fst t.
Proof.
  induction t as [|[p d0] r IH]; simpl; [tauto|].
  intros H. destruct (p =? pid)%Z eqn:E; simpl; auto.
  f_equal. apply IH. destruct H as [H|H]; auto.
  apply Z.eqb_neq in E. contradiction.
Qed.

Lemma store_keys_absent (pid : Z) (d : proc) (t : table) :
  ~ In pid (map fst t) -> map fst (store pid d t) = (map fst t ++ [pid])%list.
Proof.
  induction t as [|[p d0] r IH]; simpl; auto.
  intros H. destruct (p =? pid)%Z eqn:E; simpl.
  - apply Z.eqb_eq in E. tauto.
  - f_equal. apply IH. tauto.
Qed.

Lemma unique_store (pid : Z) (d : proc) (t : table) :
  unique_keys t -> unique_keys (store pid d t).
Proof.
  unfold unique_keys. intros U.
  destruct (in_dec Z.eq_dec pid (map fst t)) as [H|H].
  - now rewrite store_keys_present.
  - rewrite store_keys_absent by auto.
    apply NoDup_app; auto.
    + repeat constructor. simpl. tauto.
    + intros x Hx [<-|[]]. contradiction.
Qed.

Lemma remove_keys_incl (pid q : Z) (t : table) :
  In q (map fst (remove pid t)) -> In q (map fst t).
Proof.
  induction t as [|[p d0] r IH]; simpl; auto.
  destruct (p =? pid)%Z; simpl; tauto.
Qed.

Lemma unique_remove (pid : Z) (t : table) :
  unique_keys t -> unique_keys (remove pid t).
Proof.
  unfold unique_keys. induction t as [|[p d0] r IH]; simpl; auto.
  intros U. inversion U as [|? ? Hn U']; subst.
  destruct (p =? pid)%Z; simpl; auto.
  constructor; auto. intros H. apply Hn. eapply remove_keys_incl; eauto.
Qed.

Lemma lookup_remove_same (pid : Z) (t : table) :
  unique_keys t -> lookup pid (remove pid t) = None.
Proof.
  unfold unique_keys. induction t as [|[p d0] r IH]; simpl; auto.
  intros U. inversion U as [|? ? Hn U']; subst.
  destruct (p =? pid)%Z eqn:E; simpl.
  - apply Z.eqb_eq in E. subst. now apply lookup_None_keys.
  - rewrite E. auto.
Qed.

Lemma lookup_remove_other (pid q : Z) (t : table) :
  pid <> q -> lookup q (remove pid t) = lookup q t.
Proof.
  intros N. induction t as [|[p d0] r IH]; simpl; auto.
  destruct (p =? pid)%Z eqn:E; simpl.
  - apply Z.eqb_eq in E. subst.
    destruct (pid =? q)%Z eqn:E2; auto. apply Z.eqb_eq in E2. contradiction.
  - destruct (p =? q)%Z; auto.
Qed.

Lemma unique_update (pid : Z) (obs : drain_obs) (t : table) :
  unique_keys t ->
  unique_keys (fst (update_specific_process_output pid obs t)).
Proof.
  intros U. unfold update_specific_process_output.
  destruct (lookup pid t) as [d|]; auto.
  destruct (drain_entry obs d). simpl. now apply unique_store.
Qed.

(** *** What a drain does to the fields of an entry *)

Lemma saw_prompt_seen (obs : drain_obs) :
  saw_prompt obs = true <-> prompt_seen obs.
Proof.
  unfold saw_prompt, prompt_seen. rewrite existsb_exists. split.
  - intros ([st chunk] & Hin & H). destruct st; simpl in H; [|discriminate].
    apply existsb_exists in H. destruct H as (line & Hl & Hp).
    now exists chunk, line.
  - intros (chunk & line & Hin & Hl & Hp). exists (Stdout, chunk).
    split; auto. simpl. apply existsb_exists. now exists line.
Qed.

Lemma absorb_lines_flag (st : stream) (ls : list string) (d : proc) (n : bool) :
  expecting_input (fst (absorb_lines st ls d n))
  = expecting_input d
    || match st with
       | Stdout => existsb looks_like_prompt ls
       | Stderr => false
       end.
Proof.
  revert d n. induction ls as [|l r IH]; intros d n; simpl.
  - destruct st; now rewrite orb_false_r.
  - destruct (String.eqb l EmptyString) eqn:E.
    + apply String.eqb_eq in E. subst l. rewrite IH. now destruct st.
    + rewrite IH. destruct st; simpl; auto.
      destruct (looks_like_prompt l); simpl; auto.
      now rewrite orb_true_r.
Qed.

Lemma absorb_events_flag (evs : list (stream * string)) (d : proc) (n : bool) :
  expecting_input (fst (absorb_events evs d n))
  = expecting_input d
    || existsb (fun ev =>
                  match fst ev with
                  | Stdout => existsb looks_like_prompt (Py.splitlines (snd ev))
                  | Stderr => false
                  end) evs.
Proof.
  revert d n. induction evs as [|[st chunk] r IH]; intros d n; simpl.
  - now rewrite orb_false_r.
  - destruct (absorb_lines st (Py.splitlines chunk) d n) as [d1 n1] eqn:E.
    rewrite IH.
    replace d1 with (fst (absorb_lines st (Py.splitlines chunk) d n))
      by now rewrite E.
    rewrite absorb_lines_flag. now rewrite orb_assoc.
Qed.

Lemma drain_entry_flag (obs : drain_obs) (d : proc) :
  expecting_input (fst (drain_entry obs d))
  = expecting_input d || saw_prompt obs.
Proof.
  unfold drain_entry, saw_prompt.
  set (d1 := match poll obs with Some s => set_exited s d | None => d end).
  assert (H1 : expecting_input d1 = expecting_input d)
    by (unfold d1; now destruct (poll obs)).
  destruct (absorb_events (events obs) d1 false) as [d2 n2] eqn:E.
  replace d2 with (fst (absorb_events (events obs) d1 false)) by now rewrite E.
  destruct (queue_error obs); simpl; now rewrite absorb_events_flag, H1.
Qed.

Lemma absorb_lines_rest (st : stream) (ls : list string) (d : proc) (n : bool) :
  let d' := fst (absorb_lines st ls d n) in
  completion_time d' = completion_time d /\ completed d' = completed d
  /\ exit_code d' = exit_code d.
Proof.
  revert d n. induction ls as [|l r IH]; intros d n; simpl; auto.
  destruct (String.eqb l EmptyString); [apply IH|].
  destruct st; [destruct (looks_like_prompt l)|];
    match goal with |- context [absorb_lines ?s ?r ?x ?b] =>
      destruct (IH x b) as (A & B & C) end; simpl in *; auto.
Qed.

Lemma absorb_events_rest (evs : list (stream * string)) (d : proc) (n : bool) :
  let d' := fst (absorb_events evs d n) in
  completion_time d' = completion_time d /\ completed d' = completed d
  /\ exit_code d' = exit_code d.
Proof.
  revert d n. induction evs as [|[st chunk] r IH]; intros d n; simpl; auto.
  destruct (absorb_lines st (Py.splitlines chunk) d n) as [d1 n1] eqn:E.
  destruct (IH d1 n1) as (A & B & C).
  destruct (absorb_lines_rest st (Py.splitlines chunk) d n) as (A1 & B1 & C1).
  rewrite E in A1, B1, C1. simpl in *. repeat split; congruence.
Qed.

Lemma drain_entry_completion_time (obs : drain_obs) (d : proc) :
  completion_time (fst (drain_entry obs d)) = completion_time d.
Proof.
  unfold drain_entry.
  set (d1 := match poll obs with Some s => set_exited s d | None => d end).
  assert (H1 : completion_time d1 = completion_time d)
    by (unfold d1; now destruct (poll obs)).
  destruct (absorb_events (events obs) d1 false) as [d2 n2] eqn:E.
  destruct (absorb_events_rest (events obs) d1 false) as (A & _).
  rewrite E in A. simpl in A.
  destruct (queue_error obs); simpl; congruence.
Qed.

(** *** The refresh-all pass *)

Lemma report_loop_table_unique (f : Z -> proc_obs) (pids : list Z) (t : table) :
  unique_keys t -> unique_keys (fst (fst (fst (report_loop f pids t)))).
Proof.
  revert t. induction pids as [|pid rest IH]; intros t U; simpl; auto.
  pose proof (unique_update pid (drain (f pid)) t U) as U1.
  destruct (lookup pid (fst (update_specific_process_output pid (drain (f pid)) t))).
  - specialize (IH _ U1).
    destruct (report_loop f rest
                (fst (update_specific_process_output pid (drain (f pid)) t)))
      as [[[t2 ls] cp] w]. exact IH.
  - now apply IH.
Qed.

Lemma report_loop_lookup_skipped (f : Z -> proc_obs) (pids : list Z)
  (t : table) (q : Z) :
  ~ In q pids ->
  lookup q (fst (fst (fst (report_loop f pids t)))) = lookup q t.
Proof.
  revert t. induction pids as [|pid rest IH]; intros t N; simpl; auto.
  assert (pid <> q) by (intros ->; apply N; now left).
  assert (~ In q rest) by (intros I; apply N; now right).
  destruct (lookup pid (fst (update_specific_process_output pid (drain (f pid)) t))).
  - specialize (IH (fst (update_specific_process_output pid (drain (f pid)) t)) H0).
    destruct (report_loop f rest
                (fst (update_specific_process_output pid (drain (f pid)) t)))
      as [[[t2 ls] cp] w]. simpl in *. rewrite IH.
    now apply update_lookup_other.
  - rewrite IH by auto. now apply update_lookup_other.
Qed.

Lemma report_loop_lookup_drained (f : Z -> proc_obs) (pids : list Z)
  (t : table) (q : Z) (d : proc) :
  NoDup pids -> In q pids -> lookup q t = Some d ->
  lookup q (fst (fst (fst (report_loop f pids t))))
  = Some (fst (drain_entry (drain (f q)) d)).
Proof.
  revert t. induction pids as [|pid rest IH]; intros t ND I L; simpl.
  - destruct I.
  - inversion ND as [|? ? Hn ND']; subst.
    set (t1 := fst (update_specific_process_output pid (drain (f pid)) t)).
    destruct I as [->|I].
    + pose proof (update_lookup_same q (drain (f q)) t d L) as L1.
      fold t1 in L1. rewrite L1.
      pose proof (report_loop_lookup_skipped f rest t1 q Hn) as S.
      destruct (report_loop f rest t1) as [[[t2 ls] cp] w]. simpl in *.
      congruence.
    + assert (pid <> q) by (intros ->; contradiction).
      assert (L1 : lookup q t1 = Some d)
        by (unfold t1; rewrite update_lookup_other; auto).
      specialize (IH t1 ND' I L1).
      destruct (lookup pid t1); auto.
      destruct (report_loop f rest t1) as [[[t2 ls] cp] w]. exact IH.
Qed.

Lemma report_loop_completed (f : Z -> proc_obs) (pids : list Z) (t : table)
  (q : Z) :
  In q (snd (fst (report_loop f pids t))) -> status (f q) <> None.
Proof.
  revert t. induction pids as [|pid rest IH]; intros t; simpl; [tauto|].
  set (t1 := fst (update_specific_process_output pid (drain (f pid)) t)).
  destruct (lookup pid t1); [|apply IH].
  specialize (IH t1).
  destruct (report_loop f rest t1) as [[[t2 ls] cp] w]. simpl in *.
  destruct (status (f pid)) eqn:S; auto.
  intros [<-|I]; auto. congruence.
Qed.

Lemma report_loop_lists (f : Z -> proc_obs) (pids : list Z) (t : table)
  (q : Z) (d : proc) :
  In q pids -> lookup q t = Some d ->
  In q (map r_pid (snd (fst (fst (report_loop f pids t))))).
Proof.
  revert t d. induction pids as [|pid rest IH]; intros t d I L; simpl.
  - destruct I.
  - set (t1 := fst (update_specific_process_output pid (drain (f pid)) t)).
    destruct (Z.eq_dec pid q) as [->|N].
    + pose proof (update_lookup_same q (drain (f q)) t d L) as L1.
      fold t1 in L1. rewrite L1.
      destruct (report_loop f rest t1) as [[[t2 ls] cp] w]. simpl. now left.
    + destruct I as [->|I]; [contradiction|].
      assert (L1 : lookup q t1 = Some d)
        by (unfold t1; rewrite update_lookup_other; auto).
      specialize (IH t1 d I L1).
      destruct (lookup pid t1); auto.
      destruct (report_loop f rest t1) as [[[t2 ls] cp] w]. simpl in *.
      now right.
Qed.

Lemma grace_over_elapsed (now : Q) (d : proc) :
  grace_over now d = true <->
  completed d = true
  /\ exists tc, completion_time d = Some tc /\ (tc + 60 < now)%Q.
Proof.
  unfold grace_over. rewrite andb_true_iff, negb_true_iff. split.
  - intros [C G]. split; auto.
    destruct (completion_time d) as [tc|]; simpl in G.
    + exists tc. split; auto.
      destruct (Qlt_le_dec (tc + 60) now) as [H|H]; auto.
      assert (Qle_bool (now - tc) 60 = true)
        by (apply Qle_bool_iff; lra). congruence.
    + assert (Qle_bool (now - now) 60 = true)
        by (apply Qle_bool_iff; lra). congruence.
  - intros [C (tc & -> & H)]. split; auto. simpl.
    destruct (Qle_bool (now - tc) 60) eqn:E; auto.
    apply Qle_bool_iff in E. lra.
Qed.

Lemma reap_lookup_some (now : Q) (cps : list Z) (t : table) (q : Z) (d' : proc) :
  unique_keys t ->
  lookup q (reap now cps t) = Some d' ->
  exists d, lookup q t = Some d
            /\ expecting_input d' = expecting_input d
            /\ output_lines d' = output_lines d.
Proof.
  revert t. induction cps as [|pid rest IH]; intros t U L; simpl in L.
  - now exists d'.
  - destruct (lookup pid t) as [d0|] eqn:L0; [|now apply IH].
    destruct (grace_over now d0).
    + destruct (IH _ (unique_remove pid t U) L) as (d & Ld & E).
      exists d. split; auto.
      destruct (Z.eq_dec pid q) as [->|N].
      * rewrite lookup_remove_same in Ld by auto. discriminate.
      * now rewrite lookup_remove_other in Ld.
    + destruct (no_completion_time d0); [|now apply IH].
      destruct (IH _ (unique_store pid _ t U) L) as (d & Ld & E1 & E2).
      destruct (Z.eq_dec pid q) as [->|N].
      * rewrite lookup_store_same in Ld. injection Ld as <-.
        exists d0. auto.
      * rewrite lookup_store_other in Ld by auto. now exists d.
Qed.

Lemma reap_lookup_none (now : Q) (cps : list Z) (t : table) (q : Z) (d : proc) :
  lookup q t = Some d ->
  lookup q (reap now cps t) = None ->
  In q cps /\ grace_over now d = true.
Proof.
  revert t d. induction cps as [|pid rest IH]; intros t d L R; simpl in R.
  - congruence.
  - destruct (Z.eq_dec pid q) as [->|N].
    + rewrite L in R. destruct (grace_over now d) eqn:G.
      * split; auto. now left.
      * exfalso. destruct (no_completion_time d).
        -- destruct (IH _ _ (lookup_store_same q _ t) R) as [_ G'].
           apply grace_over_elapsed in G'. destruct G' as [_ (tc & E & H)].
           simpl in E. injection E as <-. lra.
        -- destruct (IH _ _ L R) as [_ G']. congruence.
    + assert (L1 : lookup q
                (match lookup pid t with
                 | Some data =>
                     if grace_over now data then remove pid t
                     else if no_completion_time data
                          then store pid (set_completion_time now data) t
                          else t
                 | None => t
                 end) = Some d).
      { destruct (lookup pid t) as [d0|]; auto.
        destruct (grace_over now d0).
        - now rewrite lookup_remove_other.
        - destruct (no_completion_time d0); auto.
          now rewrite lookup_store_other. }
      destruct (IH _ _ L1 R) as [I G]. split; auto. now right.
Qed.

Lemma refresh_table (f : Z -> proc_obs) (now : Q) (t : table) :
  snd (update_and_get_running_processes_info f now t)
  = reap now (snd (fst (report_loop f (map fst t) t)))
      (fst (fst (fst (report_loop f (map fst t) t)))).
Proof.
  unfold update_and_get_running_processes_info.
  destruct t as [|e r]; auto.
  now destruct (report_loop f (map fst (e :: r)) (e :: r)) as [[[t1 ls] cp] w].
Qed.

Lemma refresh_lines (f : Z -> proc_obs) (now : Q) (t : table) :
  lines (fst (update_and_get_running_processes_info f now t))
  = snd (fst (fst (report_loop f (map fst t) t))).
Proof.
  unfold update_and_get_running_processes_info.
  destruct t as [|e r]; auto.
  now destruct (report_loop f (map fst (e :: r)) (e :: r)) as [[[t1 ls] cp] w].
Qed.

Lemma lookup_key (pid : Z) (d : proc) (t : table) :
  lookup pid t = Some d -> In pid (map fst t).
Proof.
  intros L. apply lookup_In in L. change pid with (fst (pid, d)).
  now apply in_map.
Qed.

(** The flag of an entry after one operation. *)
Lemma run_op_flag (o : op) (t : table) (pid : Z) (d d' : proc) :
  unique_keys t -> keeps_entry o pid ->
  lookup pid t = Some d -> lookup pid (run_op o t) = Some d' ->
  expecting_input d' = expecting_input d
  \/ (exists obs, drained_by o t pid obs
                  /\ expecting_input d' = expecting_input d || saw_prompt obs)
  \/ (exists obs, drained_by o t pid obs /\ delivers o t pid
                  /\ expecting_input d' = saw_prompt obs).
Proof.
  intros U K L R.
  destruct o as [p c i now first|p obs|f now|i txt obs|i obs|]; simpl in *.
  - left. unfold spawn in R. rewrite update_lookup_other in R by auto.
    rewrite lookup_store_other in R by auto. congruence.
  - destruct (Z.eq_dec p pid) as [->|N].
    + right. left. exists obs. split; auto.
      rewrite (update_lookup_same _ _ _ _ L) in R. injection R as <-.
      apply drain_entry_flag.
    + left. rewrite update_lookup_other in R by auto. congruence.
  - right. left. exists (drain (f pid)). split; auto.
    rewrite refresh_table in R.
    apply reap_lookup_some in R; [|now apply report_loop_table_unique].
    destruct R as (d1 & L1 & E & _).
    rewrite (report_loop_lookup_drained f (map fst t) t pid d U
               (lookup_key _ _ _ L) L) in L1.
    injection L1 as <-. rewrite E. apply drain_entry_flag.
  - destruct (send_input_table i txt obs t)
      as [E|(text & p & pd & -> & T & Po & Wr & E)]; rewrite E in R.
    + left. congruence.
    + destruct (Z.eq_dec p pid) as [->|N].
      * assert (pd = d).
        { apply send_target_In in T. apply In_lookup in T; auto. congruence. }
        subst pd. right. right. exists (send_drain obs).
        assert (D : delivers (OpSendInput i (Some text) obs) t pid)
          by (exists i, text, obs, d; auto).
        repeat split; auto.
        rewrite (update_lookup_same _ _ _ _ (lookup_store_same _ _ _)) in R.
        injection R as <-. now rewrite drain_entry_flag.
      * left. rewrite update_lookup_other in R by auto.
        rewrite lookup_store_other in R by auto. congruence.
  - left. unfold handle_kill_process in R.
    destruct (find_process_by_pid_or_cid i t) as [[p pd]|]; [|simpl in R; congruence].
    destruct obs; simpl in R; try congruence.
    destruct (Z.eq_dec p pid) as [->|N].
    + rewrite lookup_remove_same in R by auto. discriminate.
    + rewrite lookup_remove_other in R by auto. congruence.
  - left. unfold cleanup_running_processes in R. congruence.
Qed.

(** C7.  For an entry that an operation keeps under its pid: if the flag
    goes from false to true, the operation drained the process and a stdout
    line of that drain contains a prompt keyword; if it goes from true to
    false, the operation is a send-input that wrote to this process and
    flushed.  Conversely a drain that sees such a line leaves the flag set,
    and a delivered input leaves it cleared unless the drain that follows
    sees a prompt again. *)
Theorem expecting_input_set_and_cleared :
  (forall (o : op) (t : table) (pid : Z) (d d' : proc),
      unique_keys t -> keeps_entry o pid ->
      lookup pid t = Some d -> lookup pid (run_op o t) = Some d' ->
      (expecting_input d = false -> expecting_input d' = true ->
       exists obs, drained_by o t pid obs /\ prompt_seen obs)
      /\ (expecting_input d = true -> expecting_input d' = false ->
          delivers o t pid))
  /\ (forall (pid : Z) (obs : drain_obs) (t : table) (d : proc),
        lookup pid t = Some d -> prompt_seen obs ->
        exists d',
          lookup pid (run_op (OpDrain pid obs) t) = Some d'
          /\ expecting_input d' = true)
  /\ (forall (i : ident) (text : string) (obs : send_obs) (t : table)
             (pid : Z) (d : proc),
        unique_keys t ->
        delivers (OpSendInput i (Some text) obs) t pid ->
        lookup pid t = Some d ->
        exists d',
          lookup pid (run_op (OpSendInput i (Some text) obs) t) = Some d'
          /\ expecting_input d' = saw_prompt (send_drain obs)).
Proof.
  split; [|split].
  - intros o t pid d d' U K L R.
    destruct (run_op_flag o t pid d d' U K L R)
      as [E|[(obs & D & E)|(obs & D & Dl & E)]]; split; intros A B.
    + congruence.
    + congruence.
    + exists obs. split; auto. apply saw_prompt_seen.
      rewrite A in E. simpl in E. congruence.
    + rewrite A in E. simpl in E. congruence.
    + exists obs. split; auto. apply saw_prompt_seen. congruence.
    + exact Dl.
  - intros pid obs t d L S. exists (fst (drain_entry obs d)). simpl. split.
    + now apply update_lookup_same.
    + rewrite drain_entry_flag. apply saw_prompt_seen in S. rewrite S.
      apply orb_true_r.
  - intros i text obs t pid d U (i0 & text0 & obs0 & pd & E & T & Po & Wr) L.
    injection E as <- <- <-.
    assert (pd = d).
    { apply send_target_In in T. apply In_lookup in T; auto. congruence. }
    subst pd. cbn [run_op].
    rewrite (send_input_delivered i text obs t pid d T Po Wr).
    exists (fst (drain_entry (send_drain obs) (set_expecting_input false d))).
    split.
    + apply update_lookup_same. apply lookup_store_same.
    + now rewrite drain_entry_flag.
Qed.

(** The prompt of the specification sets the flag at the next drain, and
    an input that is delivered clears it. *)
Lemma expecting_input_prompt_then_input :
  let obs := mkObs None [(Stdout, "Continue? (y/n)")] None in
  let d := new_entry "./install.sh" "inst" 0 in
  let t := [(42%Z, d)] in
  let t1 := run_op (OpDrain 42%Z obs) t in
  let send := OpSendInput (IdStr "inst") (Some "y") (mkSendObs None None (mkObs None [] None)) in
  (exists seen, drained_by (OpDrain 42%Z obs) t 42%Z seen /\ prompt_seen seen)
  /\ (exists d', lookup 42%Z t1 = Some d' /\ expecting_input d' = true)
  /\ (exists d', lookup 42%Z (run_op send t1) = Some d'
                 /\ expecting_input d' = false).
Proof.
  intros obs d t t1 send.
  destruct expecting_input_set_and_cleared as (A & B & C).
  assert (U : unique_keys t) by (repeat constructor; simpl; tauto).
  assert (P : prompt_seen obs).
  { exists "Continue? (y/n)", "Continue? (y/n)".
    repeat split; vm_compute; auto. }
  split; [|split].
  - apply (proj1 (A (OpDrain 42%Z obs) t 42%Z d (fst (drain_entry obs d))
                    U I eq_refl eq_refl)); reflexivity.
  - apply (B 42%Z obs t d eq_refl P).
  - assert (U1 : unique_keys t1) by (repeat constructor; simpl; tauto).
    destruct (C (IdStr "inst") "y" (mkSendObs None None (mkObs None [] None))
                t1 42%Z (fst (drain_entry obs d)) U1) as (d' & L & E).
    + exists (IdStr "inst"), "y", (mkSendObs None None (mkObs None [] None)),
        (fst (drain_entry obs d)). repeat split; reflexivity.
    + reflexivity.
    + exists d'. split; [exact L|]. rewrite E. reflexivity.
Defined.

(** *** Reaping *)

Lemma reap_stable (now : Q) (cps : list Z) (t : table) (q : Z) (d : proc) :
  lookup q t = Some d -> completion_time d = Some now ->
  lookup q (reap now cps t) = Some d.
Proof.
  revert t. induction cps as [|pid rest IH]; intros t L C; simpl; auto.
  apply IH; auto.
  destruct (Z.eq_dec pid q) as [->|N].
  - rewrite L. destruct (grace_over now d) eqn:G.
    + apply grace_over_elapsed in G. destruct G as [_ (tc & E & H)].
      rewrite C in E. injection E as <-. lra.
    + destruct (no_completion_time d); auto.
      replace (set_completion_time now d) with d.
      * apply lookup_store_same.
      * destruct d. simpl in *. subst. reflexivity.
  - destruct (lookup pid t) as [d0|]; auto.
    destruct (grace_over now d0).
    + now rewrite lookup_remove_other.
    + destruct (no_completion_time d0); auto.
      now rewrite lookup_store_other.
Qed.

Lemma reap_records (now : Q) (cps : list Z) (t : table) (q : Z) (d : proc) :
  In q cps -> lookup q t = Some d -> completion_time d = None ->
  lookup q (reap now cps t) = Some (set_completion_time now d).
Proof.
  revert t. induction cps as [|pid rest IH]; intros t I L C; simpl.
  - destruct I.
  - destruct (Z.eq_dec pid q) as [->|N].
    + rewrite L.
      assert (G : grace_over now d = false).
      { destruct (grace_over now d) eqn:G; auto.
        apply grace_over_elapsed in G. destruct G as [_ (tc & E & _)].
        congruence. }
      rewrite G. unfold no_completion_time. rewrite C.
      apply reap_stable; [apply lookup_store_same | reflexivity].
    + destruct I as [->|I]; [contradiction|].
      apply IH; auto.
      destruct (lookup pid t) as [d0|]; auto.
      destruct (grace_over now d0).
      * now rewrite lookup_remove_other.
      * destruct (no_completion_time d0); auto.
        now rewrite lookup_store_other.
Qed.

Lemma report_loop_completed_in (f : Z -> proc_obs) (pids : list Z) (t : table)
  (q : Z) (d : proc) :
  In q pids -> lookup q t = Some d -> status (f q) <> None ->
  In q (snd (fst (report_loop f pids t))).
Proof.
  revert t d. induction pids as [|pid rest IH]; intros t d I L S; simpl.
  - destruct I.
  - set (t1 := fst (update_specific_process_output pid (drain (f pid)) t)).
    destruct (Z.eq_dec pid q) as [->|N].
    + pose proof (update_lookup_same q (drain (f q)) t d L) as L1.
      fold t1 in L1. rewrite L1.
      destruct (report_loop f rest t1) as [[[t2 ls] cp] w]. simpl.
      destruct (status (f q)); [now left | congruence].
    + destruct I as [->|I]; [contradiction|].
      assert (L1 : lookup q t1 = Some d)
        by (unfold t1; rewrite update_lookup_other; auto).
      specialize (IH t1 d I L1 S).
      destruct (lookup pid t1); auto.
      destruct (report_loop f rest t1) as [[[t2 ls] cp] w]. simpl in *.
      destruct (status (f pid)); auto. now right.
Qed.

(** C8.  An entry leaves the table only through a kill that resolves to it
    or through a refresh-all pass that observes the process exited and runs
    more than 60 seconds after the completion time recorded in the entry.
    Every entry tracked when a pass starts is listed in the report of that
    pass; the pass that first sees an exited process without a completion
    time records its own clock as the completion time; and a pass that runs
    at most 60 seconds after the recorded time keeps the entry. *)
Theorem completed_entry_grace_period :
  (forall (o : op) (t : table) (pid : Z) (d : proc),
      unique_keys t ->
      lookup pid t = Some d -> lookup pid (run_op o t) = None ->
      (exists i obs, o = OpKill i obs
                     /\ find_process_by_pid_or_cid i t = Some (pid, d))
      \/ (exists f now tc,
            o = OpRefresh f now /\ status (f pid) <> None
            /\ completion_time d = Some tc /\ (tc + 60 < now)%Q))
  /\ (forall (f : Z -> proc_obs) (now : Q) (t : table) (pid : Z) (d : proc),
        lookup pid t = Some d ->
        In pid (map r_pid
                  (lines (fst (update_and_get_running_processes_info f now t)))))
  /\ (forall (f : Z -> proc_obs) (now : Q) (t : table) (pid : Z) (d : proc),
        unique_keys t -> lookup pid t = Some d ->
        status (f pid) <> None -> completion_time d = None ->
        exists d',
          lookup pid (run_op (OpRefresh f now) t) = Some d'
          /\ completion_time d' = Some now)
  /\ (forall (f : Z -> proc_obs) (now tc : Q) (t : table) (pid : Z) (d : proc),
        unique_keys t -> lookup pid t = Some d ->
        completion_time d = Some tc -> (now <= tc + 60)%Q ->
        lookup pid (run_op (OpRefresh f now) t) <> None).
Proof.
  assert (Main : forall (o : op) (t : table) (pid : Z) (d : proc),
      unique_keys t ->
      lookup pid t = Some d -> lookup pid (run_op o t) = None ->
      (exists i obs, o = OpKill i obs
                     /\ find_process_by_pid_or_cid i t = Some (pid, d))
      \/ (exists f now tc,
            o = OpRefresh f now /\ status (f pid) <> None
            /\ completion_time d = Some tc /\ (tc + 60 < now)%Q)).
  { intros o t pid d U L R.
    destruct o as [p c i now first|p obs|f now|i txt obs|i obs|]; cbn [run_op] in R.
    - exfalso. unfold spawn in R.
      destruct (Z.eq_dec p pid) as [->|N].
      + rewrite (update_lookup_same _ _ _ _ (lookup_store_same _ _ _)) in R.
        discriminate.
      + rewrite update_lookup_other, lookup_store_other in R by auto.
        congruence.
    - exfalso. destruct (Z.eq_dec p pid) as [->|N].
      + rewrite (update_lookup_same _ _ _ _ L) in R. discriminate.
      + rewrite update_lookup_other in R by auto. congruence.
    - right. rewrite refresh_table in R.
      pose proof (report_loop_lookup_drained f (map fst t) t pid d U
                    (lookup_key _ _ _ L) L) as L1.
      destruct (reap_lookup_none _ _ _ _ _ L1 R) as [I G].
      apply report_loop_completed in I.
      apply grace_over_elapsed in G. destruct G as [_ (tc & E & H)].
      rewrite drain_entry_completion_time in E.
      now exists f, now, tc.
    - exfalso.
      destruct (send_input_table i txt obs t)
        as [E|(text & p & pd & _ & T & _ & _ & E)]; rewrite E in R.
      + congruence.
      + destruct (Z.eq_dec p pid) as [->|N].
        * rewrite (update_lookup_same _ _ _ _ (lookup_store_same _ _ _)) in R.
          discriminate.
        * rewrite update_lookup_other, lookup_store_other in R by auto.
          congruence.
    - left. exists i, obs. split; auto.
      unfold handle_kill_process in R.
      destruct (find_process_by_pid_or_cid i t) as [[p pd]|] eqn:F;
        [|simpl in R; congruence].
      destruct (Z.eq_dec p pid) as [->|N].
      + apply find_process_In in F. apply In_lookup in F; auto. congruence.
      + exfalso. destruct obs; simpl in R; try congruence.
        rewrite lookup_remove_other in R by auto. congruence.
    - exfalso. unfold cleanup_running_processes in R. congruence. }
  split; [exact Main|]. split; [|split].
  - intros f now t pid d L. rewrite refresh_lines.
    eapply report_loop_lists; eauto using lookup_key.
  - intros f now t pid d U L S C. cbn [run_op]. rewrite refresh_table.
    pose proof (report_loop_lookup_drained f (map fst t) t pid d U
                  (lookup_key _ _ _ L) L) as L1.
    eexists. split.
    + apply reap_records; [|exact L1|].
      * eapply report_loop_completed_in; eauto using lookup_key.
      * now rewrite drain_entry_completion_time.
    + reflexivity.
  - intros f now tc t pid d U L C H R.
    destruct (Main _ _ _ _ U L R)
      as [(i & obs & E & _)|(f' & now' & tc' & E & _ & C' & H')].
    + discriminate.
    + injection E as <- <-. rewrite C in C'. injection C' as <-. lra.
Qed.

(** A process seen exited at time 100: the pass at 160 lists and keeps it,
    the pass at 161 lists it one last time and drops it. *)
Lemma completed_entry_sixty_seconds :
  let d := mkProc "make" "build" 40%Q ["[STDOUT] done"] false true (Some 0%Z)
                  (Some 100%Q) in
  let t := [(9%Z, d)] in
  let f := fun _ : Z => mkProcObs (mkObs (Some 0%Z) [] None) (Some 0%Z) 0%Q in
  lookup 9%Z (run_op (OpRefresh f 160%Q) t) <> None
  /\ In 9%Z (map r_pid
               (lines (fst (update_and_get_running_processes_info f 161%Q t))))
  /\ lookup 9%Z (run_op (OpRefresh f 161%Q) t) = None
  /\ ((exists i obs, OpRefresh f 161%Q = OpKill i obs
                     /\ find_process_by_pid_or_cid i t = Some (9%Z, d))
      \/ (exists f' now tc,
            OpRefresh f 161%Q = OpRefresh f' now /\ status (f' 9%Z) <> None
            /\ completion_time d = Some tc /\ (tc + 60 < now)%Q)).
Proof.
  intros d t f.
  destruct completed_entry_grace_period as (A & B & _ & D).
  assert (U : unique_keys t) by (repeat constructor; simpl; tauto).
  split; [|split; [|split]].
  - apply (D f 160%Q 100%Q t 9%Z d U eq_refl eq_refl). vm_compute. discriminate.
  - apply (B f 161%Q t 9%Z d eq_refl).
  - reflexivity.
  - apply (A (OpRefresh f 161%Q) t 9%Z d U eq_refl eq_refl).
Defined.

End SupervisorFacts.

(* ================================================================== *)
(** ** Properties of the normaliser *)

Section NormalizerFacts.
Import Json Normalizer.

Lemma get_set_same (k : string) (v : json) (d : dict) :
  get k (set k v d) = Some v.
Proof.
  induction d as [|[k' v'] r IH]; simpl.
  - now rewrite String.eqb_refl.
  - destruct (String.eqb k' k) eqn:E; simpl; rewrite E; auto.
Qed.

Lemma get_set_other (k k' : string) (v : json) (d : dict) :
  k <> k' -> get k' (set k v d) = get k' d.
Proof.
  intros N. induction d as [|[k0 v0] r IH]; simpl.
  - destruct (String.eqb k k') eqn:E; auto.
    apply String.eqb_eq in E. contradiction.
  - destruct (String.eqb k0 k) eqn:E; simpl.
    + apply String.eqb_eq in E. subst k0.
      destruct (String.eqb k k') eqn:E2; auto.
      apply String.eqb_eq in E2. contradiction.
    + destruct (String.eqb k0 k'); auto.
Qed.

Lemma extends_refl (d : dict) : extends d d.
Proof. now intros k v. Qed.

Lemma extends_trans (a b c : dict) :
  extends a b -> extends b c -> extends a c.
Proof. intros H1 H2 k v H. auto. Qed.

Lemma extends_set_new (k : string) (v : json) (d : dict) :
  mem k d = false -> extends d (set k v d).
Proof.
  intros M k' v' H. destruct (string_dec k k') as [->|N].
  - unfold mem in M. now rewrite H in M.
  - now rewrite get_set_other.
Qed.

Lemma copy_variant_extends (canonical_param : string) (args : dict)
  (variant : string) :
  extends args (copy_variant canonical_param args variant).
Proof.
  unfold copy_variant. destruct (get variant args); [|apply extends_refl].
  destruct (negb (String.eqb variant canonical_param)); simpl;
    [|apply extends_refl].
  destruct (mem canonical_param args) eqn:M; simpl; [apply extends_refl|].
  now apply extends_set_new.
Qed.

Lemma copy_variants_extends (canonical_param : string) (variants : list string)
  (args : dict) :
  extends args (fold_left (copy_variant canonical_param) variants args).
Proof.
  revert args. induction variants as [|x r IH]; intros args; simpl.
  - apply extends_refl.
  - eapply extends_trans; [apply copy_variant_extends | apply IH].
Qed.

Lemma normalize_params_extends (param_map : list (string * list string))
  (args : dict) :
  extends args (normalize_params param_map args).
Proof.
  unfold normalize_params. revert args.
  induction param_map as [|[c vs] r IH]; intros args; simpl.
  - apply extends_refl.
  - eapply extends_trans; [apply copy_variants_extends | apply IH].
Qed.

(** The normalisation of an object whose name the rewrite leaves alone. *)
Lemma normalize_plain (obj : dict) (action : string) :
  get "action" obj = Some (JStr action) ->
  rewrite_cd action obj = obj ->
  exists obj',
    normalize_action_object (JDict obj) = Some (JDict obj')
    /\ action_name obj' = canonical action
    /\ extends (args_of obj) (args_of obj')
    /\ extends
         match assoc (canonical action) parameter_mappings with
         | Some pm => normalize_params pm (args_of obj)
         | None => args_of obj
         end
         (args_of obj').
Proof.
  intros A R. unfold normalize_action_object. rewrite A, R.
  set (obj2 := match assoc action action_map with
               | Some c => set "action" (JStr c) obj
               | None => obj
               end).
  assert (N2 : action_name obj2 = canonical action).
  { unfold obj2, canonical, action_name.
    destruct (assoc action action_map).
    - now rewrite get_set_same.
    - now rewrite A. }
  assert (G2 : get "args" obj2 = get "args" obj).
  { unfold obj2. destruct (assoc action action_map); auto.
    now rewrite get_set_other. }
  set (obj3 := match get "args" obj2 with
               | Some (JDict _) => obj2
               | _ => set "args" (JDict []) obj2
               end).
  assert (N3 : action_name obj3 = canonical action).
  { unfold obj3. destruct (get "args" obj2) as [[]|]; auto;
      unfold action_name; rewrite get_set_other by discriminate; exact N2. }
  assert (A3 : args_of obj3 = args_of obj).
  { unfold obj3, args_of. rewrite <- G2.
    destruct (get "args" obj2) as [[]|] eqn:E; rewrite ?E, ?get_set_same; auto. }
  rewrite N3, A3.
  set (args1 := match assoc (canonical action) parameter_mappings with
                | Some pm => normalize_params pm (args_of obj)
                | None => args_of obj
                end).
  assert (E1 : extends (args_of obj) args1).
  { unfold args1. destruct (assoc (canonical action) parameter_mappings).
    - apply normalize_params_extends.
    - apply extends_refl. }
  set (args2 := if String.eqb (canonical action) "run_command"
                   && negb (mem "interactive" args1)
                then set "interactive" (JBool true) args1 else args1).
  assert (E2 : extends args1 args2).
  { unfold args2.
    destruct (String.eqb (canonical action) "run_command"); simpl;
      [|apply extends_refl].
    destruct (mem "interactive" args1) eqn:M; simpl; [apply extends_refl|].
    now apply extends_set_new. }
  exists (set "args" (JDict args2) obj3). split; [reflexivity|].
  assert (AO : args_of (set "args" (JDict args2) obj3) = args2)
    by (unfold args_of; now rewrite get_set_same).
  rewrite AO. repeat split; auto.
  - unfold action_name. rewrite get_set_other by discriminate. exact N3.
  - eapply extends_trans; eauto.
Qed.

Lemma command_key_copied (args : dict) (v : json) :
  get "command_string" args = None ->
  get "command" args = Some v ->
  forall pm, assoc "run_command" parameter_mappings = Some pm ->
  get "command_string" (normalize_params pm args) = Some v.
Proof.
  intros C V pm E. cbv in E. injection E as <-.
  unfold normalize_params.
  change (get "command_string"
            (fold_left (copy_variant "cid")
               ["cid"; "command_id"; "id"; "identifier"]
               (fold_left (copy_variant "command_string")
                  ["cmd"; "shell_command"; "exec"; "execute"; "run"]
                  (copy_variant "command_string"
                     (copy_variant "command_string" args "command_string")
                     "command"))) = Some v).
  apply copy_variants_extends. apply copy_variants_extends.
  unfold copy_variant at 2. rewrite C.
  unfold copy_variant, mem. rewrite V, C. simpl. apply get_set_same.
Qed.





Lemma rewrite_cd_other_name (action : string) (obj : dict) :
  action <> "run_command" -> rewrite_cd action obj = obj.
Proof.
  intros N. unfold rewrite_cd.
  destruct (String.eqb action "run_command") eqn:E; auto.
  apply String.eqb_eq in E. contradiction.
Qed.

Lemma rewrite_cd_no_command (obj args : dict) :
  get "args" obj = Some (JDict args) ->
  get "command_string" args = None ->
  rewrite_cd "run_command" obj = obj.
Proof. intros G C. unfold rewrite_cd. simpl. now rewrite G, C. Qed.

Lemma rewrite_cd_not_cd (obj args : dict) (cmd : string) :
  get "args" obj = Some (JDict args) ->
  get "command_string" args = Some (JStr cmd) ->
  is_cd_command cmd = false ->
  rewrite_cd "run_command" obj = obj.
Proof. intros G C I. unfold rewrite_cd. simpl. now rewrite G, C, I. Qed.

(** C10.  The rewrite is decided on the name and the key as the candidate
    wrote them.  A candidate with any other name than run_command, so also
    a synonym such as exec, run or shell, is normalised to the canonical
    form of its name with every argument it had, its "cd ..." command text
    included; a run_command candidate without the key command_string keeps
    the name run_command and its arguments, the command text under a
    synonym key being copied to command_string; and the command text "cd"
    alone is not a directory change. *)
Theorem cd_rewrite_needs_literal_name_and_key :
  (forall (obj : dict) (action : string),
      get "action" obj = Some (JStr action) ->
      action <> "run_command" ->
      exists obj',
        normalize_action_object (JDict obj) = Some (JDict obj')
        /\ action_name obj' = canonical action
        /\ extends (args_of obj) (args_of obj'))
  /\ (canonical "execute" = "run_command" /\ canonical "exec" = "run_command"
      /\ canonical "run" = "run_command" /\ canonical "shell" = "run_command")
  /\ (forall (obj args : dict),
        get "action" obj = Some (JStr "run_command") ->
        get "args" obj = Some (JDict args) ->
        get "command_string" args = None ->
        exists obj',
          normalize_action_object (JDict obj) = Some (JDict obj')
          /\ action_name obj' = "run_command"
          /\ extends args (args_of obj')
          /\ (forall v, get "command" args = Some v ->
                        get "command_string" (args_of obj') = Some v))
  /\ (is_cd_command "cd" = false
      /\ forall (obj args : dict),
          get "action" obj = Some (JStr "run_command") ->
          get "args" obj = Some (JDict args) ->
          get "command_string" args = Some (JStr "cd") ->
          exists obj',
            normalize_action_object (JDict obj) = Some (JDict obj')
            /\ action_name obj' = "run_command"
            /\ extends args (args_of obj')).
Proof.
  split; [|split; [|split; [|split]]].
  - intros obj action A N.
    destruct (normalize_plain obj action A (rewrite_cd_other_name _ obj N))
      as (obj' & E & Nm & Ex & _).
    exists obj'. split; [exact E|]. split; [exact Nm | exact Ex].
  - repeat split.
  - intros obj args A G C.
    destruct (normalize_plain obj "run_command" A
                (rewrite_cd_no_command obj args G C))
      as (obj' & E & Nm & Ex & Ex2).
    assert (AO : args_of obj = args) by (unfold args_of; now rewrite G).
    rewrite AO in Ex, Ex2.
    change (canonical "run_command") with "run_command" in Ex2.
    exists obj'. repeat split; auto.
    intros v Hv. apply Ex2.
    apply (command_key_copied args v C Hv). reflexivity.
  - reflexivity.
  - intros obj args A G C.
    destruct (normalize_plain obj "run_command" A
                (rewrite_cd_not_cd obj args "cd" G C eq_refl))
      as (obj' & E & Nm & Ex & _).
    assert (AO : args_of obj = args) by (unfold args_of; now rewrite G).
    rewrite AO in Ex.
    exists obj'. split; [exact E|]. split; [exact Nm | exact Ex].
Qed.

(** "cd foo" under the name exec, under the key command, and the bare
    "cd": none becomes change_directory. *)
Lemma cd_under_synonyms_stays_run_command :
  (exists obj',
      normalize_action_object
        (JDict [("action", JStr "exec");
                ("args", JDict [("command_string", JStr "cd foo")])])
      = Some (JDict obj')
      /\ action_name obj' = "run_command"
      /\ get "command_string" (args_of obj') = Some (JStr "cd foo"))
  /\ (exists obj',
        normalize_action_object
          (JDict [("action", JStr "run_command");
                  ("args", JDict [("command", JStr "cd foo")])])
        = Some (JDict obj')
        /\ action_name obj' = "run_command"
        /\ get "command" (args_of obj') = Some (JStr "cd foo")
        /\ get "command_string" (args_of obj') = Some (JStr "cd foo"))
  /\ (exists obj',
        normalize_action_object
          (JDict [("action", JStr "run_command");
                  ("args", JDict [("command_string", JStr "cd")])])
        = Some (JDict obj')
        /\ action_name obj' = "run_command"
        /\ get "command_string" (args_of obj') = Some (JStr "cd")).
Proof.
  destruct cd_rewrite_needs_literal_name_and_key as (A & (_ & Ex & _) & B & _ & C).
  split; [|split].
  - destruct (A [("action", JStr "exec");
                 ("args", JDict [("command_string", JStr "cd foo")])] "exec"
                eq_refl) as (obj' & E & Nm & X).
    + discriminate.
    + exists obj'. split; [exact E|]. split.
      * rewrite Nm. exact Ex.
      * apply X. reflexivity.
  - destruct (B [("action", JStr "run_command");
                 ("args", JDict [("command", JStr "cd foo")])]
                [("command", JStr "cd foo")] eq_refl eq_refl eq_refl)
      as (obj' & E & Nm & X & Y).
    exists obj'. repeat split; auto.
  - destruct (C [("action", JStr "run_command");
                 ("args", JDict [("command_string", JStr "cd")])]
                [("command_string", JStr "cd")] eq_refl eq_refl eq_refl)
      as (obj' & E & Nm & X).
    exists obj'. repeat split; auto.
Defined.

End NormalizerFacts.

(* ================================================================== *)
(** ** Properties of the action loop *)

Section DispatcherFacts.
Import Json Dispatcher.

Variable world : Type.
Variable action_handlers : list (string * handler world).
Variable confirm : string -> dict -> M world string.
Variable py_str : json -> string.








End DispatcherFacts.


(* ================================================================== *)
(** ** Properties of the extraction *)

Section ScanFacts.
Import Extractor.

(** *** The bracket scan *)

Lemma drop_app (pre s : string) :
  Py.drop (String.length pre) (pre ++ s) = s.
Proof. induction pre; simpl; auto. Qed.

Lemma drop_S (n : nat) (s : string) :
  Py.drop (S n) s = Py.drop 1 (Py.drop n s).
Proof.
  revert s. induction n as [|n IH]; intros s; [reflexivity|].
  destruct s as [|c r]; [reflexivity|].
  change (Py.drop (S (S n)) (String c r)) with (Py.drop (S n) r).
  change (Py.drop (S n) (String c r)) with (Py.drop n r).
  apply IH.
Qed.

Lemma take_app (a b : string) :
  Py.take (String.length a) (a ++ b) = a.
Proof.
  induction a as [|c a IH]; simpl.
  - now destruct b.
  - now rewrite IH.
Qed.

Lemma length_app_string (a b : string) :
  String.length (a ++ b) = String.length a + String.length b.
Proof. induction a; simpl; auto. Qed.

Lemma append_assoc_string (a b c : string) :
  ((a ++ b) ++ c = a ++ (b ++ c))%string.
Proof. induction a; simpl; congruence. Qed.

Lemma bracket_scan_balanced (inner post : string) :
  forall depth end_index,
    raw_balanced inner depth = true ->
    bracket_scan (inner ++ post) end_index (S depth)
    = bracket_scan post (end_index + String.length inner) 1.
Proof.
  induction inner as [|c r IH]; intros depth e B.
  - simpl in B. apply Nat.eqb_eq in B. subst. simpl. now rewrite Nat.add_0_r.
  - simpl in B. simpl append. cbn [bracket_scan].
    replace (e + String.length (String c r)) with (S e + String.length r)
      by (simpl; lia).
    destruct (nat_of_ascii c =? 91).
    + now apply IH.
    + destruct (nat_of_ascii c =? 93).
      * destruct depth as [|d]; [discriminate|]. now apply IH.
      * now apply IH.
Qed.

Lemma bracket_scan_closed (s : string) (end_index : nat) :
  bracket_scan s end_index 0 = (end_index, 0).
Proof. now destruct s. Qed.

Lemma scan_array_balanced (pre inner post : string) :
  raw_balanced inner 0 = true ->
  scan_array (pre ++ "[" ++ inner ++ "]" ++ post) (String.length pre)
  = Some ("[" ++ inner ++ "]").
Proof.
  intros B. unfold scan_array.
  rewrite drop_S, drop_app.
  change (Py.drop 1 ("[" ++ inner ++ "]" ++ post)) with (inner ++ "]" ++ post).
  rewrite (bracket_scan_balanced inner ("]" ++ post) 0 _ B).
  change (bracket_scan ("]" ++ post) (S (String.length pre) + String.length inner) 1)
    with (bracket_scan post (S (S (String.length pre) + String.length inner)) 0).
  rewrite bracket_scan_closed. cbv iota beta. change (0 =? 0) with true.
  cbv iota.
  unfold Py.slice. rewrite drop_app.
  replace (S (S (String.length pre) + String.length inner) - String.length pre)
    with (String.length ("[" ++ inner ++ "]")).
  - f_equal.
    replace ("[" ++ inner ++ "]" ++ post) with (("[" ++ inner ++ "]") ++ post).
    + apply take_app.
    + now rewrite !append_assoc_string.
  - rewrite length_app_string, length_app_string.
    change (String.length "[") with 1. change (String.length "]") with 1. lia.
Qed.




(** *** Where the patterns match in a text built from parts *)

Lemma prefix_app (p s : string) : String.prefix p (p ++ s) = true.
Proof.
  induction p as [|c p IH]; simpl.
  - now destruct s.
  - destruct (ascii_dec c c); [exact IH | contradiction].
Qed.

Lemma prefix_head (c x : ascii) (p s : string) :
  nat_of_ascii x <> nat_of_ascii c ->
  String.prefix (String c p) (String x s) = false.
Proof.
  intros N. simpl. destruct (ascii_dec c x) as [->|]; [contradiction|reflexivity].
Qed.

Lemma find_at_skip (c : ascii) (p pre s : string) :
  forall i,
    Py.lacks (nat_of_ascii c) pre = true ->
    Py.find_at (String c p) (pre ++ s) i
    = Py.find_at (String c p) s (i + String.length pre).
Proof.
  induction pre as [|x r IH]; intros i L.
  - simpl. now rewrite Nat.add_0_r.
  - simpl in L. apply andb_true_iff in L. destruct L as [L1 L2].
    apply negb_true_iff, Nat.eqb_neq in L1.
    change ((String x r ++ s)%string) with (String x (r ++ s)).
    unfold Py.find_at at 1. fold Py.find_at.
    rewrite (prefix_head c x p (r ++ s) L1).
    rewrite IH by exact L2. f_equal. simpl. lia.
Qed.

Lemma find_at_here (p s : string) (i : nat) :
  Py.find_at p (p ++ s) i = Some i.
Proof.
  destruct (p ++ s)%string eqn:E; unfold Py.find_at; fold Py.find_at;
    rewrite <- E, prefix_app; reflexivity.
Qed.

Lemma search_array_head_skip (pre s : string) :
  forall i,
    Py.lacks 91 pre = true ->
    search_array_head (pre ++ s) i
    = search_array_head s (i + String.length pre).
Proof.
  induction pre as [|x r IH]; intros i L.
  - simpl. now rewrite Nat.add_0_r.
  - simpl in L. apply andb_true_iff in L. destruct L as [L1 L2].
    apply negb_true_iff in L1.
    change ((String x r ++ s)%string) with (String x (r ++ s)).
    unfold search_array_head at 1. fold search_array_head.
    unfold array_head at 1. rewrite L1. cbn [andb].
    rewrite IH by exact L2. f_equal. simpl. lia.
Qed.

Lemma search_array_head_here (s : string) (i : nat) :
  array_head s = true -> search_array_head s i = Some i.
Proof.
  intros H. destruct s; unfold search_array_head; fold search_array_head;
    now rewrite H.
Qed.

Lemma lstrip_all_space (ws s : string) :
  Py.all_space ws = true -> Py.lstrip (ws ++ s) = Py.lstrip s.
Proof.
  unfold Py.lstrip. induction ws as [|c r IH]; intros H; [reflexivity|].
  simpl in H. apply andb_true_iff in H. destruct H as [H1 H2].
  simpl. rewrite H1. now apply IH.
Qed.

Lemma rstrip_all_space (ws : string) :
  Py.all_space ws = true -> Py.rstrip ws = EmptyString.
Proof.
  unfold Py.rstrip. induction ws as [|c r IH]; intros H; [reflexivity|].
  simpl in H. apply andb_true_iff in H. destruct H as [H1 H2].
  simpl. rewrite (IH H2). now rewrite H1.
Qed.

Lemma rstrip_closed (s ws : string) :
  Py.all_space ws = true ->
  Py.rstrip ((s ++ "]") ++ ws) = s ++ "]".
Proof.
  intros H. unfold Py.rstrip. induction s as [|c r IH].
  - simpl. fold (Py.rstrip ws). now rewrite (rstrip_all_space ws H).
  - change (((String c r ++ "]") ++ ws)%string)
      with (String c ((r ++ "]") ++ ws)).
    cbn [Py.rstrip_of]. rewrite IH.
    now destruct r.
Qed.

Lemma lacks_app (n : nat) (a b : string) :
  Py.lacks n (a ++ b) = Py.lacks n a && Py.lacks n b.
Proof.
  induction a as [|c r IH]; simpl; auto. rewrite IH. now rewrite andb_assoc.
Qed.

Lemma all_space_lacks (n : nat) (ws : string) :
  Py.isspace (ascii_of_nat n) = false -> n < 256 ->
  Py.all_space ws = true -> Py.lacks n ws = true.
Proof.
  intros S B. induction ws as [|c r IH]; intros H; [reflexivity|].
  simpl in *. apply andb_true_iff in H. destruct H as [H1 H2].
  rewrite (IH H2), andb_true_r. apply negb_true_iff, Nat.eqb_neq.
  intros E. rewrite <- E, ascii_nat_embedding in S. congruence.
Qed.

(** The block between the first opening fence and the fence that closes
    it. *)
Lemma search_fenced_block (pre ws1 inner ws2 post : string) :
  Py.lacks 96 pre = true ->
  Py.all_space ws1 = true -> Py.all_space ws2 = true ->
  Py.lacks 96 inner = true ->
  search_fenced
    (pre ++ fence_open ++ ws1 ++ ("[" ++ inner ++ "]") ++ ws2 ++ fence ++ post)
  = Some ("[" ++ inner ++ "]").
Proof.
  intros P W1 W2 I. unfold search_fenced, Py.find.
  unfold fence_open at 1.
  rewrite (find_at_skip "`" "``json" pre _ 0 P).
  fold fence_open. rewrite find_at_here. cbn [Nat.add].
  replace (String.length pre + 7) with (String.length (pre ++ fence_open))
    by (rewrite length_app_string; reflexivity).
  rewrite <- append_assoc_string, drop_app.
  rewrite (lstrip_all_space ws1 _ W1).
  change (Py.lstrip (("[" ++ inner ++ "]") ++ ws2 ++ fence ++ post))
    with (("[" ++ inner ++ "]") ++ ws2 ++ fence ++ post).
  rewrite <- append_assoc_string.
  unfold fence at 2.
  rewrite (find_at_skip "`" "``" (("[" ++ inner ++ "]") ++ ws2) _ 0).
  - fold fence. rewrite find_at_here. cbn [Nat.add].
    rewrite take_app.
    change ("[" ++ inner ++ "]") with (("[" ++ inner) ++ "]").
    now rewrite rstrip_closed.
  - change (nat_of_ascii "`") with 96.
    rewrite lacks_app. apply andb_true_iff. split.
    + change (Py.lacks 96 ("[" ++ inner ++ "]"))
        with (Py.lacks 96 (inner ++ "]")).
      rewrite lacks_app, I. reflexivity.
    + apply all_space_lacks; auto. lia.
Qed.

Lemma lstrip_app_head (r t : string) (c : ascii) (r2 : string) :
  Py.lstrip r = String c r2 -> Py.lstrip (r ++ t) = String c (r2 ++ t).
Proof.
  unfold Py.lstrip. induction r as [|x r IH]; [discriminate|].
  simpl. destruct (Py.isspace x); auto.
  intros [= -> ->]. reflexivity.
Qed.

Lemma prefix_app_r (p s t : string) :
  String.prefix p s = true -> String.prefix p (s ++ t) = true.
Proof.
  revert p. induction s as [|x s IH]; intros p H.
  - destruct p; [now destruct t | discriminate].
  - destruct p as [|c p]; [reflexivity|]. simpl in *.
    destruct (ascii_dec c x); [now apply IH | discriminate].
Qed.

Lemma array_head_app (s t : string) :
  array_head s = true -> array_head (s ++ t) = true.
Proof.
  destruct s as [|c r]; [discriminate|].
  change ((String c r ++ t)%string) with (String c (r ++ t)).
  unfold array_head. intros H. apply andb_true_iff in H.
  destruct H as [H1 H2]. rewrite H1. cbn [andb].
  destruct (Py.lstrip r) as [|c2 r2] eqn:L; [discriminate|].
  rewrite (lstrip_app_head r t c2 r2 L).
  apply andb_true_iff in H2. destruct H2 as [H2 H3]. rewrite H2. cbn [andb].
  destruct (Py.lstrip r2) as [|c3 r3] eqn:L2.
  - discriminate.
  - rewrite (lstrip_app_head r2 t c3 r3 L2).
    change (String c3 (r3 ++ t)) with ((String c3 r3 ++ t)%string).
    now apply prefix_app_r.
Qed.


End ScanFacts.

Section ExtractorFacts.
Import Json Normalizer Extractor.

Variable json_loads : string -> res json.

Lemma array_anywhere_cases (text : string) :
  array_anywhere json_loads text = Ok Continue
  \/ exists a l,
       first_array text = Some a /\ json_loads a = Ok (JList l)
       /\ array_anywhere json_loads text
          = Ok (Return (Some (normalize_items l))).
Proof.
  unfold array_anywhere, first_array.
  destruct (search_array_head text 0) as [start|]; [|now left].
  destruct (scan_array text start) as [a|]; [|now left].
  destruct (json_loads a) as [v|e] eqn:L; simpl.
  - destruct v; try now left. right. now exists a, items.
  - left. now destruct (is_JSONDecodeError e).
Qed.

Lemma fenced_array_cases (json_str : string) :
  fenced_array json_loads json_str = Ok Continue
  \/ exists l,
       Py.startswith (Py.strip json_str) "[" = true
       /\ json_loads json_str = Ok (JList l)
       /\ fenced_array json_loads json_str
          = Ok (Return (Some (normalize_items l))).
Proof.
  unfold fenced_array.
  destruct (Py.startswith (Py.strip json_str) "["); [|now left].
  destruct (json_loads json_str) as [v|e] eqn:L; simpl; [|now left].
  destruct v; try now left. right. now exists items.
Qed.

Lemma extract_returns (text : string) :
  exists r, extract_json_from_response json_loads text = Ok r.
Proof.
  unfold extract_json_from_response.
  destruct (extract_body json_loads text); simpl; eauto.
Qed.

Section DecoderRaises.
Hypothesis always_raises : forall s, exists e, json_loads s = Raise e.

Lemma array_anywhere_continues (text : string) :
  array_anywhere json_loads text = Ok Continue.
Proof.
  destruct (array_anywhere_cases text) as [H|(a & l & _ & L & _)]; auto.
  destruct (always_raises a) as (e & R). congruence.
Qed.

Lemma fenced_array_continues (json_str : string) :
  fenced_array json_loads json_str = Ok Continue.
Proof.
  destruct (fenced_array_cases json_str) as [H|(l & _ & L & _)]; auto.
  destruct (always_raises json_str) as (e & R). congruence.
Qed.

Lemma fenced_rest_none (json_str : string) :
  fenced_rest json_loads json_str = Ok None.
Proof.
  unfold fenced_rest.
  match goal with |- context [json_loads ?s] =>
    destruct (always_raises s) as (e & ->) end. simpl.
  destruct (is_JSONDecodeError e); auto.
  match goal with |- context [if ?c then _ else _] => destruct c end; auto.
  match goal with |- context [json_loads ?s] =>
    destruct (always_raises s) as (e2 & ->) end. reflexivity.
Qed.

Lemma raw_array_continues (text : string) :
  raw_array json_loads text = Ok Continue.
Proof.
  unfold raw_array. destruct (Py.startswith (Py.strip text) "["); auto.
  destruct (Py.find "[" text) as [start|]; auto.
  destruct (scan_array text start) as [a|]; auto.
  destruct (always_raises a) as (e & ->). reflexivity.
Qed.

Lemma extract_none_when_decoder_raises (text : string) :
  extract_json_from_response json_loads text = Ok None.
Proof.
  unfold extract_json_from_response, extract_body.
  rewrite array_anywhere_continues. simpl.
  destruct (search_fenced text) as [json_str|].
  - rewrite fenced_array_continues. simpl. now rewrite fenced_rest_none.
  - unfold raw_json.
    match goal with |- context [if ?c then _ else _] => destruct c end; auto.
    rewrite raw_array_continues. simpl.
    match goal with |- context [json_loads ?s] =>
      destruct (always_raises s) as (e & ->) end. simpl.
    now destruct (is_JSONDecodeError e || is_TypeError e).
Qed.
End DecoderRaises.

(** C2.  Whatever the decoder does, returning any value or raising any
    exception, the extraction returns: its result is a list of actions or
    [None], and the caller never takes its error branch.  A result of
    [None] or of no action is handled as a conversational response.  When
    every text handed to the decoder is rejected the result is [None], and
    so it is when the response has no array head, no fenced block and does
    not start with a brace or a bracket. *)
Theorem extraction_never_raises :
  forall text : string,
    (exists r, extract_json_from_response json_loads text = Ok r)
    /\ (forall e, handle_response json_loads text <> ErrorHandlingResponse e)
    /\ (extract_json_from_response json_loads text = Ok None
        \/ extract_json_from_response json_loads text = Ok (Some []) ->
        handle_response json_loads text = Conversational)
    /\ ((forall s, exists e, json_loads s = Raise e) ->
        extract_json_from_response json_loads text = Ok None
        /\ handle_response json_loads text = Conversational)
    /\ (search_array_head text 0 = None ->
        search_fenced text = None ->
        Py.startswith (Py.strip text) "{" = false ->
        Py.startswith (Py.strip text) "[" = false ->
        extract_json_from_response json_loads text = Ok None
        /\ handle_response json_loads text = Conversational).
Proof.
  intros text.
  assert (C : extract_json_from_response json_loads text = Ok None
              \/ extract_json_from_response json_loads text = Ok (Some []) ->
              handle_response json_loads text = Conversational).
  { unfold handle_response. now intros [-> | ->]. }
  split; [apply extract_returns|]. split; [|split; [exact C|split]].
  - intros e. unfold handle_response.
    destruct (extract_returns text) as (r & ->).
    now destruct r as [[|a l]|].
  - intros R.
    pose proof (extract_none_when_decoder_raises R text) as E. auto.
  - intros A F B1 B2.
    assert (E : extract_json_from_response json_loads text = Ok None).
    { unfold extract_json_from_response, extract_body, array_anywhere.
      rewrite A. simpl. rewrite F. unfold raw_json. rewrite B1, B2.
      now rewrite andb_false_r. }
    auto.
Qed.

(** *** The loops over a decoded list *)

Lemma normalize_well_formed (item : json) :
  well_formed item = true ->
  exists n, normalize_action_object item = Some n.
Proof.
  destruct item as [| | | | |l|o]; try discriminate.
  unfold well_formed. intros H.
  destruct (get "action" o) as [[| | | |a| |]|] eqn:A; try discriminate.
  unfold normalize_action_object. rewrite A. eexists. reflexivity.
Qed.

Lemma normalize_ill_formed (item : json) :
  well_formed item = false -> normalize_action_object item = None.
Proof.
  destruct item as [| | | | |l|o]; try reflexivity.
  unfold well_formed. intros H.
  destruct (get "action" o) as [[| | | |a| |]|] eqn:A; try discriminate;
    unfold normalize_action_object; rewrite A; reflexivity.
Qed.

Lemma normalize_items_filter (items : list json) :
  map Some (normalize_items items)
  = map normalize_action_object (filter well_formed items).
Proof.
  induction items as [|it r IH]; [reflexivity|].
  cbn [filter]. destruct (well_formed it) eqn:W.
  - destruct (normalize_well_formed it W) as (n & E).
    destruct it as [| | | | |l|o]; try discriminate.
    cbn [normalize_items map]. rewrite E. cbn [map]. now rewrite IH.
  - pose proof (normalize_ill_formed it W) as E.
    destruct it as [| | | | |l|o]; cbn [normalize_items]; try exact IH.
    now rewrite E.
Qed.

Lemma normalize_items_length (items : list json) :
  List.length (normalize_items items)
  = List.length (filter well_formed items).
Proof.
  rewrite <- (length_map Some), normalize_items_filter. apply length_map.
Qed.

Lemma filter_all {A : Type} (f : A -> bool) (l : list A) :
  forallb f l = true -> filter f l = l.
Proof.
  induction l as [|x r IH]; simpl; auto.
  intros H. apply andb_true_iff in H. destruct H as [-> H].
  now rewrite IH.
Qed.

Lemma extract_balanced_array (pre inner post : string) (items : list json) :
  search_array_head (pre ++ "[" ++ inner ++ "]" ++ post) 0
  = Some (String.length pre) ->
  raw_balanced inner 0 = true ->
  json_loads ("[" ++ inner ++ "]") = Ok (JList items) ->
  first_array (pre ++ "[" ++ inner ++ "]" ++ post)
  = Some ("[" ++ inner ++ "]")
  /\ extract_json_from_response json_loads
       (pre ++ "[" ++ inner ++ "]" ++ post)
     = Ok (Some (normalize_items items)).
Proof.
  intros S B L.
  assert (FA : first_array (pre ++ "[" ++ inner ++ "]" ++ post)
               = Some ("[" ++ inner ++ "]")).
  { unfold first_array. rewrite S. now apply scan_array_balanced. }
  split; [exact FA|].
  unfold extract_json_from_response, extract_body.
  destruct (array_anywhere_cases (pre ++ "[" ++ inner ++ "]" ++ post))
    as [C | (a & l & FA' & La & ->)].
  - exfalso. revert C. unfold array_anywhere. rewrite S.
    rewrite (scan_array_balanced pre inner post B). rewrite L. discriminate.
  - assert (Ea : a = "[" ++ inner ++ "]") by congruence. subst a.
    assert (El : l = items) by congruence. now subst l.
Qed.

Lemma extract_fenced_list (text body : string) (items : list json) :
  search_fenced text = Some body ->
  Py.startswith (Py.strip body) "[" = true ->
  json_loads body = Ok (JList items) ->
  (forall a l, first_array text = Some a ->
               json_loads a = Ok (JList l) -> l = items) ->
  extract_json_from_response json_loads text
  = Ok (Some (normalize_items items)).
Proof.
  intros F B L H.
  unfold extract_json_from_response, extract_body.
  destruct (array_anywhere_cases text) as [-> | (a & l & FA & La & ->)];
    simpl.
  - rewrite F. unfold fenced_array. rewrite B, L. reflexivity.
  - now rewrite (H a l FA La).
Qed.

Lemma fenced_text_assoc (pre ws1 inner ws2 post : string) :
  pre ++ fence_open ++ ws1 ++ ("[" ++ inner ++ "]") ++ ws2 ++ fence ++ post
  = (pre ++ fence_open ++ ws1) ++ "[" ++ inner ++ "]" ++ ws2 ++ fence ++ post.
Proof. now rewrite !append_assoc_string. Qed.

Lemma strip_closed_array (inner : string) :
  Py.startswith (Py.strip ("[" ++ inner ++ "]")) "[" = true.
Proof.
  unfold Py.strip.
  change (Py.lstrip ("[" ++ inner ++ "]")) with ("[" ++ inner ++ "]").
  replace ("[" ++ inner ++ "]") with ((("[" ++ inner) ++ "]") ++ EmptyString).
  - rewrite rstrip_closed by reflexivity. now destruct inner.
  - rewrite !append_assoc_string. reflexivity.
Qed.

(** C3, as amended.  Take a response whose first fenced block starts with
    a bracket and decodes to a list, and in which the text that the search
    for an array anywhere in the response (which runs first) hands to the
    decoder, if there is one and it decodes to a list, decodes to that same
    list.  Then the extraction returns the normalised well-formed entries
    of the list, in order: as many actions as the list has entries when all
    are dicts with a string action, the entries that are not being left out
    without any effect on the others.  This is so for a response made of a
    text without backtick, the opening fence, a list, the closing fence and
    any text, with whitespace around the list and no backtick in it, in two
    cases: the response has no array head at all; or no bracket stands in
    front of the fence, the list opens with an object whose first key is
    "action", and its bracket characters pair up. *)
Theorem fenced_array_extracts_in_order :
  (forall (text body : string) (items : list json),
      search_fenced text = Some body ->
      Py.startswith (Py.strip body) "[" = true ->
      json_loads body = Ok (JList items) ->
      (forall a l, first_array text = Some a ->
                   json_loads a = Ok (JList l) -> l = items) ->
      extract_json_from_response json_loads text
      = Ok (Some (normalize_items items))
      /\ map Some (normalize_items items)
         = map normalize_action_object (filter well_formed items)
      /\ (forallb well_formed items = true ->
          List.length (normalize_items items) = List.length items
          /\ map Some (normalize_items items)
             = map normalize_action_object items))
  /\ (forall (pre ws1 inner ws2 post : string) (items : list json),
        Py.lacks 96 pre = true ->
        Py.all_space ws1 = true -> Py.all_space ws2 = true ->
        Py.lacks 96 inner = true ->
        json_loads ("[" ++ inner ++ "]") = Ok (JList items) ->
        search_array_head
          (pre ++ fence_open ++ ws1 ++ ("[" ++ inner ++ "]")
               ++ ws2 ++ fence ++ post) 0 = None
        \/ (Py.lacks 91 pre = true
            /\ array_head ("[" ++ inner ++ "]") = true
            /\ raw_balanced inner 0 = true) ->
        extract_json_from_response json_loads
          (pre ++ fence_open ++ ws1 ++ ("[" ++ inner ++ "]")
               ++ ws2 ++ fence ++ post)
        = Ok (Some (normalize_items items))).
Proof.
  split.
  - intros text body items F B L H.
    split; [now apply (extract_fenced_list text body)|]. split.
    + apply normalize_items_filter.
    + intros W. split.
      * rewrite normalize_items_length. now rewrite filter_all.
      * rewrite normalize_items_filter. now rewrite filter_all.
  - intros pre ws1 inner ws2 post items P W1 W2 I L [N | (P2 & A & B)].
    + apply (extract_fenced_list _ ("[" ++ inner ++ "]")); auto.
      * now apply search_fenced_block.
      * apply strip_closed_array.
      * intros a l FA. unfold first_array in FA. rewrite N in FA.
        discriminate.
    + rewrite fenced_text_assoc.
      apply extract_balanced_array; auto.
      rewrite (search_array_head_skip (pre ++ fence_open ++ ws1)).
      * apply search_array_head_here.
        replace ("[" ++ inner ++ "]" ++ ws2 ++ fence ++ post)
          with (("[" ++ inner ++ "]") ++ ws2 ++ fence ++ post)
          by now rewrite !append_assoc_string.
        now apply array_head_app.
      * rewrite !lacks_app, P2. cbn [andb].
        change (Py.lacks 91 fence_open) with true. cbn [andb].
        apply all_space_lacks; auto. lia.
Qed.


End ExtractorFacts.

(** A decoder that always fails, and a response without any payload. *)
Lemma extraction_of_nothing :
  (Extractor.extract_json_from_response (fun _ => Raise RecursionError)
     (text "[{'action': 'read_file'}]") = Ok None
   /\ Extractor.handle_response (fun _ => Raise RecursionError)
        (text "[{'action': 'read_file'}]") = Extractor.Conversational)
  /\ (Extractor.extract_json_from_response Json.loads "Hello, how can I help?"
      = Ok None
      /\ Extractor.handle_response Json.loads "Hello, how can I help?"
         = Extractor.Conversational)
  /\ Extractor.handle_response Json.loads (text "```json
[3]
```") = Extractor.Conversational.
Proof.
  split; [|split].
  - destruct (extraction_never_raises (fun _ => Raise RecursionError)
                (text "[{'action': 'read_file'}]")) as (_ & _ & _ & D & _).
    apply D. intros s. now exists RecursionError.
  - destruct (extraction_never_raises Json.loads "Hello, how can I help?")
      as (_ & _ & _ & _ & E).
    apply E; reflexivity.
  - destruct (extraction_never_raises Json.loads (text "```json
[3]
```")) as (_ & _ & C & _).
    apply C. right. reflexivity.
Defined.

(** A fenced list with two well-formed objects, a number and an object
    without a name: two actions come out, in order.  And a fenced list
    whose object does not start with its name, so that only the fenced
    block is decoded. *)
Lemma fenced_array_of_four_entries :
  let nl := Supervisor.nl in
  let inner := text
    "{'action': 'mkdir', 'args': {'dir': 'x'}}, 3, {'action': 'ls'}, {'x': 1}" in
  let response :=
    ("Creating it now." ++ nl) ++ Extractor.fence_open ++ nl
      ++ ("[" ++ inner ++ "]") ++ nl ++ Extractor.fence ++ (nl ++ "Done.") in
  let late := text "```json
[{'args': {'path': 'src'}, 'action': 'ls'}]
```" in
  (exists first second,
      Extractor.extract_json_from_response Json.loads response
      = Ok (Some [Json.JDict first; Json.JDict second])
      /\ Normalizer.action_name first = "create_folder"
      /\ Normalizer.action_name second = "list_directory")
  /\ (exists only,
        Extractor.extract_json_from_response Json.loads late
        = Ok (Some [Json.JDict only])
        /\ Normalizer.action_name only = "list_directory").
Proof.
  intros nl inner response late.
  destruct (fenced_array_extracts_in_order Json.loads) as (A & B).
  split.
  - unfold response.
    rewrite (B ("Creating it now." ++ nl) nl inner nl (nl ++ "Done.")
               [Json.JDict [("action", Json.JStr "mkdir");
                            ("args", Json.JDict [("dir", Json.JStr "x")])];
                Json.JInt 3;
                Json.JDict [("action", Json.JStr "ls")];
                Json.JDict [("x", Json.JInt 1)]]);
      try reflexivity.
    + eexists. eexists. split; [reflexivity|]. split; reflexivity.
    + right. repeat split.
  - destruct (A late
                (text "[{'args': {'path': 'src'}, 'action': 'ls'}]")
                [Json.JDict [("args", Json.JDict [("path", Json.JStr "src")]);
                             ("action", Json.JStr "ls")]])
      as (E & _ & _); try reflexivity.
    + intros a l Ha. vm_compute in Ha. discriminate.
    + rewrite E. eexists. split; reflexivity.
Defined.

(** C3, as stated, fails.  The response is one fenced list of two
    well-formed action objects and nothing else, yet one action is
    extracted, and it is neither of the two: the search for an array
    anywhere in the response runs first and takes the list nested in the
    arguments of the first object. *)
Lemma fenced_array_counterexample :
  let response := text "```json
[{'args': {'steps': [{'action': 'inner'}]}, 'action': 'run_command'}, {'action': 'read_file'}]
```" in
  let body := text
    "[{'args': {'steps': [{'action': 'inner'}]}, 'action': 'run_command'}, {'action': 'read_file'}]" in
  let first :=
    Json.JDict
      [("args",
        Json.JDict
          [("steps", Json.JList [Json.JDict [("action", Json.JStr "inner")]])]);
       ("action", Json.JStr "run_command")] in
  let second := Json.JDict [("action", Json.JStr "read_file")] in
  Extractor.search_fenced response = Some body
  /\ Json.loads body = Ok (Json.JList [first; second])
  /\ forallb Normalizer.well_formed [first; second] = true
  /\ Extractor.first_array response = Some (text "[{'action': 'inner'}]")
  /\ Extractor.extract_json_from_response Json.loads response
     = Ok (Some [Json.JDict [("action", Json.JStr "inner");
                             ("args", Json.JDict [])]]).
Proof. vm_compute. repeat split. Qed.



(* ================================================================== *)
(** ** [int] reads back what [str] prints *)

Section IntText.
Import Py.

Lemma digits_acc (u : Decimal.uint) (acc : positive) :
  int_digits (Zpos acc) false (NilEmpty.string_of_uint u)
  = Some (Zpos (Pos.of_uint_acc u acc)).
Proof.
  revert acc. induction u; intros acc;
    cbn [NilEmpty.string_of_uint int_digits Pos.of_uint_acc]; auto;
    match goal with
    | |- context [is_digit ?c] =>
        change (is_digit c) with true; cbv iota;
        let v := eval vm_compute in (digit_val c) in
        change (digit_val c) with v
    end;
    rewrite <- IHu; f_equal; lia.
Qed.

Lemma digits_zero (u : Decimal.uint) :
  int_digits 0 false (NilEmpty.string_of_uint u)
  = Some (Z.of_N (Pos.of_uint u)).
Proof.
  induction u; cbn [NilEmpty.string_of_uint int_digits Pos.of_uint]; auto;
    match goal with
    | |- context [is_digit ?c] =>
        change (is_digit c) with true; cbv iota;
        let v := eval vm_compute in (digit_val c) in
        change (digit_val c) with v
    end; cbn [Z.mul Z.add Z.of_N]; auto; apply digits_acc.
Qed.

Lemma rstrip_digits (u : Decimal.uint) :
  rstrip_of int_space (NilEmpty.string_of_uint u) = NilEmpty.string_of_uint u.
Proof.
  induction u; cbn [NilEmpty.string_of_uint rstrip_of]; auto;
    rewrite IHu; now destruct (NilEmpty.string_of_uint u).
Qed.

Lemma int_of_digits (u : Decimal.uint) :
  u <> Decimal.Nil ->
  let s := NilEmpty.string_of_uint u in
  lstrip_of int_space s = s
  /\ int_unsigned s = Some (Z.of_N (Pos.of_uint u))
  /\ s <> EmptyString
  /\ (forall c r, s = String c r ->
      (nat_of_ascii c =? 45) = false /\ (nat_of_ascii c =? 43) = false).
Proof.
  intros N s. pose proof (digits_zero u) as D. fold s in D.
  destruct u; try (now elim N); subst s;
    cbn [NilEmpty.string_of_uint] in *;
    (split; [reflexivity|]); (split; [exact D|]);
    (split; [discriminate|]); intros c r E; injection E as <- _;
    split; reflexivity.
Qed.

Lemma int_of_str_of_int (n : Z) : int_of_str (str_of_int n) = Some n.
Proof.
  unfold str_of_int, int_of_str.
  destruct n as [|p|p]; [reflexivity| |];
    cbn [Z.to_int NilZero.string_of_int];
    pose proof (DecimalPos.Unsigned.to_uint_nonnil p) as N;
    destruct (int_of_digits _ N) as (L & V & E & C);
    unfold NilZero.string_of_uint.
  - destruct (Pos.to_uint p) eqn:U; try (now elim N); rewrite <- U in *;
      rewrite L, rstrip_digits;
      destruct (NilEmpty.string_of_uint (Pos.to_uint p)) as [|c r] eqn:S;
        try (now elim E);
      destruct (C c r eq_refl) as [C1 C2]; rewrite C1, C2, V;
      now rewrite DecimalPos.Unsigned.of_to.
  - assert (S : (match Pos.to_uint p with
                 | Decimal.Nil => "0"
                 | _ => NilEmpty.string_of_uint (Pos.to_uint p)
                 end) = NilEmpty.string_of_uint (Pos.to_uint p))
      by (destruct (Pos.to_uint p); auto; now elim N).
    rewrite S. cbn [lstrip_of]. change (int_space "-") with false. cbv iota.
    cbn [rstrip_of]. rewrite rstrip_digits.
    destruct (NilEmpty.string_of_uint (Pos.to_uint p)) as [|c r] eqn:S';
      try (now elim E).
    change (nat_of_ascii "-" =? 45) with true. cbv iota.
    rewrite V. now rewrite DecimalPos.Unsigned.of_to.
Qed.
End IntText.

(* ================================================================== *)
(** ** Further properties of the process table *)

Section SupervisorMore.
Import Supervisor Tracking.

(** *** Which pids are tracked *)

Lemma update_keys (pid : Z) (obs : drain_obs) (t : table) :
  map fst (fst (update_specific_process_output pid obs t)) = map fst t.
Proof.
  unfold update_specific_process_output.
  destruct (lookup pid t) as [d|] eqn:L; auto.
  destruct (drain_entry obs d). simpl.
  apply store_keys_present. eapply lookup_key; eauto.
Qed.

Lemma report_loop_keys (f : Z -> proc_obs) (pids : list Z) (t : table) :
  map fst (fst (fst (fst (report_loop f pids t)))) = map fst t.
Proof.
  revert t. induction pids as [|pid rest IH]; intros t; simpl; auto.
  set (t1 := fst (update_specific_process_output pid (drain (f pid)) t)).
  assert (K1 : map fst t1 = map fst t) by apply update_keys.
  destruct (lookup pid t1).
  - specialize (IH t1).
    destruct (report_loop f rest t1) as [[[t2 ls] cp] w]. simpl in *.
    congruence.
  - rewrite IH. exact K1.
Qed.

Lemma reap_keys_incl (now : Q) (cps : list Z) (t : table) (q : Z) :
  In q (map fst (reap now cps t)) -> In q (map fst t).
Proof.
  revert t. induction cps as [|pid rest IH]; intros t H; simpl in H; auto.
  apply IH in H. destruct (lookup pid t) as [d|] eqn:L; auto.
  destruct (grace_over now d).
  - eapply remove_keys_incl; eauto.
  - destruct (no_completion_time d); auto.
    rewrite store_keys_present in H; auto. eapply lookup_key; eauto.
Qed.

Lemma unique_reap (now : Q) (cps : list Z) (t : table) :
  unique_keys t -> unique_keys (reap now cps t).
Proof.
  revert t. induction cps as [|pid rest IH]; intros t U; simpl; auto.
  apply IH. destruct (lookup pid t) as [d|]; auto.
  destruct (grace_over now d).
  - now apply unique_remove.
  - destruct (no_completion_time d); auto. now apply unique_store.
Qed.

Lemma store_keys_incl (pid q : Z) (d : proc) (t : table) :
  In q (map fst (store pid d t)) -> q = pid \/ In q (map fst t).
Proof.
  destruct (in_dec Z.eq_dec pid (map fst t)) as [H|H].
  - rewrite store_keys_present by auto. now right.
  - rewrite store_keys_absent by auto. intros I. apply in_app_or in I.
    destruct I as [I|[<-|[]]]; auto.
Qed.

Lemma run_op_unique (o : op) (t : table) :
  unique_keys t -> unique_keys (run_op o t).
Proof.
  intros U. destruct o as [p c i now first|p obs|f now|i txt obs|i obs|];
    cbn [run_op].
  - unfold spawn. apply unique_update. now apply unique_store.
  - now apply unique_update.
  - rewrite refresh_table. apply unique_reap.
    now apply report_loop_table_unique.
  - destruct (send_input_table i txt obs t)
      as [->|(text & p & pd & _ & _ & _ & _ & ->)]; auto.
    apply unique_update. now apply unique_store.
  - unfold handle_kill_process.
    destruct (find_process_by_pid_or_cid i t) as [[p pd]|]; auto.
    destruct obs; simpl; auto. now apply unique_remove.
  - exact U.
Qed.

Lemma run_op_keys (o : op) (t : table) (q : Z) :
  In q (map fst (run_op o t)) ->
  In q (map fst t)
  \/ exists c i now first, o = OpSpawn q c i now first.
Proof.
  intros H. destruct o as [p c i now first|p obs|f now|i txt obs|i obs|];
    cbn [run_op] in H.
  - unfold spawn in H. rewrite update_keys in H.
    apply store_keys_incl in H. destruct H as [->|H]; auto.
    right. now exists c, i, now, first.
  - left. now rewrite update_keys in H.
  - left. rewrite refresh_table in H. apply reap_keys_incl in H.
    now rewrite report_loop_keys in H.
  - left. destruct (send_input_table i txt obs t)
      as [E|(text & p & pd & _ & T & _ & _ & E)]; rewrite E in H; auto.
    rewrite update_keys in H. rewrite store_keys_present in H; auto.
    apply send_target_In in T. change p with (fst (p, pd)). now apply in_map.
  - left. unfold handle_kill_process in H.
    destruct (find_process_by_pid_or_cid i t) as [[p pd]|]; auto.
    destruct obs; simpl in H; auto. eapply remove_keys_incl; eauto.
  - now left.
Qed.

(** X1.  The table never holds a pid twice, whatever operations ran since
    it was empty, and an operation adds no pid to it except the spawn of
    that pid. *)
Theorem tracked_pids_unique_and_only_spawned :
  (forall ops : list op, unique_keys (run_ops ops []))
  /\ (forall (o : op) (t : table) (q : Z),
        In q (map fst (run_op o t)) ->
        In q (map fst t)
        \/ exists c i now first, o = OpSpawn q c i now first).
Proof.
  split.
  - intros ops. unfold run_ops.
    assert (G : forall t, unique_keys t ->
                unique_keys (fold_left (fun t o => run_op o t) ops t)).
    { induction ops as [|o r IH]; intros t U; simpl; auto.
      apply IH. now apply run_op_unique. }
    apply G. constructor.
  - apply run_op_keys.
Qed.

(** A drain, an input and a kill of a process that was never spawned leave
    the table empty; the spawn adds its pid. *)
Lemma only_spawn_adds_a_pid :
  let quiet := mkObs None [] None in
  let ops := [OpDrain 5%Z quiet;
              OpSendInput (IdInt 5) (Some "y") (mkSendObs None None quiet);
              OpKill (IdInt 5) (Exited (Some 0%Z))] in
  map fst (run_ops ops []) = []
  /\ map fst (run_ops (ops ++ [OpSpawn 5%Z "make" "build" 0 quiet]) []) = [5%Z]
  /\ (In 5%Z (map fst ([] : table))
      \/ exists c i now first,
           OpSpawn 5%Z "make" "build" 0 quiet = OpSpawn 5%Z c i now first).
Proof.
  intros quiet ops. split; [reflexivity|]. split; [reflexivity|].
  apply (proj2 tracked_pids_unique_and_only_spawned
           (OpSpawn 5%Z "make" "build" 0 quiet) [] 5%Z).
  now left.
Defined.

(** *** What an operation may change in an entry it keeps *)

Section EntryHistory.
Variable R : proc -> proc -> Prop.
Hypothesis R_refl : forall d, R d d.
Hypothesis R_trans : forall a b c, R a b -> R b c -> R a c.
Hypothesis R_drain : forall obs d, R d (fst (drain_entry obs d)).
Hypothesis R_flag : forall b d, R d (set_expecting_input b d).
Hypothesis R_time :
  forall now d, no_completion_time d = true -> R d (set_completion_time now d).

Lemma reap_related (now : Q) (cps : list Z) (t : table) (q : Z) (d' : proc) :
  unique_keys t ->
  lookup q (reap now cps t) = Some d' ->
  exists d, lookup q t = Some d /\ R d d'.
Proof.
  revert t. induction cps as [|pid rest IH]; intros t U L; simpl in L.
  - exists d'. auto.
  - destruct (lookup pid t) as [d0|] eqn:L0; [|now apply IH].
    destruct (grace_over now d0).
    + destruct (IH _ (unique_remove pid t U) L) as (d & Ld & E).
      exists d. split; auto.
      destruct (Z.eq_dec pid q) as [->|N].
      * rewrite lookup_remove_same in Ld by auto. discriminate.
      * now rewrite lookup_remove_other in Ld.
    + destruct (no_completion_time d0) eqn:NC; [|now apply IH].
      destruct (IH _ (unique_store pid _ t U) L) as (d & Ld & E).
      destruct (Z.eq_dec pid q) as [->|N].
      * rewrite lookup_store_same in Ld. injection Ld as <-.
        exists d0. split; auto. eapply R_trans; [|exact E]. now apply R_time.
      * rewrite lookup_store_other in Ld by auto. now exists d.
Qed.

Lemma run_op_related (o : op) (t : table) (pid : Z) (d d' : proc) :
  unique_keys t -> keeps_entry o pid ->
  lookup pid t = Some d -> lookup pid (run_op o t) = Some d' ->
  R d d'.
Proof.
  intros U K L H.
  destruct o as [p c i now first|p obs|f now|i txt obs|i obs|];
    cbn [run_op keeps_entry] in *.
  - unfold spawn in H. rewrite update_lookup_other in H by auto.
    rewrite lookup_store_other in H by auto.
    assert (d' = d) by congruence. subst. apply R_refl.
  - destruct (Z.eq_dec p pid) as [->|N].
    + rewrite (update_lookup_same _ _ _ _ L) in H. injection H as <-.
      apply R_drain.
    + rewrite update_lookup_other in H by auto.
      assert (d' = d) by congruence. subst. apply R_refl.
  - rewrite refresh_table in H.
    apply reap_related in H; [|now apply report_loop_table_unique].
    destruct H as (d1 & L1 & E).
    rewrite (report_loop_lookup_drained f (map fst t) t pid d U
               (lookup_key _ _ _ L) L) in L1.
    injection L1 as <-. eapply R_trans; [|exact E]. apply R_drain.
  - destruct (send_input_table i txt obs t)
      as [E|(text & p & pd & -> & T & Po & Wr & E)]; rewrite E in H.
    + assert (d' = d) by congruence. subst. apply R_refl.
    + destruct (Z.eq_dec p pid) as [->|N].
      * assert (pd = d).
        { apply send_target_In in T. apply In_lookup in T; auto. congruence. }
        subst pd.
        rewrite (update_lookup_same _ _ _ _ (lookup_store_same _ _ _)) in H.
        injection H as <-.
        eapply R_trans; [apply (R_flag false)|apply R_drain].
      * rewrite update_lookup_other in H by auto.
        rewrite lookup_store_other in H by auto.
        assert (d' = d) by congruence. subst. apply R_refl.
  - unfold handle_kill_process in H.
    destruct (find_process_by_pid_or_cid i t) as [[p pd]|];
      [|simpl in H; assert (d' = d) by congruence; subst; apply R_refl].
    destruct obs; simpl in H;
      try (assert (d' = d) by congruence; subst; apply R_refl).
    destruct (Z.eq_dec p pid) as [->|N].
    + rewrite lookup_remove_same in H by auto. discriminate.
    + rewrite lookup_remove_other in H by auto.
      assert (d' = d) by congruence. subst. apply R_refl.
  - unfold cleanup_running_processes in H.
    assert (d' = d) by congruence. subst. apply R_refl.
Qed.

End EntryHistory.

Lemma absorb_lines_identity (st : stream) (ls : list string) (d : proc)
  (n : bool) :
  let d' := fst (absorb_lines st ls d n) in
  command d' = command d /\ cid d' = cid d /\ start_time d' = start_time d.
Proof.
  revert d n. induction ls as [|l r IH]; intros d n; simpl; auto.
  destruct (String.eqb l EmptyString); [apply IH|].
  destruct st; [destruct (looks_like_prompt l)|];
    match goal with |- context [absorb_lines ?s ?r ?x ?b] =>
      destruct (IH x b) as (A & B & C) end; simpl in *; auto.
Qed.

Lemma absorb_events_identity (evs : list (stream * string)) (d : proc)
  (n : bool) :
  let d' := fst (absorb_events evs d n) in
  command d' = command d /\ cid d' = cid d /\ start_time d' = start_time d.
Proof.
  revert d n. induction evs as [|[st chunk] r IH]; intros d n; simpl; auto.
  destruct (absorb_lines st (Py.splitlines chunk) d n) as [d1 n1] eqn:E.
  destruct (IH d1 n1) as (A & B & C).
  destruct (absorb_lines_identity st (Py.splitlines chunk) d n) as (A1 & B1 & C1).
  rewrite E in A1, B1, C1. simpl in *. repeat split; congruence.
Qed.

Lemma drain_entry_continues (obs : drain_obs) (d : proc) :
  continues d (fst (drain_entry obs d)).
Proof.
  unfold drain_entry.
  set (d1 := match poll obs with Some s => set_exited s d | None => d end).
  assert (H1 : command d1 = command d /\ cid d1 = cid d
               /\ start_time d1 = start_time d
               /\ (completed d = true -> completed d1 = true)
               /\ completion_time d1 = completion_time d)
    by (unfold d1; destruct (poll obs); simpl; auto).
  destruct H1 as (A1 & B1 & C1 & D1 & E1).
  destruct (absorb_events (events obs) d1 false) as [d2 n2] eqn:E.
  destruct (absorb_events_rest (events obs) d1 false) as (A & B & _).
  destruct (absorb_events_identity (events obs) d1 false) as (A' & B' & C').
  rewrite E in A, B, A', B', C'. simpl in A, B, A', B', C'.
  unfold continues.
  destruct (queue_error obs); simpl; repeat split; try congruence;
    intros X; rewrite B; auto.
Qed.

Lemma continues_refl (d : proc) : continues d d.
Proof. unfold continues. auto. Qed.

Lemma continues_trans (a b c : proc) :
  continues a b -> continues b c -> continues a c.
Proof.
  unfold continues, no_completion_time.
  intros (A1 & B1 & C1 & D1 & E1) (A2 & B2 & C2 & D2 & E2).
  repeat split; try congruence; auto.
  intros X. rewrite E2; auto. rewrite E1; auto.
Qed.

(** X2.  An operation that keeps an entry under its pid leaves its command,
    cid and start time as they were; an exit it had recorded stays
    recorded, and a completion time it had recorded stays the same. *)
Theorem kept_entry_continues (o : op) (t : table) (pid : Z) (d d' : proc) :
  unique_keys t -> keeps_entry o pid ->
  lookup pid t = Some d -> lookup pid (run_op o t) = Some d' ->
  continues d d'.
Proof.
  apply (run_op_related continues).
  - apply continues_refl.
  - apply continues_trans.
  - intros obs d0. apply drain_entry_continues.
  - intros b d0. unfold continues. simpl. auto.
  - intros now d0 NC. unfold continues. simpl. repeat split; auto.
    congruence.
Qed.

(** A refresh that sees the child exited records the exit and the time, and
    the command, the cid and the start time stay. *)
Lemma kept_entry_after_exit :
  let d := mkProc "make" "build" 5 ["[STDOUT] ok"] false false None None in
  let f := fun _ : Z =>
             mkProcObs (mkObs (Some 0%Z) [] None) (Some 0%Z) 100 in
  let d' := mkProc "make" "build" 5 ["[STDOUT] ok"] false true (Some 0%Z)
                   (Some 100%Q) in
  lookup 7%Z (run_op (OpRefresh f 100) [(7%Z, d)]) = Some d'
  /\ continues d d'.
Proof.
  intros d f d'. split; [reflexivity|].
  apply (kept_entry_continues (OpRefresh f 100) [(7%Z, d)] 7%Z d d').
  - repeat constructor. simpl. tauto.
  - exact I.
  - reflexivity.
  - reflexivity.
Defined.

(** *** What a drain reports *)

Lemma absorb_lines_new (st : stream) (ls : list string) (d : proc) (n : bool) :
  snd (absorb_lines st ls d n)
  = n || existsb (fun l => negb (String.eqb l EmptyString)) ls.
Proof.
  revert d n. induction ls as [|l r IH]; intros d n; simpl.
  - now rewrite orb_false_r.
  - destruct (String.eqb l EmptyString); simpl; rewrite IH; auto.
    now rewrite orb_true_r.
Qed.

Lemma absorb_events_new (evs : list (stream * string)) (d : proc) (n : bool) :
  snd (absorb_events evs d n)
  = n || existsb (fun ev =>
                    existsb (fun l => negb (String.eqb l EmptyString))
                            (Py.splitlines (snd ev))) evs.
Proof.
  revert d n. induction evs as [|[st chunk] r IH]; intros d n; simpl.
  - now rewrite orb_false_r.
  - destruct (absorb_lines st (Py.splitlines chunk) d n) as [d1 n1] eqn:E.
    rewrite IH.
    replace n1 with (snd (absorb_lines st (Py.splitlines chunk) d n))
      by now rewrite E.
    rewrite absorb_lines_new. now rewrite orb_assoc.
Qed.

Lemma drain_entry_new (obs : drain_obs) (d : proc) :
  snd (drain_entry obs d) = brings_output obs.
Proof.
  unfold drain_entry, brings_output.
  set (d1 := match poll obs with Some s => set_exited s d | None => d end).
  destruct (absorb_events (events obs) d1 false) as [d2 n2] eqn:E.
  simpl. replace n2 with (snd (absorb_events (events obs) d1 false))
    by now rewrite E.
  now rewrite absorb_events_new.
Qed.

(** X3.  A drain answers true exactly when the pid is tracked and the queue
    held a line that is not empty; an exit of the child or an error while
    reading is not new output.  For a pid that is not tracked it changes
    nothing. *)
Theorem drain_reports_new_output (pid : Z) (obs : drain_obs) (t : table) :
  (snd (update_specific_process_output pid obs t) = true
   <-> lookup pid t <> None /\ brings_output obs = true)
  /\ (lookup pid t = None ->
      update_specific_process_output pid obs t = (t, false))
  /\ map fst (fst (update_specific_process_output pid obs t)) = map fst t.
Proof.
  split; [|split].
  - unfold update_specific_process_output.
    destruct (lookup pid t) as [d|] eqn:L.
    + pose proof (drain_entry_new obs d) as N.
      destruct (drain_entry obs d) as [d' n]. simpl in *. subst n.
      split; [intros H; split; [discriminate|exact H]|tauto].
    + simpl. split; [discriminate|]. intros [H _]. now elim H.
  - intros L. unfold update_specific_process_output. now rewrite L.
  - apply update_keys.
Qed.

(** A drain that sees the exit and a blank chunk answers false; one that
    sees a line answers true; neither does anything for an unknown pid. *)
Lemma drain_reports_examples :
  let d := mkProc "make" "build" 5 [] false false None None in
  let blank := mkObs (Some 0%Z) [(Stdout, nl)] (Some "closed") in
  let line := mkObs None [(Stderr, "warning")] None in
  snd (update_specific_process_output 7 blank [(7%Z, d)]) = false
  /\ snd (update_specific_process_output 7 line [(7%Z, d)]) = true
  /\ update_specific_process_output 8 line [(7%Z, d)] = ([(7%Z, d)], false).
Proof.
  intros d blank line. split; [reflexivity|]. split; [reflexivity|].
  apply (proj1 (proj2 (drain_reports_new_output 8 line [(7%Z, d)]))).
  reflexivity.
Defined.

(** *** The entry an identifier resolves to *)

(** X4.  The entry that [find_process_by_pid_or_cid] returns is the one
    stored under the pid it returns.  A tracked pid resolves to its own entry
    when it is given as the text [str] prints for it, whatever the cids in
    the table are, and when it is given as an integer other than zero. *)
Theorem resolved_entry_is_tracked :
  (forall (i : ident) (t : table) (p : Z) (d : proc),
      unique_keys t ->
      find_process_by_pid_or_cid i t = Some (p, d) -> lookup p t = Some d)
  /\ (forall (pid : Z) (t : table) (d : proc),
        lookup pid t = Some d ->
        find_process_by_pid_or_cid (IdStr (Py.str_of_int pid)) t
        = Some (pid, d)
        /\ (pid <> 0%Z ->
            find_process_by_pid_or_cid (IdInt pid) t = Some (pid, d))).
Proof.
  split.
  - intros i t p d U F. apply find_process_In in F. now apply In_lookup.
  - intros pid t d L. split.
    + unfold find_process_by_pid_or_cid, ident_falsy, ident_int.
      pose proof (int_of_str_of_int pid) as RT.
      destruct (Py.str_of_int pid) as [|c r] eqn:S; [discriminate|].
      cbn [String.eqb]. rewrite RT, L. reflexivity.
    + intros N. unfold find_process_by_pid_or_cid, ident_falsy, ident_int.
      apply Z.eqb_neq in N. rewrite N, L. reflexivity.
Qed.

(** The pid 4021 given as text resolves to its entry although the entry
    before it carries the cid 4021. *)
Lemma resolved_entry_pid_before_cid :
  let a := mkProc "npm start" "4021" 0 [] false false None None in
  let b := mkProc "make" "build" 0 [] false false None None in
  let t := [(17%Z, a); (4021%Z, b)] in
  find_process_by_pid_or_cid (IdStr "4021") t = Some (4021%Z, b)
  /\ lookup 4021%Z t = Some b.
Proof.
  intros a b t. split; [reflexivity|].
  apply (proj1 resolved_entry_is_tracked (IdStr "4021") t 4021%Z b).
  - repeat constructor; simpl; intuition discriminate.
  - reflexivity.
Defined.

(** *** What a kill and an input leave of the table *)

(** X5.  A kill deletes the entry it resolves to when the child is seen to
    exit, and nothing else; when the identifier resolves to no entry, the
    child outlives both signals or a call raises, the table stays as it
    was. *)
Theorem kill_deletes_only_its_target (i : ident) (obs : kill_obs)
  (t : table) :
  unique_keys t ->
  let t' := run_op (OpKill i obs) t in
  match find_process_by_pid_or_cid i t, obs with
  | Some (p, _), Exited _ =>
      lookup p t' = None /\ forall q, q <> p -> lookup q t' = lookup q t
  | _, _ => t' = t
  end.
Proof.
  intros U. cbn [run_op]. unfold handle_kill_process.
  destruct (find_process_by_pid_or_cid i t) as [[p pd]|]; [|reflexivity].
  destruct obs; cbn [snd]; auto.
  split.
  - now apply lookup_remove_same.
  - intros q N. apply lookup_remove_other. congruence.
Qed.

(** Of two children the killed one leaves the table; one that survives the
    signals stays in it. *)
Lemma kill_deletes_one_of_two :
  let a := mkProc "npm start" "web" 0 [] false false None None in
  let b := mkProc "make" "build" 0 [] false false None None in
  let t := [(17%Z, a); (18%Z, b)] in
  run_op (OpKill (IdStr "web") (Exited None)) t = [(18%Z, b)]
  /\ run_op (OpKill (IdStr "web") Survived) t = t
  /\ lookup 17%Z (run_op (OpKill (IdStr "web") (Exited None)) t) = None.
Proof.
  intros a b t. split; [reflexivity|]. split; [reflexivity|].
  apply (kill_deletes_only_its_target (IdStr "web") (Exited None) t).
  repeat constructor; simpl; intuition discriminate.
Defined.

(** X6.  Sending input adds and deletes no entry and changes none but the
    one it writes to; when the input is missing, the child has exited, the
    write raises or no target is found, the table stays as it was. *)
Theorem send_input_touches_only_its_target (i : ident)
  (input_data : option string) (obs : send_obs) (t : table) :
  let t' := run_op (OpSendInput i input_data obs) t in
  map fst t' = map fst t
  /\ (forall q, (forall d, send_target i t <> Some (q, d)) ->
                lookup q t' = lookup q t)
  /\ (input_data = None \/ send_poll obs <> None \/ write_error obs <> None
      \/ send_target i t = None -> t' = t).
Proof.
  cbn [run_op].
  destruct (send_input_table i input_data obs t)
    as [E|(text & p & pd & -> & T & Po & Wr & E)]; rewrite E.
  - auto.
  - split; [|split].
    + rewrite update_keys. apply store_keys_present.
      apply send_target_In in T. change p with (fst (p, pd)). now apply in_map.
    + intros q N. assert (p <> q) by (intros ->; now apply (N pd)).
      rewrite update_lookup_other by auto. now apply lookup_store_other.
    + intros [X|[X|[X|X]]]; congruence.
Qed.

(** An input for the child with the cid web leaves the other entry alone;
    an input for a child that has exited changes nothing. *)
Lemma send_input_leaves_the_other_entry :
  let a := mkProc "npm start" "web" 0 [] true false None None in
  let b := mkProc "make" "build" 0 [] true false None None in
  let t := [(17%Z, a); (18%Z, b)] in
  let quiet := mkObs None [] None in
  let t' := run_op (OpSendInput (IdStr "web") (Some "y")
                      (mkSendObs None None quiet)) t in
  expecting_input (default a (lookup 17%Z t')) = false
  /\ lookup 18%Z t' = Some b
  /\ run_op (OpSendInput (IdStr "web") (Some "y")
               (mkSendObs (Some 0%Z) None quiet)) t = t.
Proof.
  intros a b t quiet t'. split; [reflexivity|]. split.
  - apply (proj1 (proj2 (send_input_touches_only_its_target (IdStr "web")
                           (Some "y") (mkSendObs None None quiet) t)) 18%Z).
    intros d. discriminate.
  - apply (proj2 (proj2 (send_input_touches_only_its_target (IdStr "web")
                           (Some "y") (mkSendObs (Some 0%Z) None quiet) t))).
    right. left. discriminate.
Defined.

(** *** The report of a refresh *)

Lemma report_loop_lines (f : Z -> proc_obs) (es : table) (t : table) :
  NoDup (map fst es) ->
  (forall e, In e es -> lookup (fst e) t = Some (snd e)) ->
  let r := report_loop f (map fst es) t in
  snd (fst (fst r)) = map (fun e => report_line_of f (fst e) (snd e)) es
  /\ snd r = existsb is_waiting (snd (fst (fst r))).
Proof.
  revert t. induction es as [|[pid d] es IH]; intros t ND L;
    cbn [map fst snd report_loop].
  - split; reflexivity.
  - inversion ND as [|? ? Hn ND']; subst.
    set (t1 := fst (update_specific_process_output pid (drain (f pid)) t)).
    assert (L0 : lookup pid t = Some d) by (apply (L (pid, d)); now left).
    pose proof (update_lookup_same pid (drain (f pid)) t d L0) as L1.
    fold t1 in L1. rewrite L1.
    assert (L' : forall e, In e es -> lookup (fst e) t1 = Some (snd e)).
    { intros e I. unfold t1. rewrite update_lookup_other.
      - apply L. now right.
      - intros X. apply Hn. rewrite X. now apply in_map. }
    destruct (IH t1 ND' L') as [A B].
    destruct (report_loop f (map fst es) t1) as [[[t2 ls] cp] w].
    cbn [fst snd] in *. subst ls. split.
    + reflexivity.
    + cbn [existsb]. unfold is_waiting at 1. cbn [r_state].
      rewrite <- B.
      destruct (status (f pid)); [reflexivity|].
      now destruct (expecting_input (fst (drain_entry (drain (f pid)) d))).
Qed.

(** X7.  The report of a refresh has one line for every tracked process, in
    the order of the table, made from the entry as the drain of this pass
    leaves it; the hint about waiting input is given exactly when some line
    says that its process waits for input. *)
Theorem report_lists_every_tracked_process (f : Z -> proc_obs) (now : Q)
  (t : table) :
  unique_keys t ->
  let rep := fst (update_and_get_running_processes_info f now t) in
  lines rep = map (fun e => report_line_of f (fst e) (snd e)) t
  /\ hint_input_waiting rep = existsb is_waiting (lines rep).
Proof.
  intros U.
  assert (L : forall e, In e t -> lookup (fst e) t = Some (snd e)).
  { intros [p d] I. now apply In_lookup. }
  destruct (report_loop_lines f t t U L) as [A B].
  unfold update_and_get_running_processes_info.
  destruct t as [|e r]; [split; reflexivity|].
  destruct (report_loop f (map fst (e :: r)) (e :: r)) as [[[t1 ls] cp] w].
  cbn [fst snd lines hint_input_waiting] in *. now split.
Qed.

(** A report of two processes: the first has printed a prompt in this pass,
    the second has exited. *)
Lemma report_of_two_processes :
  let a := mkProc "npm init" "web" 10 [] false false None None in
  let b := mkProc "make" "build" 20 ["[STDOUT] ok"] false false None None in
  let f := fun pid : Z =>
             if (pid =? 17)%Z
             then mkProcObs (mkObs None [(Stdout, "name? ")] None) None 30
             else mkProcObs (mkObs (Some 2%Z) [] None) (Some 2%Z) 30 in
  let rep := fst (update_and_get_running_processes_info f 30
                    [(17%Z, a); (18%Z, b)]) in
  lines rep
  = [mkLine 17 "web" 20 WaitingForInput "npm init" ["[STDOUT] name? "];
     mkLine 18 "build" 10 (Completed 2) "make" ["[STDOUT] ok"]]
  /\ hint_input_waiting rep = true.
Proof.
  intros a b f rep.
  assert (U : unique_keys [(17%Z, a); (18%Z, b)])
    by (repeat constructor; simpl; intuition discriminate).
  destruct (report_lists_every_tracked_process f 30 [(17%Z, a); (18%Z, b)] U)
    as [A B].
  fold rep in A, B. split.
  - rewrite A. reflexivity.
  - rewrite B, A. reflexivity.
Defined.

End SupervisorMore.

(* ================================================================== *)
(** ** What [handle_run_command] leaves behind *)

Section RunCommandMore.
Import Supervisor Tracking Executor.

Variable world : Type.
Variable handle_change_directory : Json.dict -> world -> string * world.


End RunCommandMore.


(* ================================================================== *)
(** ** Further properties of the normaliser *)

Section NormalizerMore.
Import Json Normalizer Aliases.

(** *** The table of aliases *)

Lemma assoc_In {A : Type} (k : string) (l : list (string * A)) (v : A) :
  assoc k l = Some v -> In (k, v) l.
Proof.
  induction l as [|[k' v'] r IH]; simpl; [discriminate|].
  destruct (String.eqb k' k) eqn:E.
  - apply String.eqb_eq in E. intros [= ->]. left. now subst.
  - intros H. right. auto.
Qed.

Lemma alias_targets (a c : string) :
  assoc a action_map = Some c ->
  In c registered_actions /\ assoc c action_map = None
  /\ assoc c parameter_mappings <> None.
Proof.
  intros H. apply assoc_In in H. unfold action_map in H.
  repeat (destruct H as [H|H];
          [injection H as _ <-; split; [vm_compute; tauto|];
           split; [reflexivity|discriminate]|]).
  destruct H.
Qed.

Lemma canonical_not_alias (a : string) :
  assoc (canonical a) action_map = None.
Proof.
  unfold canonical. destruct (assoc a action_map) as [c|] eqn:E; auto.
  now apply alias_targets in E.
Qed.

(** X9.  Every alias of the normaliser stands for an action that has a
    handler; resolving a name twice gives what resolving it once gives;
    and every action that has a handler is its own canonical name and has
    a table of parameter synonyms. *)
Theorem aliases_lead_to_registered_actions :
  (forall a c, assoc a action_map = Some c -> In c registered_actions)
  /\ (forall a, canonical (canonical a) = canonical a)
  /\ (forall n, In n registered_actions ->
                canonical n = n /\ assoc n parameter_mappings <> None).
Proof.
  split; [|split].
  - intros a c H. now apply alias_targets in H.
  - intros a. unfold canonical at 1. now rewrite canonical_not_alias.
  - intros n H. unfold registered_actions in H.
    repeat (destruct H as [<-|H]; [split; [reflexivity|discriminate]|]).
    destruct H.
Qed.

(** The alias mkdir stands for create_folder, which has a handler. *)
Lemma alias_mkdir_is_registered :
  assoc "mkdir" action_map = Some "create_folder"
  /\ In "create_folder" registered_actions.
Proof.
  split; [reflexivity|].
  apply (proj1 aliases_lead_to_registered_actions "mkdir" "create_folder").
  reflexivity.
Defined.

(** *** The loops over the synonyms of the parameters *)

Lemma mem_set_same (k : string) (v : json) (d : dict) :
  mem k (set k v d) = true.
Proof. unfold mem. now rewrite get_set_same. Qed.

Lemma mem_set_other (k k' : string) (v : json) (d : dict) :
  k <> k' -> mem k' (set k v d) = mem k' d.
Proof. intros N. unfold mem. now rewrite get_set_other. Qed.

Lemma set_set_same (k : string) (v : json) (d : dict) :
  set k v (set k v d) = set k v d.
Proof.
  induction d as [|[k' v'] r IH]; simpl.
  - now rewrite String.eqb_refl.
  - destruct (String.eqb k' k) eqn:E; simpl; rewrite E; auto.
    now rewrite IH.
Qed.

Lemma copy_variant_present (c : string) (args : dict) (v : string) :
  mem c args = true -> copy_variant c args v = args.
Proof.
  intros M. unfold copy_variant. rewrite M.
  destruct (get v args); auto. now rewrite andb_false_r.
Qed.

Lemma copy_loop_present (c : string) (vs : list string) (args : dict) :
  mem c args = true -> fold_left (copy_variant c) vs args = args.
Proof.
  intros M. induction vs as [|x r IH]; simpl; auto.
  now rewrite copy_variant_present.
Qed.

Lemma copy_loop_absent (c : string) (vs : list string) (args : dict) :
  mem c args = false ->
  fold_left (copy_variant c) vs args
  = match first_present c vs args with
    | Some v => set c v args
    | None => args
    end.
Proof.
  intros M. unfold first_present.
  induction vs as [|x r IH]; cbn [fold_left find]; auto.
  unfold copy_variant at 2. unfold mem at 2. rewrite M.
  destruct (get x args) as [v|] eqn:G; cbn [andb negb].
  - rewrite andb_true_r. destruct (String.eqb x c) eqn:E; cbn [negb].
    + exact IH.
    + rewrite G. apply copy_loop_present. apply mem_set_same.
  - exact IH.
Qed.

Lemma copy_loop_cases (c : string) (vs : list string) (args : dict) :
  fold_left (copy_variant c) vs args = args
  \/ (mem c args = false
      /\ exists v, fold_left (copy_variant c) vs args = set c v args).
Proof.
  destruct (mem c args) eqn:M.
  - left. now apply copy_loop_present.
  - rewrite copy_loop_absent by auto.
    destruct (first_present c vs args) as [v|]; [|now left].
    right. split; auto. now exists v.
Qed.

Lemma find_ext {A : Type} (f g : A -> bool) (l : list A) :
  (forall x, In x l -> f x = g x) -> find f l = find g l.
Proof.
  induction l as [|x r IH]; intros H; simpl; auto.
  rewrite <- (H x) by now left.
  destruct (f x); auto. apply IH. intros y I. apply H. now right.
Qed.

Lemma first_present_set_other (c k : string) (v : json) (vs : list string)
  (args : dict) :
  k = c \/ ~ In k vs ->
  first_present c vs (set k v args) = first_present c vs args.
Proof.
  intros N. unfold first_present.
  assert (F : forall x, In x vs ->
                mem x (set k v args) && negb (String.eqb x c)
                = mem x args && negb (String.eqb x c)).
  { intros x I. destruct (String.eqb x c) eqn:E; cbn [negb].
    - now rewrite !andb_false_r.
    - rewrite mem_set_other; auto. intros ->.
      destruct N as [->|N]; [|contradiction].
      now rewrite String.eqb_refl in E. }
  rewrite (find_ext _ _ vs F).
  destruct (find (fun x => mem x args && negb (String.eqb x c)) vs)
    as [x|] eqn:Fi; auto.
  apply find_some in Fi. destruct Fi as [I P].
  apply get_set_other. intros ->.
  destruct N as [->|N]; [|contradiction].
  rewrite String.eqb_refl in P. now rewrite andb_false_r in P.
Qed.

Lemma distinct_NoDup (l : list string) : distinct l = true -> NoDup l.
Proof.
  induction l as [|x r IH]; simpl; intros H; constructor.
  - apply andb_prop in H. destruct H as [H _]. intros I.
    assert (E : existsb (String.eqb x) r = true).
    { apply existsb_exists. exists x. split; auto. apply String.eqb_refl. }
    now rewrite E in H.
  - apply IH. now apply andb_prop in H.
Qed.

Lemma separate_apart (pm : list (string * list string)) :
  separate pm = true -> apart pm.
Proof.
  unfold separate, apart. intros H. apply andb_prop in H.
  destruct H as [H D]. split.
  - intros p q Ip Iq. rewrite forallb_forall in H.
    specialize (H p Ip). rewrite forallb_forall in H. specialize (H q Iq).
    apply orb_prop in H. destruct H as [H|H].
    + left. now apply String.eqb_eq.
    + right. intros I. apply negb_true_iff in H.
      assert (E : existsb (String.eqb (fst q)) (snd p) = true).
      { apply existsb_exists. exists (fst q). split; auto.
        apply String.eqb_refl. }
      congruence.
  - now apply distinct_NoDup.
Qed.

Lemma apart_tail (p : string * list string)
  (pm : list (string * list string)) :
  apart (p :: pm) -> apart pm.
Proof.
  intros [H D]. split.
  - intros a b Ia Ib. apply H; now right.
  - now inversion D.
Qed.

Lemma normalize_params_other (k : string)
  (pm : list (string * list string)) (args : dict) :
  ~ In k (map fst pm) -> get k (normalize_params pm args) = get k args.
Proof.
  unfold normalize_params. revert args.
  induction pm as [|[c vs] r IH]; intros args N; cbn [fold_left]; auto.
  rewrite IH by (intros I; apply N; now right).
  destruct (copy_loop_cases c vs args) as [->|(_ & v & ->)]; auto.
  apply get_set_other. intros ->. apply N. now left.
Qed.

Lemma normalize_params_cons (c : string) (vs : list string)
  (pm : list (string * list string)) (args : dict) :
  normalize_params ((c, vs) :: pm) args
  = normalize_params pm (fold_left (copy_variant c) vs args).
Proof. reflexivity. Qed.

(** The value the loops give a canonical parameter. *)
Lemma normalize_params_value (pm : list (string * list string))
  (args : dict) (c : string) (vs : list string) :
  apart pm -> In (c, vs) pm ->
  get c (normalize_params pm args)
  = match get c args with
    | Some v => Some v
    | None => first_present c vs args
    end.
Proof.
  revert args. induction pm as [|[c0 vs0] r IH]; intros args Ap I;
    [destruct I|].
  rewrite normalize_params_cons.
  pose proof (apart_tail _ _ Ap) as Ap'.
  destruct Ap as [Sep ND]. inversion ND as [|? ? Hn ND']; subst.
  destruct I as [E|I].
  - injection E as -> ->.
    rewrite normalize_params_other by exact Hn.
    destruct (get c args) as [v|] eqn:G.
    + rewrite copy_loop_present; auto. unfold mem. now rewrite G.
    + rewrite copy_loop_absent by (unfold mem; now rewrite G).
      destruct (first_present c vs args) as [v|]; auto.
      apply get_set_same.
  - rewrite (IH _ Ap' I).
    assert (N : c0 <> c).
    { intros ->. apply Hn. change c with (fst (c, vs)). now apply in_map. }
    assert (V : ~ In c0 vs).
    { destruct (Sep (c, vs) (c0, vs0) (or_intror I) (or_introl eq_refl))
        as [X|X]; simpl in X; [congruence|exact X]. }
    destruct (copy_loop_cases c0 vs0 args) as [->|(_ & v & ->)]; auto.
    rewrite get_set_other by auto.
    rewrite first_present_set_other; auto.
Qed.

Lemma normalize_params_fixed (pm : list (string * list string))
  (args : dict) :
  (forall c vs, In (c, vs) pm ->
                mem c args = true \/ first_present c vs args = None) ->
  normalize_params pm args = args.
Proof.
  induction pm as [|[c vs] r IH]; intros H; [reflexivity|].
  rewrite normalize_params_cons.
  assert (E : fold_left (copy_variant c) vs args = args).
  { destruct (H c vs (or_introl eq_refl)) as [M|F].
    - now apply copy_loop_present.
    - destruct (mem c args) eqn:M; [now apply copy_loop_present|].
      rewrite copy_loop_absent by auto. now rewrite F. }
  rewrite E. apply IH. intros c' vs' I. apply H. now right.
Qed.

(** What the loops add is a canonical key that was missing. *)
Lemma normalize_params_keys (pm : list (string * list string))
  (args : dict) (k : string) :
  get k (normalize_params pm args) = get k args
  \/ (In k (map fst pm) /\ get k args = None).
Proof.
  revert args. induction pm as [|[c vs] r IH]; intros args; [now left|].
  rewrite normalize_params_cons.
  destruct (IH (fold_left (copy_variant c) vs args)) as [E|[I E]].
  - rewrite E.
    destruct (copy_loop_cases c vs args) as [->|(M & v & ->)]; [now left|].
    destruct (string_dec c k) as [->|N].
    + right. split; [now left|]. unfold mem in M.
      now destruct (get k args).
    + left. now apply get_set_other.
  - right. split; [now right|].
    destruct (copy_loop_cases c vs args) as [X|(M & v & X)];
      rewrite X in E; auto.
    destruct (string_dec c k) as [->|N].
    + now rewrite get_set_same in E.
    + now rewrite get_set_other in E.
Qed.

Lemma first_present_ext (c : string) (vs : list string) (a b : dict) :
  (forall v, In v vs -> v <> c -> get v a = get v b) ->
  first_present c vs a = first_present c vs b.
Proof.
  intros H. unfold first_present.
  assert (F : forall x, In x vs ->
                mem x a && negb (String.eqb x c)
                = mem x b && negb (String.eqb x c)).
  { intros x I. destruct (String.eqb x c) eqn:E; cbn [negb].
    - now rewrite !andb_false_r.
    - unfold mem. rewrite (H x I); auto. intros ->.
      now rewrite String.eqb_refl in E. }
  rewrite (find_ext _ _ vs F).
  destruct (find (fun x => mem x b && negb (String.eqb x c)) vs)
    as [x|] eqn:Fi; auto.
  apply find_some in Fi. destruct Fi as [I P]. apply H; auto.
  intros ->. rewrite String.eqb_refl in P. now rewrite andb_false_r in P.
Qed.

(** After the loops every canonical parameter is present or has no
    synonym in the arguments. *)
Lemma normalize_params_saturated (pm : list (string * list string))
  (args : dict) (c : string) (vs : list string) :
  apart pm -> In (c, vs) pm ->
  mem c (normalize_params pm args) = true
  \/ first_present c vs (normalize_params pm args) = None.
Proof.
  intros Ap I. pose proof (normalize_params_value pm args c vs Ap I) as V.
  destruct (get c args) as [v|] eqn:G.
  - left. unfold mem. now rewrite V.
  - destruct (first_present c vs args) as [v|] eqn:F.
    + left. unfold mem. now rewrite V.
    + right. rewrite <- F. apply first_present_ext.
      intros x Ix Nx.
      destruct (normalize_params_keys pm args x) as [E|[Ik _]]; auto.
      exfalso. apply in_map_iff in Ik. destruct Ik as ([c' vs'] & <- & I').
      destruct Ap as [Sep _].
      destruct (Sep (c, vs) (c', vs') I I') as [X|X]; simpl in X; auto.
Qed.

Lemma tables_separate (name : string) (pm : list (string * list string)) :
  assoc name parameter_mappings = Some pm ->
  apart pm
  /\ ~ In "interactive" (map fst pm)
  /\ forall c vs, In (c, vs) pm -> ~ In "interactive" vs.
Proof.
  intros H. apply assoc_In in H. unfold parameter_mappings in H.
  assert (G : separate pm = true
              /\ existsb (String.eqb "interactive") (map fst pm) = false
              /\ forallb (fun p => negb (existsb (String.eqb "interactive")
                                                 (snd p))) pm = true).
  { repeat (destruct H as [H|H];
            [injection H as _ <-; repeat split; vm_compute; reflexivity|]).
    destruct H. }
  destruct G as (S & K & F). split; [now apply separate_apart|]. split.
  - intros I.
    assert (E : existsb (String.eqb "interactive") (map fst pm) = true).
    { apply existsb_exists. exists "interactive". split; auto. }
    congruence.
  - intros c vs I X. rewrite forallb_forall in F. specialize (F _ I).
    apply negb_true_iff in F.
    assert (E : existsb (String.eqb "interactive") (snd (c, vs)) = true).
    { apply existsb_exists. exists "interactive". split; auto. }
    congruence.
Qed.

(** *** The result of a normalisation *)

Lemma rewrite_cd_cases (a : string) (obj : dict) :
  rewrite_cd a obj = obj
  \/ (a = "run_command"
      /\ exists args cmd,
           get "args" obj = Some (JDict args)
           /\ get "command_string" args = Some (JStr cmd)
           /\ is_cd_command cmd = true
           /\ rewrite_cd a obj
              = set "args" (JDict [("path", JStr (cd_target cmd))])
                    (set "action" (JStr "change_directory") obj)).
Proof.
  unfold rewrite_cd. destruct (String.eqb a "run_command") eqn:E; [|now left].
  apply String.eqb_eq in E.
  destruct (get "args" obj) as [[| | | | | |args]|]; try now left.
  destruct (get "command_string" args) as [[| | | |cmd| |]|] eqn:C;
    try now left.
  destruct (is_cd_command cmd) eqn:Cd; [|now left].
  right. split; auto. exists args, cmd. auto.
Qed.

(** The steps of [normalize_action_object] after the cd rewrite. *)
Lemma normalize_after_rewrite (obj obj1 : dict) (a n1 : string) :
  get "action" obj = Some (JStr a) ->
  rewrite_cd a obj = obj1 ->
  get "action" obj1 = Some (JStr n1) ->
  let name := match assoc a action_map with Some c => c | None => n1 end in
  exists base,
    normalize_action_object (JDict obj)
    = Some (JDict (set "args"
                     (JDict (with_interactive name
                               (with_canonical_params name (args_of obj1))))
                     base))
    /\ get "action" base = Some (JStr name)
    /\ get "args" base = Some (JDict (args_of obj1))
    /\ forall k, k <> "action" -> k <> "args" -> get k base = get k obj1.
Proof.
  intros A R A1 name. unfold normalize_action_object. rewrite A, R.
  set (obj2 := match assoc a action_map with
               | Some c => set "action" (JStr c) obj1
               | None => obj1
               end).
  assert (N2 : action_name obj2 = name /\ get "action" obj2 = Some (JStr name)).
  { unfold obj2, name, action_name.
    destruct (assoc a action_map).
    - now rewrite get_set_same.
    - now rewrite A1. }
  assert (G2 : forall k, k <> "action" -> get k obj2 = get k obj1).
  { intros k N. unfold obj2. destruct (assoc a action_map); auto.
    apply get_set_other. congruence. }
  set (obj3 := match get "args" obj2 with
               | Some (JDict _) => obj2
               | _ => set "args" (JDict []) obj2
               end).
  assert (N3 : action_name obj3 = name /\ get "action" obj3 = Some (JStr name)).
  { unfold obj3. destruct (get "args" obj2) as [[]|]; auto;
      unfold action_name; rewrite get_set_other by discriminate;
      destruct N2 as [_ N2]; now rewrite N2. }
  assert (A3 : args_of obj3 = args_of obj1
               /\ get "args" obj3 = Some (JDict (args_of obj1))).
  { unfold obj3, args_of. rewrite <- (G2 "args") by discriminate.
    destruct (get "args" obj2) as [[]|] eqn:E;
      rewrite ?E, ?get_set_same; auto. }
  assert (G3 : forall k, k <> "action" -> k <> "args" ->
                         get k obj3 = get k obj1).
  { intros k Na Nr. rewrite <- G2 by auto. unfold obj3.
    destruct (get "args" obj2) as [[]|]; auto; apply get_set_other;
      congruence. }
  destruct N3 as [N3 N3']. destruct A3 as [A3 A3'].
  exists obj3. rewrite N3, A3. split; [reflexivity|]. auto.
Qed.

Lemma normalize_shape (obj : dict) (a : string) :
  get "action" obj = Some (JStr a) ->
  exists name args0 base,
    normalize_action_object (JDict obj)
    = Some (JDict (set "args"
                     (JDict (with_interactive name
                               (with_canonical_params name args0)))
                     base))
    /\ get "action" base = Some (JStr name)
    /\ get "args" base = Some (JDict args0)
    /\ (forall k, k <> "action" -> k <> "args" -> get k base = get k obj)
    /\ assoc name action_map = None
    /\ (name = canonical a /\ args0 = args_of obj /\ rewrite_cd a obj = obj
        \/ a = "run_command" /\ name = "change_directory"
           /\ exists cmd,
                get "command_string" (args_of obj) = Some (JStr cmd)
                /\ is_cd_command cmd = true
                /\ args0 = [("path", JStr (cd_target cmd))]).
Proof.
  intros A.
  destruct (rewrite_cd_cases a obj) as [R|(-> & args & cmd & Ga & Gc & Cd & R)].
  - destruct (normalize_after_rewrite obj obj a a A R A)
      as (base & E & Ba & Br & Bk).
    exists (canonical a), (args_of obj), base.
    split; [exact E|]. split; [exact Ba|]. split; [exact Br|].
    split; [exact Bk|]. split; [apply canonical_not_alias|]. left. auto.
  - set (obj1 := set "args" (JDict [("path", JStr (cd_target cmd))])
                     (set "action" (JStr "change_directory") obj)) in *.
    assert (A1 : get "action" obj1 = Some (JStr "change_directory")).
    { unfold obj1. rewrite get_set_other by discriminate.
      apply get_set_same. }
    destruct (normalize_after_rewrite obj obj1 "run_command"
                "change_directory" A R A1) as (base & E & Ba & Br & Bk).
    change (assoc "run_command" action_map) with (@None string) in E, Ba.
    cbv iota in E, Ba.
    assert (AO : args_of obj1 = [("path", JStr (cd_target cmd))])
      by (unfold obj1, args_of; now rewrite get_set_same).
    rewrite AO in E, Br.
    exists "change_directory", [("path", JStr (cd_target cmd))], base.
    split; [exact E|]. split; [exact Ba|]. split; [exact Br|]. split.
    + intros k Na Nr. rewrite Bk by auto. unfold obj1.
      rewrite get_set_other by congruence. apply get_set_other. congruence.
    + split; [reflexivity|]. right. split; auto. split; auto.
      exists cmd. unfold args_of. rewrite Ga. auto.
Qed.

Lemma rewrite_cd_not_pending (obj : dict) (a : string) :
  get "action" obj = Some (JStr a) ->
  cd_pending (JDict obj) = false ->
  rewrite_cd a obj = obj.
Proof.
  intros A P.
  destruct (rewrite_cd_cases a obj) as [R|(-> & args & cmd & Ga & Gc & Cd & R)];
    auto.
  exfalso. unfold cd_pending, action_name, args_of in P.
  rewrite A, Ga, Gc, Cd in P. discriminate.
Qed.

Lemma normalize_some (item r : json) :
  normalize_action_object item = Some r ->
  exists obj a, item = JDict obj /\ get "action" obj = Some (JStr a).
Proof.
  intros H. destruct item as [| | | | | |obj]; try discriminate.
  unfold normalize_action_object in H.
  destruct (get "action" obj) as [[| | | |a| |]|] eqn:A; try discriminate.
  now exists obj, a.
Qed.

Lemma params_fixed (name : string) (args0 : dict) :
  let args2 := with_interactive name (with_canonical_params name args0) in
  with_canonical_params name args2 = args2
  /\ with_interactive name args2 = args2.
Proof.
  intros args2. split.
  - unfold args2, with_canonical_params.
    destruct (assoc name parameter_mappings) as [pm|] eqn:P; [|reflexivity].
    destruct (tables_separate name pm P) as (Ap & Ki & Vi).
    apply normalize_params_fixed. intros c vs I.
    pose proof (normalize_params_saturated pm args0 c vs Ap I) as S.
    unfold with_interactive.
    destruct (String.eqb name "run_command"
              && negb (mem "interactive" (normalize_params pm args0)));
      [|exact S].
    assert (N : "interactive" <> c).
    { intros <-. apply Ki. change "interactive" with (fst ("interactive", vs)).
      now apply in_map. }
    rewrite mem_set_other by exact N.
    rewrite first_present_set_other by (right; now apply (Vi c vs)).
    exact S.
  - unfold args2, with_interactive.
    destruct (String.eqb name "run_command") eqn:E; cbn [andb]; auto.
    destruct (mem "interactive" (with_canonical_params name args0)) eqn:M;
      cbn [negb].
    + now rewrite M.
    + now rewrite mem_set_same.
Qed.

(** X10.  For an action other than a [run_command] that holds a cd command,
    a canonical parameter that the arguments give keeps its value; one
    they do not give takes the value of the first of its synonyms, in the
    order of the table, that they give.  No other key of the arguments
    changes, except that [interactive] may be added. *)
Theorem first_synonym_wins (obj obj' : dict) (a c : string)
  (pm : list (string * list string)) (vs : list string) :
  get "action" obj = Some (JStr a) ->
  cd_pending (JDict obj) = false ->
  assoc (canonical a) parameter_mappings = Some pm ->
  In (c, vs) pm ->
  normalize_action_object (JDict obj) = Some (JDict obj') ->
  get c (args_of obj')
  = match get c (args_of obj) with
    | Some v => Some v
    | None => first_present c vs (args_of obj)
    end
  /\ forall k, ~ In k (map fst pm) -> k <> "interactive" ->
               get k (args_of obj') = get k (args_of obj).
Proof.
  intros A P T I H.
  pose proof (rewrite_cd_not_pending obj a A P) as R.
  destruct (normalize_after_rewrite obj obj a a A R A)
    as (base & E & _).
  fold (canonical a) in E. rewrite E in H. injection H as <-.
  assert (AO : forall x b, args_of (set "args" (JDict x) b) = x)
    by (intros x b; unfold args_of; now rewrite get_set_same).
  rewrite AO. unfold with_canonical_params. rewrite T.
  destruct (tables_separate _ pm T) as (Ap & Ki & Vi).
  assert (F : forall k, k <> "interactive" ->
                get k (with_interactive (canonical a)
                         (normalize_params pm (args_of obj)))
                = get k (normalize_params pm (args_of obj))).
  { intros k N. unfold with_interactive.
    destruct (String.eqb (canonical a) "run_command"
              && negb (mem "interactive" (normalize_params pm (args_of obj))));
      auto.
    apply get_set_other. congruence. }
  split.
  - rewrite F.
    + now apply normalize_params_value.
    + intros ->. apply Ki. change "interactive" with (fst ("interactive", vs)).
      now apply in_map.
  - intros k Nk Ni. rewrite F by exact Ni.
    now apply normalize_params_other.
Qed.

(** X11.  The normaliser answers [None] exactly for what is not a dict with
    a string under [action].  What it returns otherwise is a dict whose
    [action] is a string that is no alias and whose [args] is a dict; its
    other keys are those of the argument, with their values. *)
Theorem normalized_action_shape (item : json) :
  (normalize_action_object item = None <-> well_formed item = false)
  /\ (forall r, normalize_action_object item = Some r ->
        exists obj obj' name args,
          item = JDict obj /\ r = JDict obj'
          /\ get "action" obj' = Some (JStr name)
          /\ assoc name action_map = None
          /\ get "args" obj' = Some (JDict args)
          /\ forall k, k <> "action" -> k <> "args" ->
                       get k obj' = get k obj).
Proof.
  split.
  - split.
    + intros H. destruct (well_formed item) eqn:W; auto.
      destruct (normalize_well_formed item W) as (n & E). congruence.
    + apply normalize_ill_formed.
  - intros r H. destruct (normalize_some item r H) as (obj & a & -> & A).
    destruct (normalize_shape obj a A)
      as (name & args0 & base & E & Ba & Br & Bk & Al & _).
    rewrite E in H. injection H as <-.
    eexists obj, _, name, _. split; [reflexivity|]. split; [reflexivity|].
    split; [now rewrite get_set_other by discriminate|].
    split; [exact Al|]. split; [apply get_set_same|].
    intros k Na Nr. rewrite get_set_other by congruence. now apply Bk.
Qed.

(** X12.  A normalised [run_command] always carries [interactive]: the
    value the arguments gave, whatever it is, or true when they gave
    none. *)
Theorem run_command_interactive_default (obj obj' : dict) :
  normalize_action_object (JDict obj) = Some (JDict obj') ->
  action_name obj' = "run_command" ->
  get "interactive" (args_of obj')
  = Some match get "interactive" (args_of obj) with
         | Some v => v
         | None => JBool true
         end.
Proof.
  intros H N.
  destruct (normalize_some _ _ H) as (obj0 & a & X & A).
  injection X as <-.
  destruct (normalize_shape obj a A)
    as (name & args0 & base & E & Ba & Br & Bk & Al & C).
  rewrite E in H. injection H as <-.
  unfold action_name in N. rewrite get_set_other in N by discriminate.
  rewrite Ba in N. subst name.
  destruct C as [(_ & -> & _)|(_ & X & _)]; [|discriminate].
  assert (AO : forall x b, args_of (set "args" (JDict x) b) = x)
    by (intros x b; unfold args_of; now rewrite get_set_same).
  rewrite AO.
  assert (G : get "interactive"
                (with_canonical_params "run_command" (args_of obj))
              = get "interactive" (args_of obj)).
  { unfold with_canonical_params.
    destruct (assoc "run_command" parameter_mappings) as [pm|] eqn:P; auto.
    destruct (tables_separate _ pm P) as (_ & Ki & _).
    now apply normalize_params_other. }
  unfold with_interactive, mem. rewrite G.
  change (String.eqb "run_command" "run_command") with true. cbn [andb].
  destruct (get "interactive" (args_of obj)) as [v|] eqn:Gi; cbn [negb].
  - exact G.
  - apply get_set_same.
Qed.

(** X13.  A normalised action is a fixed point of the normaliser, unless it
    is a [run_command] that holds a cd command. *)
Theorem normalized_action_is_fixed_point (item r : json) :
  normalize_action_object item = Some r ->
  cd_pending r = false ->
  normalize_action_object r = Some r.
Proof.
  intros H P.
  destruct (normalize_some item r H) as (obj & a & -> & A).
  destruct (normalize_shape obj a A)
    as (name & args0 & base & E & Ba & Br & Bk & Al & _).
  rewrite E in H. injection H as <-.
  set (args2 := with_interactive name (with_canonical_params name args0)) in *.
  set (y := set "args" (JDict args2) base) in *.
  assert (Ay : get "action" y = Some (JStr name))
    by (unfold y; now rewrite get_set_other by discriminate).
  assert (Gy : get "args" y = Some (JDict args2))
    by (unfold y; apply get_set_same).
  pose proof (rewrite_cd_not_pending y name Ay P) as Ry.
  unfold normalize_action_object. cbv zeta. rewrite Ay, Ry, Al, Gy.
  unfold action_name, args_of. rewrite Ay, Gy.
  fold (with_canonical_params name args2).
  destruct (params_fixed name args0) as [F1 F2]. fold args2 in F1, F2.
  rewrite F1.
  change (if String.eqb name "run_command"
             && negb (mem "interactive" args2)
          then set "interactive" (JBool true) args2 else args2)
    with (with_interactive name args2).
  rewrite F2. unfold y. now rewrite set_set_same.
Qed.

End NormalizerMore.

Section NormalizerExamples.
Import Json.

(** The folder of a mkdir is taken from [dir], which the table lists before
    [folder]; both keys stay. *)
Lemma first_synonym_of_mkdir :
  let obj := [("action", JStr "mkdir");
              ("args", JDict [("folder", JStr "a"); ("dir", JStr "b")])] in
  let obj' := [("action", JStr "create_folder");
               ("args", JDict [("folder", JStr "a"); ("dir", JStr "b");
                               ("path", JStr "b")])] in
  Normalizer.normalize_action_object (JDict obj) = Some (JDict obj')
  /\ Json.get "path" (Normalizer.args_of obj') = Some (JStr "b")
  /\ Json.get "folder" (Normalizer.args_of obj') = Some (JStr "a").
Proof.
  intros obj obj'.
  assert (E : Normalizer.normalize_action_object (JDict obj)
              = Some (JDict obj')) by reflexivity.
  destruct (first_synonym_wins obj obj' "mkdir" "path"
              [("path", Normalizer.dir_variants)] Normalizer.dir_variants
              eq_refl eq_refl eq_refl (or_introl eq_refl) E) as [A B].
  split; [exact E|]. split.
  - exact A.
  - rewrite (B "folder"); [reflexivity| |discriminate].
    simpl. intuition discriminate.
Defined.

(** A write_file with a note beside the action: the name is resolved, the
    arguments become a dict and the note stays. *)
Lemma shape_of_a_normalized_write_file :
  let item := JDict [("note", JStr "first"); ("action", JStr "write_file");
                     ("args", JNull)] in
  exists obj obj' name args,
    item = JDict obj
    /\ JDict [("note", JStr "first"); ("action", JStr "create_file");
              ("args", JDict [])] = JDict obj'
    /\ Json.get "action" obj' = Some (JStr name)
    /\ Normalizer.assoc name Normalizer.action_map = None
    /\ Json.get "args" obj' = Some (JDict args)
    /\ forall k, k <> "action" -> k <> "args" ->
                 Json.get k obj' = Json.get k obj.
Proof.
  intros item.
  apply (proj2 (normalized_action_shape item)
           (JDict [("note", JStr "first"); ("action", JStr "create_file");
                   ("args", JDict [])])).
  reflexivity.
Defined.

(** An exec whose [interactive] is the text false keeps that text. *)
Lemma interactive_text_is_kept :
  let obj := [("action", JStr "exec");
              ("args", JDict [("cmd", JStr "ls");
                              ("interactive", JStr "false")])] in
  let obj' := [("action", JStr "run_command");
               ("args", JDict [("cmd", JStr "ls");
                               ("interactive", JStr "false");
                               ("command_string", JStr "ls")])] in
  Normalizer.normalize_action_object (JDict obj) = Some (JDict obj')
  /\ Json.get "interactive" (Normalizer.args_of obj') = Some (JStr "false").
Proof.
  intros obj obj'.
  assert (E : Normalizer.normalize_action_object (JDict obj)
              = Some (JDict obj')) by reflexivity.
  split; [exact E|].
  apply (run_command_interactive_default obj obj' E). reflexivity.
Defined.

(** A normalised rm is normalised to itself; a normalised exec of a cd
    command is not, it becomes a change of directory. *)
Lemma fixed_point_and_pending_cd :
  let rm := JDict [("action", JStr "rm");
                   ("args", JDict [("file", JStr "a.txt")])] in
  let rm' := JDict [("action", JStr "delete_file");
                    ("args", JDict [("file", JStr "a.txt");
                                    ("path", JStr "a.txt")])] in
  let cd := JDict [("action", JStr "run_command");
                   ("args", JDict [("cmd", JStr "cd src");
                                   ("command_string", JStr "cd src");
                                   ("interactive", JBool true)])] in
  Normalizer.normalize_action_object rm' = Some rm'
  /\ Normalizer.normalize_action_object
       (JDict [("action", JStr "exec");
               ("args", JDict [("cmd", JStr "cd src")])]) = Some cd
  /\ Aliases.cd_pending cd = true
  /\ Normalizer.normalize_action_object cd
     = Some (JDict [("action", JStr "change_directory");
                    ("args", JDict [("path", JStr "src")])]).
Proof.
  intros rm rm' cd. split; [|repeat split; reflexivity].
  apply (normalized_action_is_fixed_point rm rm'); reflexivity.
Defined.

End NormalizerExamples.

(* ================================================================== *)
(** ** Further properties of the extraction *)

Section ExtractorMore.
Import Json Normalizer Extractor Aliases.

Variable json_loads : string -> res json.

(** *** What the extraction hands to the loop of [main] *)











(** *** The repair of objects written side by side *)

Lemma space_is_no_brace (c : ascii) :
  Py.isspace c = true ->
  (nat_of_ascii c =? 125) = false /\ (nat_of_ascii c =? 123) = false.
Proof.
  destruct c as [[] [] [] [] [] [] [] []]; try discriminate;
    split; reflexivity.
Qed.

Lemma list_text_app (a b : list ascii) :
  string_of_list_ascii (a ++ b)
  = string_of_list_ascii a ++ string_of_list_ascii b.
Proof. induction a as [|x r IH]; simpl; auto. now rewrite IH. Qed.

Lemma all_space_app (a b : string) :
  Py.all_space (a ++ b) = Py.all_space a && Py.all_space b.
Proof.
  induction a as [|c r IH]; simpl; auto. rewrite IH. apply andb_assoc.
Qed.

Lemma append_nil_r_string (s : string) : s ++ EmptyString = s.
Proof. induction s as [|c r IH]; simpl; auto. now rewrite IH. Qed.

Lemma search_adjacent_cons (c : ascii) (r : string) :
  search_adjacent (String c r) = adjacent_head (String c r) || search_adjacent r.
Proof. reflexivity. Qed.

Lemma search_adjacent_space (ws t : string) :
  Py.all_space ws = true -> search_adjacent (ws ++ t) = search_adjacent t.
Proof.
  induction ws as [|c r IH]; intros H; [reflexivity|].
  simpl in H. apply andb_prop in H. destruct H as [Hc Hr].
  change (String c r ++ t) with (String c (r ++ t)).
  rewrite search_adjacent_cons, IH by exact Hr.
  unfold adjacent_head.
  destruct (space_is_no_brace c Hc) as [-> _]. reflexivity.
Qed.

Lemma adjacent_head_space (c : ascii) (ws t : string) :
  Py.all_space ws = true ->
  adjacent_head (String c (ws ++ t)) = adjacent_head (String c t).
Proof.
  intros H. unfold adjacent_head. now rewrite lstrip_all_space.
Qed.

Lemma adjacent_head_other (c : ascii) (r : string) :
  (nat_of_ascii c =? 125) = false -> adjacent_head (String c r) = false.
Proof. intros H. unfold adjacent_head. now rewrite H. Qed.

Lemma adjacent_head_next (c d : ascii) (r : string) :
  Py.isspace d = false ->
  adjacent_head (String c (String d r))
  = (nat_of_ascii c =? 125) && (nat_of_ascii d =? 123).
Proof.
  intros H. unfold adjacent_head, Py.lstrip. cbn [Py.lstrip_of].
  now rewrite H.
Qed.

(** After the substitution no closing brace is followed, across
    whitespace, by an opening one. *)
Lemma sub_adjacent_leaves_none (s : string) :
  forall ws : list ascii,
    search_adjacent (sub_adjacent None s) = false
    /\ (Py.all_space (string_of_list_ascii (rev ws)) = true ->
        search_adjacent (String "}" (sub_adjacent (Some ws) s)) = false).
Proof.
  induction s as [|c r IH]; intros ws.
  - split; [reflexivity|]. intros W. cbn [sub_adjacent].
    rewrite search_adjacent_cons.
    rewrite <- (append_nil_r_string (string_of_list_ascii (rev ws))).
    rewrite adjacent_head_space, search_adjacent_space by exact W.
    reflexivity.
  - cbn [sub_adjacent].
    destruct (nat_of_ascii c =? 125) eqn:B.
    + destruct (IH []) as [_ I0]. specialize (I0 eq_refl).
      assert (c = "}"%char) as ->.
      { apply Nat.eqb_eq in B. rewrite <- (ascii_nat_embedding c), B.
        reflexivity. }
      split; [exact I0|]. intros W.
      rewrite search_adjacent_cons.
      rewrite adjacent_head_space, search_adjacent_space by exact W.
      rewrite I0. rewrite adjacent_head_next by reflexivity. reflexivity.
    + destruct (IH []) as [IN _]. split.
      * rewrite search_adjacent_cons, IN.
        now rewrite adjacent_head_other.
      * intros W. destruct (Py.isspace c) eqn:Sp.
        -- destruct (IH (c :: ws)) as [_ I1]. apply I1.
           cbn [rev]. rewrite list_text_app, all_space_app, W.
           simpl. now rewrite Sp.
        -- destruct (nat_of_ascii c =? 123) eqn:O.
           ++ change ("," ++ String c (sub_adjacent None r))
                with (String "," (String c (sub_adjacent None r))).
              rewrite search_adjacent_cons.
              rewrite adjacent_head_next by reflexivity.
              rewrite search_adjacent_cons.
              rewrite (adjacent_head_other ","%char) by reflexivity.
              rewrite search_adjacent_cons, IN.
              now rewrite adjacent_head_other.
           ++ rewrite search_adjacent_cons.
              rewrite adjacent_head_space, search_adjacent_space by exact W.
              rewrite adjacent_head_next by exact Sp. rewrite O.
              rewrite search_adjacent_cons, IN.
              now rewrite adjacent_head_other.
Qed.

(** A text that has no such pair is left as it is. *)
Lemma sub_adjacent_identity (s : string) :
  forall ws : list ascii,
    (search_adjacent s = false -> sub_adjacent None s = s)
    /\ (Py.all_space (string_of_list_ascii (rev ws)) = true ->
        search_adjacent (String "}" (string_of_list_ascii (rev ws) ++ s))
        = false ->
        sub_adjacent (Some ws) s = string_of_list_ascii (rev ws) ++ s).
Proof.
  induction s as [|c r IH]; intros ws.
  - split; [reflexivity|]. intros W _. cbn [sub_adjacent].
    now rewrite append_nil_r_string.
  - cbn [sub_adjacent].
    destruct (nat_of_ascii c =? 125) eqn:B.
    + assert (c = "}"%char) as ->.
      { apply Nat.eqb_eq in B. rewrite <- (ascii_nat_embedding c), B.
        reflexivity. }
      destruct (IH []) as [_ I0]. specialize (I0 eq_refl).
      cbn [rev string_of_list_ascii append] in I0. split.
      * intros H. now rewrite (I0 H).
      * intros W H. rewrite search_adjacent_cons in H.
        apply orb_false_elim in H. destruct H as [_ H].
        rewrite search_adjacent_space in H by exact W.
        now rewrite (I0 H).
    + destruct (IH []) as [IN _]. split.
      * intros H. rewrite search_adjacent_cons in H.
        apply orb_false_elim in H. destruct H as [_ H].
        now rewrite (IN H).
      * intros W H. rewrite search_adjacent_cons in H.
        apply orb_false_elim in H. destruct H as [H1 H2].
        rewrite adjacent_head_space in H1 by exact W.
        rewrite search_adjacent_space in H2 by exact W.
        destruct (Py.isspace c) eqn:Sp.
        -- destruct (IH (c :: ws)) as [_ I1].
           cbn [rev] in I1. rewrite list_text_app in I1.
           cbn [string_of_list_ascii] in I1.
           rewrite append_assoc_string in I1. cbn [append] in I1.
           apply I1.
           ++ rewrite all_space_app, W. simpl. now rewrite Sp.
           ++ rewrite search_adjacent_cons.
              rewrite adjacent_head_space, search_adjacent_space by exact W.
              now rewrite H1, H2.
        -- rewrite adjacent_head_next in H1 by exact Sp. cbn [andb] in H1.
           change (nat_of_ascii "}" =? 125) with true in H1.
           cbn [andb] in H1. rewrite H1.
           rewrite search_adjacent_cons in H2.
           apply orb_false_elim in H2. destruct H2 as [_ H2].
           now rewrite (IN H2).
Qed.

Lemma find_adjacent (t : string) (i j : nat) :
  Py.find_at "}{" t i = Some j -> search_adjacent t = true.
Proof.
  revert i. induction t as [|c r IH]; intros i; cbn [Py.find_at].
  - discriminate.
  - destruct (String.prefix "}{" (String c r)) eqn:P.
    + intros _. rewrite search_adjacent_cons.
      destruct r as [|d r'].
      { cbn [String.prefix] in P. destruct (ascii_dec "}" c); discriminate. }
      cbn [String.prefix] in P.
      destruct (ascii_dec "}" c) as [<-|]; [|discriminate].
      destruct (ascii_dec "{" d) as [<-|]; [|discriminate].
      reflexivity.
    + intros H. rewrite search_adjacent_cons. rewrite (IH _ H).
      apply orb_true_r.
Qed.

Lemma lstrip_empty (r : string) :
  Py.lstrip r = EmptyString -> Py.all_space r = true.
Proof.
  unfold Py.lstrip. induction r as [|c r IH]; cbn [Py.lstrip_of Py.all_space];
    auto.
  destruct (Py.isspace c); [exact IH|discriminate].
Qed.

Lemma search_adjacent_closing (t : string) :
  search_adjacent (t ++ "]") = search_adjacent t.
Proof.
  induction t as [|c r IH]; [reflexivity|].
  change (String c r ++ "]") with (String c (r ++ "]")).
  rewrite !search_adjacent_cons, IH. f_equal.
  unfold adjacent_head. destruct (nat_of_ascii c =? 125); [|reflexivity].
  cbn [andb]. destruct (Py.lstrip r) as [|c2 r2] eqn:L.
  - apply lstrip_empty in L. now rewrite lstrip_all_space.
  - now rewrite (lstrip_app_head r "]" c2 r2 L).
Qed.

Lemma wrap_adjacent_clean (s : string) :
  search_adjacent (wrap_adjacent s) = false
  /\ Py.contains "}{" (wrap_adjacent s) = false.
Proof.
  assert (S : search_adjacent (wrap_adjacent s) = false).
  { unfold wrap_adjacent.
    change ("[" ++ sub_adjacent None s ++ "]")
      with (String "[" (sub_adjacent None s ++ "]")).
    rewrite search_adjacent_cons, search_adjacent_closing.
    now destruct (sub_adjacent_leaves_none s []) as [-> _]. }
  split; [exact S|]. unfold Py.contains, Py.find.
  destruct (Py.find_at "}{" (wrap_adjacent s) 0) as [j|] eqn:F; auto.
  apply find_adjacent in F. congruence.
Qed.

(** X15.  Once the pattern of a closing brace, whitespace and an opening
    brace has been replaced, the text holds no such pair nor the two braces
    side by side, and a text without such a pair is left as it is.  So a
    fenced block that starts with a brace and holds such a pair is decoded
    once, as the repaired array: the second repair, which follows a
    decoding error, is never tried for it. *)
Theorem adjacent_repair_is_done_once :
  (forall s, search_adjacent (sub_adjacent None s) = false
             /\ Py.contains "}{" (wrap_adjacent s) = false)
  /\ (forall s, search_adjacent s = false -> sub_adjacent None s = s)
  /\ (forall s,
        Py.startswith (Py.strip s) "{" = true ->
        search_adjacent s = true ->
        fenced_rest json_loads s
        = match json_loads (wrap_adjacent s) with
          | Ok v => Ok (actions_of (unwrap v))
          | Raise _ => Ok None
          end).
Proof.
  split; [|split].
  - intros s. split.
    + now destruct (sub_adjacent_leaves_none s []).
    + now destruct (wrap_adjacent_clean s).
  - intros s. now destruct (sub_adjacent_identity s []).
  - intros s B A. unfold fenced_rest. rewrite B, A. cbn [andb].
    destruct (json_loads (wrap_adjacent s)) as [v|e]; cbn [bind try_except];
      auto.
    destruct (is_JSONDecodeError e); auto.
    now destruct (wrap_adjacent_clean s) as [_ ->].
Qed.

(** *** Wrapper objects *)

Lemma starts_with_brace (t : string) :
  Py.startswith t "{" = true -> Py.startswith t "[" = false.
Proof.
  unfold Py.startswith. destruct t as [|c r]; [discriminate|].
  cbn [String.prefix].
  destruct (ascii_dec "{" c) as [<-|]; [reflexivity|].
  discriminate.
Qed.

(** X16.  When the search for an array anywhere in the response gives
    nothing: an object decoded from a fenced block is unwrapped (the
    actions of a [multiple_actions], or the list under [action_items] or
    [commands]) before its actions are taken, while an object decoded from
    a response that is nothing but JSON is taken as it is.  A wrapper that
    has only a list under [commands] thus gives the actions of the list in
    a fenced block and none without the fence. *)
Theorem wrappers_are_unwrapped_only_in_a_fence (text : string) :
  array_anywhere json_loads text = Ok Continue ->
  (forall s v,
      search_fenced text = Some s ->
      Py.startswith (Py.strip s) "[" = false ->
      search_adjacent s = false ->
      json_loads s = Ok v ->
      extract_json_from_response json_loads text
      = Ok (actions_of (unwrap v)))
  /\ (forall v,
        search_fenced text = None ->
        Py.startswith (Py.strip text) "{" = true ->
        search_adjacent text = false ->
        json_loads (Py.strip text) = Ok v ->
        extract_json_from_response json_loads text = Ok (actions_of v))
  /\ (forall o l,
        get "action" o = None -> get "action_items" o = None ->
        get "commands" o = Some (JList l) ->
        actions_of (unwrap (JDict o)) = Some (normalize_items l)
        /\ actions_of (JDict o) = None).
Proof.
  intros AA. split; [|split].
  - intros s v F B A L.
    unfold extract_json_from_response, extract_body.
    rewrite AA. cbn [bind]. rewrite F.
    unfold fenced_array. rewrite B. cbn [bind].
    unfold fenced_rest. rewrite A, andb_false_r, L. reflexivity.
  - intros v F B A L.
    unfold extract_json_from_response, extract_body.
    rewrite AA. cbn [bind]. rewrite F.
    unfold raw_json, raw_array. rewrite B, (starts_with_brace _ B), A.
    assert (N : String.eqb text EmptyString = false).
    { destruct text; [discriminate|reflexivity]. }
    rewrite N. cbn [negb andb orb bind try_except]. rewrite L. reflexivity.
  - intros o l A I C. split.
    + unfold unwrap. rewrite A, I, C. reflexivity.
    + unfold actions_of, normalize_action_object. now rewrite A.
Qed.

End ExtractorMore.

Section ScanMore.
Import Extractor.

(** *** What the bracket scan returns *)

Lemma bracket_scan_sound (s : string) :
  forall end_index depth e,
    bracket_scan s end_index (S depth) = (e, 0) ->
    exists inner post,
      s = inner ++ "]" ++ post
      /\ raw_balanced inner depth = true
      /\ e = S (end_index + String.length inner).
Proof.
  induction s as [|c r IH]; intros end_index depth e H; cbn [bracket_scan] in H.
  - discriminate.
  - destruct (nat_of_ascii c =? 91) eqn:O.
    + destruct (IH _ _ _ H) as (inner & post & -> & B & ->).
      exists (String c inner), post. split; [reflexivity|]. split.
      * cbn [raw_balanced]. now rewrite O.
      * cbn [String.length]. lia.
    + destruct (nat_of_ascii c =? 93) eqn:C.
      * assert (c = "]"%char) as ->.
        { apply Nat.eqb_eq in C. rewrite <- (ascii_nat_embedding c), C.
          reflexivity. }
        destruct depth as [|d].
        -- rewrite bracket_scan_closed in H. injection H as <-.
           exists EmptyString, r. split; [reflexivity|]. split; [reflexivity|].
           cbn [String.length]. lia.
        -- destruct (IH _ _ _ H) as (inner & post & -> & B & ->).
           exists (String "]" inner), post. split; [reflexivity|]. split.
           ++ exact B.
           ++ cbn [String.length]. lia.
      * destruct (IH _ _ _ H) as (inner & post & -> & B & ->).
        exists (String c inner), post. split; [reflexivity|]. split.
        -- cbn [raw_balanced]. now rewrite O, C.
        -- cbn [String.length]. lia.
Qed.

Lemma drop_cons (n : nat) (s : string) (c : ascii) (r : string) :
  Py.drop n s = String c r -> Py.drop (S n) s = r.
Proof. intros H. rewrite drop_S, H. reflexivity. Qed.

Lemma take_bracketed (inner post : string) (n : nat) :
  n = String.length inner + 2 ->
  Py.take n (String "[" (inner ++ "]" ++ post)) = "[" ++ inner ++ "]".
Proof.
  intros N.
  assert (E : String "[" (inner ++ "]" ++ post)
              = ("[" ++ inner ++ "]") ++ post).
  { change (("[" ++ inner ++ "]") ++ post)
      with (String "[" ((inner ++ "]") ++ post)).
    now rewrite append_assoc_string. }
  assert (L : n = String.length ("[" ++ inner ++ "]")).
  { change ("[" ++ inner ++ "]") with (String "[" (inner ++ "]")).
    cbn [String.length]. rewrite length_app_string. cbn [String.length].
    lia. }
  rewrite E, L. apply take_app.
Qed.

(** X17.  When the bracket scan that starts at an opening bracket gives a
    text, that text starts at the bracket and ends with the closing
    bracket at which the count of brackets first returns to zero: between
    the two the brackets pair up.  Conversely it gives the text whenever
    such a closing bracket exists. *)
Theorem scan_array_returns_the_balanced_prefix (text : string)
  (start_index : nat) (rest : string) :
  Py.drop start_index text = String "[" rest ->
  forall a,
    scan_array text start_index = Some a
    <-> exists inner post,
          rest = inner ++ "]" ++ post
          /\ raw_balanced inner 0 = true
          /\ a = "[" ++ inner ++ "]".
Proof.
  intros D a. unfold scan_array. rewrite (drop_cons _ _ _ _ D).
  split.
  - destruct (bracket_scan rest (S start_index) 1) as [e k] eqn:Sc.
    destruct k as [|k]; [|discriminate]. cbn [Nat.eqb]. intros [= <-].
    destruct (bracket_scan_sound _ _ _ _ Sc) as (inner & post & -> & B & ->).
    exists inner, post. split; [reflexivity|]. split; [exact B|].
    unfold Py.slice. rewrite D. apply take_bracketed. lia.
  - intros (inner & post & -> & B & ->).
    rewrite (bracket_scan_balanced inner ("]" ++ post) 0 (S start_index) B).
    change ("]" ++ post) with (String "]" post). cbn [bracket_scan].
    change (nat_of_ascii "]" =? 91) with false.
    change (nat_of_ascii "]" =? 93) with true. cbv iota.
    rewrite bracket_scan_closed. cbn [Nat.eqb]. f_equal.
    unfold Py.slice. rewrite D.
    change (String "]" post) with ("]" ++ post).
    apply take_bracketed. lia.
Qed.

End ScanMore.

Section ExtractorExamples.
Import Json Normalizer Extractor Aliases.


(** Two objects on two lines of a fenced block are decoded as an array of
    two. *)
Lemma two_objects_on_two_lines :
  let s := text "{'action': 'ls'}
{'action': 'pwd'}" in
  wrap_adjacent s = text "[{'action': 'ls'},{'action': 'pwd'}]"
  /\ fenced_rest Json.loads s
     = Ok (Some [JDict [("action", JStr "list_directory");
                        ("args", JDict [])];
                 JDict [("action", JStr "pwd"); ("args", JDict [])]]).
Proof.
  intros s. split; [vm_compute; reflexivity|].
  rewrite (proj2 (proj2 (adjacent_repair_is_done_once Json.loads)) s);
    vm_compute; reflexivity.
Defined.

(** A [commands] wrapper gives its action inside a fence and nothing
    without it. *)
Lemma commands_wrapper_with_and_without_fence :
  let body := text "{'commands': [{'args': {}, 'action': 'ls'}]}" in
  let fenced := text "```json
{'commands': [{'args': {}, 'action': 'ls'}]}
```" in
  extract_json_from_response Json.loads fenced
  = Ok (Some [JDict [("args", JDict []);
                     ("action", JStr "list_directory")]])
  /\ extract_json_from_response Json.loads body = Ok None.
Proof.
  intros body fenced.
  assert (V : Json.loads body
              = Ok (JDict [("commands",
                            JList [JDict [("args", JDict []);
                                          ("action", JStr "ls")]])]))
    by (vm_compute; reflexivity).
  split.
  - assert (A : array_anywhere Json.loads fenced = Ok Continue)
      by (vm_compute; reflexivity).
    destruct (wrappers_are_unwrapped_only_in_a_fence Json.loads fenced A)
      as (F & _ & _).
    rewrite (F body _ eq_refl eq_refl eq_refl V). reflexivity.
  - assert (A : array_anywhere Json.loads body = Ok Continue)
      by (vm_compute; reflexivity).
    destruct (wrappers_are_unwrapped_only_in_a_fence Json.loads body A)
      as (_ & R & _).
    rewrite (R _ eq_refl eq_refl eq_refl V). reflexivity.
Defined.

(** The scan from the first bracket of a text ends at the bracket that
    closes it. *)
Lemma scan_of_nested_brackets :
  scan_array "see [[1, 2], [3]] and [4]" 4 = Some "[[1, 2], [3]]".
Proof.
  apply (scan_array_returns_the_balanced_prefix "see [[1, 2], [3]] and [4]" 4
           "[1, 2], [3]] and [4]" eq_refl "[[1, 2], [3]]").
  exists "[1, 2], [3]", " and [4]". repeat split.
Defined.

End ExtractorExamples.

(* ================================================================== *)
(** ** Properties of the conversation history *)

Section HistoryFacts.
Import History.

Lemma deque_append_last_n (n : nat) (e : entry) (d : list entry) :
  List.length d <= n ->
  deque_append n e d = Py.last_n n (d ++ [e]).
Proof.
  intros H. unfold deque_append, Py.last_n.
  rewrite length_app. cbn [List.length].
  destruct (n <? List.length d + 1) eqn:L.
  - apply Nat.ltb_lt in L.
    replace (List.length d + 1 - n) with 1 by lia.
    now destruct (d ++ [e])%list.
  - apply Nat.ltb_ge in L.
    now replace (List.length d + 1 - n) with 0 by lia.
Qed.

Lemma run_calls_accepted (cs : list call) (n : nat) (acc : list entry) :
  run_calls cs (mk n (Py.last_n n acc))
  = mk n (Py.last_n n (accepted cs acc)).
Proof.
  revert acc. induction cs as [|c r IH]; intros acc; [reflexivity|].
  unfold run_calls in *. cbn [fold_left accepted].
  assert (A : forall e,
             mk n (deque_append n e (Py.last_n n acc))
             = mk n (Py.last_n n (acc ++ [e]))).
  { intros e. rewrite deque_append_last_n by apply last_n_length.
    now rewrite last_n_app_last_n. }
  destruct c as [msg fs|msg|]; cbn [run_call].
  - unfold add_user_message. cbn [max_history history].
    destruct (String.eqb msg EmptyString); [apply IH|].
    rewrite A. apply IH.
  - unfold add_llm_message. cbn [max_history history].
    destruct (String.eqb msg EmptyString); [apply IH|].
    rewrite A. apply IH.
  - unfold clear. cbn [max_history].
    change (@nil entry) with (Py.last_n n (@nil entry)) at 1. apply IH.
Qed.

Lemma last_n_In {A : Type} (n : nat) (l : list A) (x : A) :
  In x (Py.last_n n l) -> In x l.
Proof.
  unfold Py.last_n. intros H.
  rewrite <- (firstn_skipn (List.length l - n) l). apply in_or_app.
  now right.
Qed.

Lemma take_length (n : nat) (s : string) :
  String.length (Py.take n s) <= n.
Proof.
  revert s. induction n as [|n IH]; intros s.
  - destruct s; simpl; lia.
  - destruct s as [|c r]; simpl; [lia|]. specialize (IH r). lia.
Qed.

Lemma llm_entry_bounded (msg : string) :
  String.length (message (llm_entry msg)) <= 3015.
Proof.
  unfold llm_entry. cbn [message].
  destruct (3000 <? String.length msg) eqn:L.
  - rewrite length_app_string.
    pose proof (take_length 3000 msg) as T.
    change (String.length "... [truncated]") with 15. lia.
  - apply Nat.ltb_ge in L. lia.
Qed.

Lemma accepted_entries (cs : list call) (acc : list entry)
  (P : entry -> Prop) :
  (forall msg fs, msg <> EmptyString -> P (user_entry msg fs)) ->
  (forall msg, msg <> EmptyString -> P (llm_entry msg)) ->
  Forall P acc -> Forall P (accepted cs acc).
Proof.
  intros HU HL. revert acc.
  induction cs as [|c r IH]; intros acc H; cbn [accepted]; auto.
  destruct c as [msg fs|msg|].
  - apply IH. destruct (String.eqb_spec msg EmptyString); auto.
    apply Forall_app. split; auto.
  - apply IH. destruct (String.eqb_spec msg EmptyString); auto.
    apply Forall_app. split; auto.
  - apply IH. constructor.
Qed.

(** X18.  Whatever calls are made on a history created with
    [max_history] n, it holds the last n of the entries built since the
    last [clear] from the messages that were not empty, oldest first.  So
    it never holds more than n entries, never an empty message, and never
    a message of the LLM of more than 3015 characters; with n = 0 the
    formatted history is always empty. *)
Theorem history_keeps_the_last_messages (n : nat) (cs : list call) :
  let h := run_calls cs (init n) in
  max_history h = n
  /\ history h = Py.last_n n (accepted cs [])
  /\ List.length (history h) <= n
  /\ Forall (fun e =>
               message e <> EmptyString
               /\ (e_role e = Llm -> String.length (message e) <= 3015))
            (history h)
  /\ (n = 0 -> get_formatted_history h = EmptyString).
Proof.
  intros h.
  assert (E : h = mk n (Py.last_n n (accepted cs []))).
  { unfold h, init.
    change (@nil entry) with (Py.last_n n (@nil entry)) at 1.
    apply run_calls_accepted. }
  rewrite E. cbn [max_history history].
  split; [reflexivity|]. split; [reflexivity|].
  split; [apply last_n_length|]. split.
  - apply Forall_forall. intros e I. apply last_n_In in I.
    revert e I. apply Forall_forall. apply accepted_entries.
    + intros msg fs N. cbn [user_entry message e_role]. split; auto.
      discriminate.
    + intros msg N. split; [|intros _; apply llm_entry_bounded].
      unfold llm_entry. cbn [message].
      destruct (3000 <? String.length msg) eqn:L; auto.
      destruct msg; [now elim N|discriminate].
    + constructor.
  - intros ->. unfold get_formatted_history. cbn [history].
    unfold Py.last_n. now rewrite Nat.sub_0_r, skipn_all.
Qed.

End HistoryFacts.

(** Four calls on a history of two: the empty answer is not recorded and
    the first message is dropped; with [max_history] 0 nothing is kept. *)
Lemma history_of_two_keeps_the_last_two :
  let cs := [History.AddUser "hi" (Some [Some "/src/a.py"; None]);
             History.AddLlm EmptyString;
             History.AddLlm "hello";
             History.AddUser "more" None] in
  History.history (History.run_calls cs (History.init 2))
  = [History.mkEntry History.Llm "hello" None;
     History.mkEntry History.User "more" None]
  /\ History.history (History.run_calls cs (History.init 3))
     = [History.mkEntry History.User "hi" (Some ["a.py"]);
        History.mkEntry History.Llm "hello" None;
        History.mkEntry History.User "more" None]
  /\ History.get_formatted_history (History.run_calls cs (History.init 0))
     = EmptyString.
Proof.
  intros cs.
  destruct (history_keeps_the_last_messages 2 cs) as (_ & A & _).
  destruct (history_keeps_the_last_messages 3 cs) as (_ & B & _).
  destruct (history_keeps_the_last_messages 0 cs) as (_ & _ & _ & _ & C).
  split; [rewrite A; reflexivity|].
  split; [rewrite B; reflexivity|].
  apply C. reflexivity.
Defined.

(* ================================================================== *)
(** ** Properties of the line edits *)

Section FileEditFacts.
Import Json FileEdit.

Lemma rev_text_cons (c : ascii) (cur : list ascii) :
  string_of_list_ascii (rev (c :: cur))
  = string_of_list_ascii (rev cur) ++ String c EmptyString.
Proof. cbn [rev]. now rewrite list_text_app. Qed.

Lemma glue_glue (a b : string) (ls : list string) :
  b <> EmptyString -> glue a (glue b ls) = glue (a ++ b) ls.
Proof.
  intros N. destruct ls as [|l r]; cbn [glue].
  - destruct (String.eqb_spec b EmptyString); [contradiction|].
    cbn [glue]. destruct (String.eqb_spec (a ++ b) EmptyString) as [E|]; auto.
    destruct a; simpl in E; [contradiction|discriminate].
  - now rewrite append_assoc_string.
Qed.

Lemma lines_aux_glue (s : string) :
  forall cur,
    lines_aux cur s = glue (string_of_list_ascii (rev cur)) (lines_aux [] s).
Proof.
  induction s as [|c r IH]; intros cur.
  - cbn [lines_aux glue]. destruct cur as [|x cur]; [reflexivity|].
    rewrite rev_text_cons.
    destruct (String.eqb_spec
                (string_of_list_ascii (rev cur) ++ String x EmptyString)
                EmptyString) as [E|]; auto.
    destruct (string_of_list_ascii (rev cur)); discriminate.
  - cbn [lines_aux]. destruct (nat_of_ascii c =? 10).
    + cbn [glue]. rewrite !rev_text_cons. reflexivity.
    + rewrite (IH (c :: cur)), (IH [c]). rewrite rev_text_cons.
      rewrite glue_glue by discriminate. reflexivity.
Qed.

Lemma lines_cons_break (c : ascii) (r : string) :
  (nat_of_ascii c =? 10) = true ->
  lines_aux [] (String c r) = String c EmptyString :: lines_aux [] r.
Proof. intros H. cbn [lines_aux]. now rewrite H. Qed.

Lemma lines_cons_other (c : ascii) (r : string) :
  (nat_of_ascii c =? 10) = false ->
  lines_aux [] (String c r) = glue (String c EmptyString) (lines_aux [] r).
Proof. intros H. cbn [lines_aux]. rewrite H. apply (lines_aux_glue r [c]). Qed.

Lemma full_line_lines (l t : string) :
  full_line l = true -> lines_aux [] (l ++ t) = l :: lines_aux [] t.
Proof.
  induction l as [|c r IH]; intros H; [discriminate|].
  cbn [full_line] in H. change (String c r ++ t) with (String c (r ++ t)).
  destruct (nat_of_ascii c =? 10) eqn:B.
  - apply String.eqb_eq in H. subst r. now rewrite lines_cons_break.
  - apply andb_prop in H. destruct H as [_ H].
    rewrite lines_cons_other, (IH H) by exact B. reflexivity.
Qed.

Lemma no_break_lines (l : string) :
  no_break l = true -> l <> EmptyString -> lines_aux [] l = [l].
Proof.
  induction l as [|c r IH]; intros H N; [now elim N|].
  cbn [no_break] in H. apply andb_prop in H. destruct H as [H Hr].
  apply andb_prop in H. destruct H as [H _]. apply negb_true_iff in H.
  rewrite lines_cons_other by exact H.
  destruct r as [|d r']; [reflexivity|].
  rewrite IH by (auto; discriminate). reflexivity.
Qed.

Lemma concat_cons_text (x : string) (l : list string) :
  String.concat EmptyString (x :: l) = x ++ String.concat EmptyString l.
Proof.
  destruct l as [|y l]; cbn [String.concat].
  - now rewrite append_nil_r_string.
  - reflexivity.
Qed.

Lemma lines_of_a_text_cons (l : string) (r : list string) :
  lines_of_a_text (l :: r) = true ->
  r <> [] -> full_line l = true /\ lines_of_a_text r = true.
Proof.
  destruct r as [|l2 r]; [intros _ N; now elim N|].
  intros H _. cbn [lines_of_a_text] in H. now apply andb_prop in H.
Qed.

(** The lines of a text are the lines of the text they make. *)
Lemma lines_of_concat (ls : list string) :
  lines_of_a_text ls = true ->
  lines_aux [] (writelines ls) = ls.
Proof.
  unfold writelines. induction ls as [|l r IH]; intros H; [reflexivity|].
  rewrite concat_cons_text. destruct r as [|l2 r].
  - cbn [String.concat]. rewrite append_nil_r_string.
    cbn [lines_of_a_text] in H. apply orb_prop in H. destruct H as [H|H].
    + rewrite <- (append_nil_r_string l) at 1.
      now rewrite full_line_lines.
    + apply andb_prop in H. destruct H as [H N]. apply no_break_lines; auto.
      intros ->. discriminate.
  - destruct (lines_of_a_text_cons _ _ H) as [F W]; [discriminate|].
    rewrite full_line_lines by exact F. now rewrite IH.
Qed.

Lemma full_line_no_cr (l : string) :
  full_line l = true -> Py.lacks 13 l = true.
Proof.
  induction l as [|c r IH]; intros H; [discriminate|].
  cbn [full_line] in H. cbn [Py.lacks].
  destruct (nat_of_ascii c =? 10) eqn:B.
  - apply String.eqb_eq in H. subst r. apply Nat.eqb_eq in B. rewrite B.
    reflexivity.
  - apply andb_prop in H. destruct H as [C H]. rewrite C. now apply IH.
Qed.

Lemma no_break_no_cr (l : string) :
  no_break l = true -> Py.lacks 13 l = true.
Proof.
  induction l as [|c r IH]; intros H; [reflexivity|].
  cbn [no_break] in H. cbn [Py.lacks].
  apply andb_prop in H. destruct H as [H Hr].
  apply andb_prop in H. destruct H as [_ H]. rewrite H. now apply IH.
Qed.

Lemma lines_no_cr (ls : list string) :
  lines_of_a_text ls = true -> Py.lacks 13 (writelines ls) = true.
Proof.
  unfold writelines. induction ls as [|l r IH]; intros H; [reflexivity|].
  rewrite concat_cons_text, lacks_app. destruct r as [|l2 r].
  - cbn [lines_of_a_text] in H. apply orb_prop in H. destruct H as [H|H].
    + now rewrite full_line_no_cr.
    + apply andb_prop in H. destruct H as [H _]. now rewrite no_break_no_cr.
  - destruct (lines_of_a_text_cons _ _ H) as [F W]; [discriminate|].
    now rewrite full_line_no_cr, IH.
Qed.

Lemma universal_no_cr (s : string) :
  Py.lacks 13 s = true -> universal s = s.
Proof.
  induction s as [|c r IH]; intros H; [reflexivity|].
  cbn [Py.lacks] in H. apply andb_prop in H. destruct H as [C H].
  apply negb_true_iff in C. cbn [universal]. rewrite C. now rewrite IH.
Qed.

(** Reading back what was written. *)
Lemma readlines_writelines (ls : list string) :
  lines_of_a_text ls = true -> readlines (writelines ls) = ls.
Proof.
  intros H. unfold readlines.
  rewrite universal_no_cr by now apply lines_no_cr.
  now apply lines_of_concat.
Qed.



Lemma lines_well_formed (s : string) :
  Py.lacks 13 s = true -> lines_of_a_text (lines_aux [] s) = true.
Proof.
  induction s as [|c r IH]; intros H; [reflexivity|].
  cbn [Py.lacks] in H. apply andb_prop in H. destruct H as [C H].
  specialize (IH H).
  destruct (nat_of_ascii c =? 10) eqn:B.
  - rewrite lines_cons_break by exact B.
    assert (F : full_line (String c EmptyString) = true)
      by (cbn [full_line]; now rewrite B).
    destruct (lines_aux [] r) as [|l2 r2].
    + cbn [lines_of_a_text]. now rewrite F.
    + change (lines_of_a_text (String c EmptyString :: l2 :: r2))
        with (full_line (String c EmptyString)
              && lines_of_a_text (l2 :: r2)).
      now rewrite F, IH.
  - rewrite lines_cons_other by exact B.
    destruct (lines_aux [] r) as [|l r2]; cbn [glue].
    + cbn [String.eqb lines_of_a_text no_break]. rewrite B, C.
      cbn [full_line]. rewrite B, C. reflexivity.
    + change (String c EmptyString ++ l) with (String c l).
      destruct r2 as [|l2 r2].
      * cbn [lines_of_a_text] in *. cbn [full_line no_break String.eqb].
        rewrite B, C. cbn [negb andb].
        apply orb_prop in IH. destruct IH as [F|N].
        -- now rewrite F.
        -- apply andb_prop in N. destruct N as [N _]. rewrite N.
           apply orb_true_r.
      * change (lines_of_a_text (String c l :: l2 :: r2))
          with (full_line (String c l) && lines_of_a_text (l2 :: r2)).
        change (lines_of_a_text (l :: l2 :: r2))
          with (full_line l && lines_of_a_text (l2 :: r2)) in IH.
        apply andb_prop in IH. destruct IH as [F W].
        cbn [full_line]. now rewrite B, C, F, W.
Qed.

Lemma universal_lacks_cr (n : nat) :
  forall s, String.length s <= n -> Py.lacks 13 (universal s) = true.
Proof.
  induction n as [|n IH]; intros s L.
  - destruct s; [reflexivity|simpl in L; lia].
  - destruct s as [|c r]; [reflexivity|]. cbn [String.length] in L.
    cbn [universal]. destruct (nat_of_ascii c =? 13) eqn:C.
    + cbn [Py.lacks]. rewrite nat_ascii_embedding by lia.
      cbn [Nat.eqb negb andb].
      destruct r as [|d r2]; [reflexivity|]. cbn [String.length] in L.
      destruct (nat_of_ascii d =? 10); apply IH; cbn [String.length]; lia.
    + cbn [Py.lacks]. rewrite C. apply IH. lia.
Qed.

Lemma readlines_well_formed (s : string) :
  lines_of_a_text (readlines s) = true.
Proof.
  unfold readlines. apply lines_well_formed.
  now apply (universal_lacks_cr (String.length s)).
Qed.


(** *** Lists of lines *)

Lemma full_lines_are_lines (ls : list string) :
  forallb full_line ls = true -> lines_of_a_text ls = true.
Proof.
  induction ls as [|l r IH]; intros H; [reflexivity|].
  cbn [forallb] in H. apply andb_prop in H. destruct H as [F H].
  destruct r as [|l2 r].
  - cbn [lines_of_a_text]. now rewrite F.
  - change (lines_of_a_text (l :: l2 :: r))
      with (full_line l && lines_of_a_text (l2 :: r)).
    now rewrite F, IH.
Qed.

Lemma lines_app (a b : list string) :
  forallb full_line a = true -> lines_of_a_text b = true ->
  lines_of_a_text (a ++ b) = true.
Proof.
  induction a as [|l r IH]; intros Ha Hb; [exact Hb|].
  cbn [forallb] in Ha. apply andb_prop in Ha. destruct Ha as [F Ha].
  specialize (IH Ha Hb). cbn [app].
  destruct (r ++ b)%list as [|l2 r2] eqn:E.
  - cbn [lines_of_a_text]. now rewrite F.
  - change (lines_of_a_text (l :: l2 :: r2))
      with (full_line l && lines_of_a_text (l2 :: r2)).
    now rewrite F, IH.
Qed.

Lemma lines_split (a b : list string) :
  lines_of_a_text (a ++ b) = true -> b <> [] ->
  forallb full_line a = true /\ lines_of_a_text b = true.
Proof.
  induction a as [|l r IH]; intros H N; [now split|].
  cbn [app] in H.
  destruct (lines_of_a_text_cons l (r ++ b) H) as [F W].
  { destruct r; [exact N|discriminate]. }
  destruct (IH W N) as [A B]. cbn [forallb]. now rewrite F, A.
Qed.

Lemma lines_firstn (i : nat) (ls : list string) :
  lines_of_a_text ls = true -> i < List.length ls ->
  forallb full_line (firstn i ls) = true
  /\ lines_of_a_text (skipn i ls) = true.
Proof.
  intros H L. rewrite <- (firstn_skipn i ls) in H.
  apply lines_split in H; auto.
  intros E. apply (f_equal (@List.length string)) in E.
  rewrite length_skipn in E. simpl in E. lia.
Qed.

Lemma forallb_firstn {A : Type} (f : A -> bool) (i : nat) (l : list A) :
  forallb f l = true -> forallb f (firstn i l) = true.
Proof.
  revert i. induction l as [|x r IH]; intros i H; [now destruct i|].
  cbn [forallb] in H. apply andb_prop in H. destruct H as [Hx H].
  destruct i; [reflexivity|]. cbn [firstn forallb]. now rewrite Hx, IH.
Qed.

Lemma forallb_skipn {A : Type} (f : A -> bool) (i : nat) (l : list A) :
  forallb f l = true -> forallb f (skipn i l) = true.
Proof.
  revert i. induction l as [|x r IH]; intros i H; [now destruct i|].
  destruct i; [exact H|]. cbn [skipn]. apply IH.
  cbn [forallb] in H. now apply andb_prop in H.
Qed.

Lemma lines_insert (i : nat) (x : string) (ls : list string) :
  lines_of_a_text ls = true -> full_line x = true ->
  i < List.length ls \/ forallb full_line ls = true ->
  lines_of_a_text (insert_at i x ls) = true.
Proof.
  intros W F [L|A]; unfold insert_at.
  - destruct (lines_firstn i ls W L) as [H1 H2].
    apply lines_app; auto.
    destruct (skipn i ls) as [|l2 r2] eqn:E.
    + cbn [lines_of_a_text]. now rewrite F.
    + change (lines_of_a_text (x :: l2 :: r2))
        with (full_line x && lines_of_a_text (l2 :: r2)).
      now rewrite F, H2.
  - apply lines_app; [now apply forallb_firstn|].
    apply full_lines_are_lines. cbn [forallb]. rewrite F.
    now apply forallb_skipn.
Qed.

Lemma lines_delete (a b : nat) (ls : list string) :
  lines_of_a_text ls = true -> a < List.length ls ->
  lines_of_a_text (del_slice a b ls) = true.
Proof.
  intros W L. unfold del_slice. destruct (b <=? a) eqn:E; [exact W|].
  apply Nat.leb_gt in E.
  destruct (lines_firstn a ls W L) as [H1 _].
  apply lines_app; auto.
  destruct (Nat.lt_ge_cases b (List.length ls)) as [Lb|Lb].
  - now destruct (lines_firstn b ls W Lb).
  - now rewrite skipn_all2.
Qed.

Lemma full_line_of_content (c : string) :
  no_break c = true -> full_line (c ++ Supervisor.nl) = true.
Proof.
  induction c as [|x r IH]; intros H; [reflexivity|].
  cbn [no_break] in H. apply andb_prop in H. destruct H as [H Hr].
  apply andb_prop in H. destruct H as [B C]. apply negb_true_iff in B.
  change (String x r ++ Supervisor.nl) with (String x (r ++ Supervisor.nl)).
  cbn [full_line]. now rewrite B, C, IH.
Qed.

(** *** The two modes *)

(** What a successful insertion leaves. *)
Lemma insert_line_result (path_str path : string) (args : dict)
  (old c : string) (k : nat) :
  get "line_number" args = Some (JInt (Z.of_nat k)) ->
  1 <= k <= List.length (readlines old) + 1 ->
  get "content" args = Some (JStr c) ->
  handle_update_file InsertLine path_str path args (mkEditObs None) (File old)
  = ("Success: Content inserted at line " ++ Py.str_of_int (Z.of_nat k)
     ++ " in '" ++ path ++ "'.",
     File (writelines (insert_at (k - 1) (c ++ Supervisor.nl)
                                 (readlines old)))).
Proof.
  intros G K C. unfold handle_update_file. rewrite G, C.
  cbn [as_int int_text open_error add_newline].
  replace (Z.of_nat k <=? 0)%Z with false by (symmetry; apply Z.leb_gt; lia).
  replace (Z.of_nat (List.length (readlines old)) + 1 <? Z.of_nat k)%Z
    with false by (symmetry; apply Z.ltb_ge; lia).
  replace (Z.to_nat (Z.of_nat k - 1)) with (k - 1) by lia.
  reflexivity.
Qed.

(** What a successful deletion leaves. *)
Lemma delete_range_result (path_str path : string) (args : dict)
  (old : string) (a b : nat) :
  get "start_line" args = Some (JInt (Z.of_nat a)) ->
  get "end_line" args = Some (JInt (Z.of_nat b))
  \/ get "end_line" args = None /\ b = a ->
  1 <= a <= b -> a <= List.length (readlines old) ->
  handle_update_file DeleteLineRange path_str path args (mkEditObs None)
    (File old)
  = ("Success: Lines " ++ Py.str_of_int (Z.of_nat a) ++ "-"
     ++ Py.str_of_int (Z.of_nat b) ++ " deleted from '" ++ path ++ "'.",
     File (writelines
             (del_slice (a - 1) (Nat.min b (List.length (readlines old)))
                        (readlines old)))).
Proof.
  intros G E K L. unfold handle_update_file. rewrite G.
  assert (E' : match get "end_line" args with
               | Some v => Some v
               | None => Some (JInt (Z.of_nat a))
               end = Some (JInt (Z.of_nat b))).
  { destruct E as [->|[-> ->]]; reflexivity. }
  rewrite E'. cbn [as_int int_text open_error].
  replace (0 <? Z.of_nat a)%Z with true by (symmetry; apply Z.ltb_lt; lia).
  replace (Z.of_nat a <=? Z.of_nat b)%Z with true
    by (symmetry; apply Z.leb_le; lia).
  cbn [andb].
  replace (Z.of_nat (List.length (readlines old)) <? Z.of_nat a)%Z
    with false by (symmetry; apply Z.ltb_ge; lia).
  replace (Z.to_nat (Z.of_nat a - 1)) with (a - 1) by lia.
  replace (Z.to_nat (Z.min (Z.of_nat b)
                           (Z.of_nat (List.length (readlines old)))))
    with (Nat.min b (List.length (readlines old))) by lia.
  reflexivity.
Qed.

(** X19.  A line inserted at a position from 1 to one behind the last
    line, with a content that holds no line break, is read back as that
    line of the file: the lines before it stay, those from it on move down
    by one.  This needs the position to be that of an existing line, or
    the file to end with a line break. *)
Theorem inserted_line_reads_back (path_str path : string) (args : dict)
  (old c : string) (k : nat) :
  get "line_number" args = Some (JInt (Z.of_nat k)) ->
  1 <= k <= List.length (readlines old) + 1 ->
  get "content" args = Some (JStr c) ->
  no_break c = true ->
  k <= List.length (readlines old) \/ ends_with_break old = true ->
  exists msg new,
    handle_update_file InsertLine path_str path args (mkEditObs None)
      (File old) = (msg, File new)
    /\ readlines new
       = (firstn (k - 1) (readlines old)
          ++ (c ++ Supervisor.nl)%string :: skipn (k - 1) (readlines old))%list
    /\ nth_error (readlines new) (k - 1) = Some (c ++ Supervisor.nl)
    /\ List.length (readlines new) = S (List.length (readlines old)).
Proof.
  intros G K C N E.
  rewrite (insert_line_result path_str path args old c k G K C).
  eexists. eexists. split; [reflexivity|].
  assert (R : readlines (writelines (insert_at (k - 1) (c ++ Supervisor.nl)
                                               (readlines old)))
              = insert_at (k - 1) (c ++ Supervisor.nl) (readlines old)).
  { apply readlines_writelines. apply lines_insert.
    - apply readlines_well_formed.
    - now apply full_line_of_content.
    - destruct E as [E|E]; [left; lia|right; exact E]. }
  rewrite R. unfold insert_at. split; [reflexivity|]. split.
  - rewrite nth_error_app2 by (rewrite length_firstn; lia).
    rewrite length_firstn.
    replace (k - 1 - Nat.min (k - 1) (List.length (readlines old)))
      with 0 by lia.
    reflexivity.
  - rewrite length_app, length_firstn. cbn [List.length].
    rewrite length_skipn. lia.
Qed.

(** X20.  A deletion of the lines from [start_line] to [end_line], where
    [end_line] stands for [start_line] when it is not given and may lie
    behind the end of the file, leaves the lines before [start_line] and
    those behind [end_line], as they are read back. *)
Theorem deleted_lines_read_back (path_str path : string) (args : dict)
  (old : string) (a b : nat) :
  get "start_line" args = Some (JInt (Z.of_nat a)) ->
  get "end_line" args = Some (JInt (Z.of_nat b))
  \/ get "end_line" args = None /\ b = a ->
  1 <= a <= b -> a <= List.length (readlines old) ->
  exists msg new,
    handle_update_file DeleteLineRange path_str path args (mkEditObs None)
      (File old) = (msg, File new)
    /\ readlines new
       = (firstn (a - 1) (readlines old) ++ skipn b (readlines old))%list
    /\ List.length (readlines new)
       = List.length (readlines old)
         - (Nat.min b (List.length (readlines old)) - (a - 1)).
Proof.
  intros G E K L.
  rewrite (delete_range_result path_str path args old a b G E K L).
  eexists. eexists. split; [reflexivity|].
  assert (R : readlines
                (writelines
                   (del_slice (a - 1)
                      (Nat.min b (List.length (readlines old)))
                      (readlines old)))
              = del_slice (a - 1) (Nat.min b (List.length (readlines old)))
                  (readlines old)).
  { apply readlines_writelines. apply lines_delete.
    - apply readlines_well_formed.
    - lia. }
  rewrite R. unfold del_slice.
  replace (Nat.min b (List.length (readlines old)) <=? a - 1) with false
    by (symmetry; apply Nat.leb_gt; lia).
  assert (S : skipn (Nat.min b (List.length (readlines old))) (readlines old)
              = skipn b (readlines old)).
  { destruct (Nat.le_ge_cases b (List.length (readlines old))) as [H|H].
    - now rewrite Nat.min_l.
    - rewrite Nat.min_r by exact H. now rewrite !skipn_all2. }
  rewrite S. split; [reflexivity|].
  rewrite length_app, length_firstn, <- S, length_skipn. lia.
Qed.


(** X22.  Whatever the arguments and the node at the path: an answer
    other than a success leaves the node as it was; a success is answered
    only for a file that could be opened, and leaves a file. *)
Theorem line_edit_refusals_change_nothing (mode : line_mode)
  (path_str path : string) (args : dict) (obs : edit_obs) (n : node) :
  let r := handle_update_file mode path_str path args obs n in
  (String.prefix "Success" (fst r) = false -> snd r = n)
  /\ (String.prefix "Success" (fst r) = true ->
      open_error obs = None
      /\ exists old new, n = File old /\ snd r = File new).
Proof.
  unfold handle_update_file.
  destruct n as [| |old]; cbn [fst snd];
    [split; [reflexivity|discriminate]..|].
  destruct mode.
  - destruct (as_int (get "line_number" args)) as [k|];
      [|split; [reflexivity|discriminate]].
    destruct (k <=? 0)%Z; [split; [reflexivity|discriminate]|].
    destruct (open_error obs) as [e|];
      [split; [reflexivity|discriminate]|].
    destruct (Z.of_nat (List.length (readlines old)) + 1 <? k)%Z;
      [split; [reflexivity|discriminate]|].
    destruct (match get "content" args with
              | Some v => v
              | None => JStr EmptyString
              end) as [| | | |c| |];
      cbn [add_newline fst snd exn_str];
      try (split; [reflexivity|discriminate]).
    split; [discriminate|]. intros _. split; [reflexivity|].
    exists old. eexists. split; reflexivity.
  - destruct (as_int (get "start_line" args)) as [a|];
      [|split; [reflexivity|discriminate]].
    destruct (as_int match get "end_line" args with
                     | Some v => Some v
                     | None => get "start_line" args
                     end) as [b|];
      [|split; [reflexivity|discriminate]].
    destruct ((0 <? a)%Z && (a <=? b)%Z);
      [|split; [reflexivity|discriminate]].
    destruct (open_error obs) as [e|];
      [split; [reflexivity|discriminate]|].
    destruct (Z.of_nat (List.length (readlines old)) <? a)%Z;
      [split; [reflexivity|discriminate]|].
    cbn [fst snd]. split; [discriminate|]. intros _. split; [reflexivity|].
    exists old. eexists. split; reflexivity.
Qed.

End FileEditFacts.

Section FileEditExamples.
Import Json FileEdit.

(** A line inserted as line 2 of a file of two lines; and a line inserted
    behind the last line of a file that does not end with a line break,
    which is read back as part of that line. *)
Lemma insert_into_two_lines :
  let nl := Supervisor.nl in
  let args := [("line_number", JInt 2); ("content", JStr "x")] in
  let last := [("line_number", JInt 3); ("content", JStr "c")] in
  (exists msg new,
      handle_update_file InsertLine "f" "/w/f" args (mkEditObs None)
        (File ("a" ++ nl ++ "b" ++ nl)) = (msg, File new)
      /\ readlines new = ["a" ++ nl; "x" ++ nl; "b" ++ nl])
  /\ snd (handle_update_file InsertLine "f" "/w/f" last (mkEditObs None)
            (File ("a" ++ nl ++ "b")))
     = File ("a" ++ nl ++ "bc" ++ nl).
Proof.
  intros nl args last. split; [|reflexivity].
  destruct (inserted_line_reads_back "f" "/w/f" args
              ("a" ++ nl ++ "b" ++ nl) "x" 2)
    as (msg & new & E & R & _); try reflexivity.
  - vm_compute. lia.
  - left. vm_compute. lia.
  - exists msg, new. split; [exact E|]. rewrite R. reflexivity.
Defined.

(** Lines 2 to 9 of a file of three lines. *)
Lemma delete_beyond_the_end :
  let nl := Supervisor.nl in
  let args := [("start_line", JInt 2); ("end_line", JInt 9)] in
  exists msg new,
    handle_update_file DeleteLineRange "f" "/w/f" args (mkEditObs None)
      (File ("a" ++ nl ++ "b" ++ nl ++ "c" ++ nl)) = (msg, File new)
    /\ readlines new = ["a" ++ nl].
Proof.
  intros nl args.
  destruct (deleted_lines_read_back "f" "/w/f" args
              ("a" ++ nl ++ "b" ++ nl ++ "c" ++ nl) 2 9)
    as (msg & new & E & R & _); try reflexivity.
  - left. reflexivity.
  - lia.
  - vm_compute. lia.
  - exists msg, new. split; [exact E|]. rewrite R. reflexivity.
Defined.


(** A line number that is a text is refused and the file stays. *)
Lemma line_number_as_text_is_refused :
  let args := [("line_number", JStr "2"); ("content", JStr "x")] in
  handle_update_file InsertLine "f" "/w/f" args (mkEditObs None) (File "a")
  = ("Error: 'line_number' must be a positive integer for 'insert_line'.",
     File "a")
  /\ snd (handle_update_file InsertLine "f" "/w/f" args (mkEditObs None)
            (File "a")) = File "a".
Proof.
  intros args. split; [reflexivity|].
  apply (proj1 (line_edit_refusals_change_nothing InsertLine "f" "/w/f" args
                  (mkEditObs None) (File "a"))).
  reflexivity.
Defined.

End FileEditExamples.
